(** * Automatic TLS initialisation (pkg/server/auto_tls_init.go)

    A shallow embedding of the certificate bootstrap, bundle-receive and
    rotation workflows, read off the Go source.  The filesystem is a finite
    map from paths to entries, Go's [error] values are a small inductive
    type, and a Go panic is an outcome of its own.  Everything the source
    imports from other packages (PEM coding, key generation, the path
    locator, address splitting) is gathered in one record, [Env]. *)

From Stdlib Require Import ZArith Ascii.
From stdpp Require Import base option list strings gmap fin_maps sorting.

Local Open Scope string_scope.
Set Warnings "-clear-no-such-hyp".

(** ** Errors *)

(** The [syscall.Errno] values that the modelled filesystem hands out. *)
Inductive errno := ENOENT | EEXIST | EACCES | EIO.

(** Go [error] values.  [EPath] is an [*fs.PathError] from package os,
    [EAddr] a [*net.AddrError], [ENew]/[ENewf] come from [errors.New] and
    [errors.Newf], [EWrap]/[EWrapf] from [errors.Wrap] and [errors.Wrapf]
    (format string and arguments kept apart, so that [%q] needs no model). *)
Inductive error :=
| EPath (op : string) (path : string) (e : errno)
| EAddr (why : string) (addr : string)
| ENew (msg : string)
| ENewf (fmt : string) (args : list string)
| EWrap (cause : error) (msg : string)
| EWrapf (cause : error) (fmt : string) (args : list string).

#[global] Instance errno_eq_dec : EqDecision errno.
Proof. solve_decision. Defined.

(** [errors.Cause]-style descent to the innermost error. *)
Fixpoint rootCause (e : error) : error :=
  match e with
  | EWrap c _ => rootCause c
  | EWrapf c _ _ => rootCause c
  | _ => e
  end.

(** [oserror.IsNotExist]: true when the chain bottoms out in ENOENT. *)
Definition IsNotExist (e : error) : bool :=
  match rootCause e with
  | EPath _ _ ENOENT => true
  | _ => false
  end.

(** ** Outcomes and the world *)

(** A Go call either returns or panics. *)
Inductive outcome (A : Type) :=
| Ret (a : A)
| Panic (v : error).
Arguments Ret {A} a.
Arguments Panic {A} v.

(** Why a file that is there cannot be opened: the process lacks the
    permission, or the device fails. *)
Inductive fault := Denied | Faulty.

Definition errnoOf (why : fault) : errno :=
  match why with Denied => EACCES | Faulty => EIO end.

(** A directory entry: a regular file with its bytes and permission bits,
    or something that is there but cannot be opened.  A regular file can be
    read; whether it can be opened for writing is decided by its
    owner-write bit. *)
Inductive entry :=
| Regular (data : string) (mode : N)
| Blocked (why : fault).

(** The world: the files, the log of paths opened for writing (most recent
    first), and the position of the random source that key generation
    draws from. *)
Record world := World {
  fs : gmap string entry;
  trace : list string;
  seed : nat
}.

Definition M (A : Type) : Type := world → outcome A * world.

Definition ret {A} (a : A) : M A := λ w, (Ret a, w).
Definition panic {A} (v : error) : M A := λ w, (Panic v, w).
Definition bind {A B} (m : M A) (k : A → M B) : M B :=
  λ w, match m w with
       | (Ret a, w') => k a w'
       | (Panic v, w') => (Panic v, w')
       end.

Notation "'let*' x ':=' m 'in' k" := (bind m (λ x, k))
  (at level 10, x binder, m at level 100, k at level 200).

(** ** Package os *)

Definition ReadFile (path : string) : M (option string * option error) :=
  λ w, match fs w !! path with
       | Some (Regular data _) => (Ret (Some data, None), w)
       | Some (Blocked why) =>
           (Ret (None, Some (EPath "open" path (errnoOf why))), w)
       | None => (Ret (None, Some (EPath "open" path ENOENT)), w)
       end.

Definition Stat (path : string) : M (option error) :=
  λ w, match fs w !! path with
       | Some _ => (Ret None, w)
       | None => (Ret (Some (EPath "stat" path ENOENT)), w)
       end.

(** ** PEM blocks *)

Record Block := MkBlock { blockType : string; blockBytes : string }.

(** A Go byte slice that may be nil, read as bytes. *)
Definition bytesOf (b : option string) : string := default "" b.

(** ** What the source imports *)

Record Locator := MkLocator {
  NodeCertPath : string;         NodeKeyPath : string;
  CACertPath : string;           CAKeyPath : string;
  ClientNodeCertPath : string;   ClientNodeKeyPath : string;
  ClientCACertPath : string;     ClientCAKeyPath : string;
  SQLServiceCertPath : string;   SQLServiceKeyPath : string;
  SQLServiceCACertPath : string; SQLServiceCAKeyPath : string;
  RPCServiceCertPath : string;   RPCServiceKeyPath : string;
  RPCServiceCACertPath : string; RPCServiceCAKeyPath : string;
  UICertPath : string;           UIKeyPath : string;
  UICACertPath : string;         UICAKeyPath : string
}.

(** The functions and constants of other packages that auto_tls_init.go
    calls.  Key generation reads the random source at a position. *)
Record Env := MkEnv {
  (* addr.SplitHostPort *)
  SplitHostPort : string → string → error + (string * string);
  (* certnames.MakeLocator and Locator.EnsureCertsDirectory *)
  MakeLocator : string → Locator;
  EnsureCertsDirectory : string → option error;
  (* username.NodeUser and caCommonName *)
  NodeUser : string;
  caCommonName : string;
  (* encoding/pem and security.PEMToCertificates *)
  pemDecode : string → option Block * string;
  pemEncodeToMemory : Block → string;
  PEMToCertificates : string → error + list Block;
  (* security.CreateCACertAndKey, security.CreateServiceCertAndKey *)
  CreateCACertAndKey : nat → Z → string → error + (Block * Block);
  CreateServiceCertAndKey :
    nat → Z → string → list string → Block → Block → bool →
    error + (Block * Block)
}.

(** ** The structures of the source *)

Record ServiceCertificateBundle := MkSCB {
  CACertificate : option string;
  CAKey : option string;
  HostCertificate : option string;
  HostKey : option string
}.

Definition emptySCB : ServiceCertificateBundle := MkSCB None None None None.

Record CertificateBundle := MkCB {
  InterNode : ServiceCertificateBundle;
  UserAuth : ServiceCertificateBundle;
  SQLService : ServiceCertificateBundle;
  RPCService : ServiceCertificateBundle;
  AdminUIService : ServiceCertificateBundle
}.

Definition emptyCB : CertificateBundle :=
  MkCB emptySCB emptySCB emptySCB emptySCB emptySCB.

(** The fields of [base.Config] that the workflows read. *)
Record Config := MkConfig {
  SSLCertsDir : string;
  Addr : string;       AdvertiseAddr : string;
  SplitListenSQL : bool;
  SQLAddr : string;    SQLAdvertiseAddr : string;
  HTTPAddr : string;   HTTPAdvertiseAddr : string
}.

(** [time.Duration] counts nanoseconds. *)
Definition Hour : Z := 3600 * 1000000000.
Definition defaultCALifetime : Z := 10 * 366 * 24 * Hour.
Definition defaultCertLifetime : Z := 5 * 366 * 24 * Hour.

(** The octal permission bits 0644 and 0600. *)
Definition mode0644 : N := 6 * 64 + 4 * 8 + 4.
Definition mode0600 : N := 6 * 64.

Definition serviceNameInterNode := "cockroach-node".
Definition serviceNameUserAuth := "cockroach-client".
Definition serviceNameSQL := "cockroach-sql".
Definition serviceNameRPC := "cockroach-rpc".
Definition serviceNameUI := "cockroach-http".

(** ** The code *)

Section Code.
Context (E : Env).

(** Modelled from the spec: [security.WritePEMToFile] is not among the
    sources.  The spec's store contract is: write the bytes at the path with
    the given mode; with overwrite disallowed an existing path is refused
    with AlreadyExists; otherwise an I/O error.  The mode only applies to a
    file that is created, and encoding a nil block panics once the file has
    been opened.  An existing file is opened for writing only when its
    owner-write bit is set, otherwise the open is refused for lack of
    permission: the process is taken to own its files and not to be the
    superuser. *)
Definition ownerMayWrite (mode : N) : bool := N.testbit mode 7.

Definition WritePEMToFile (path : string) (mode : N) (overwrite : bool)
    (blk : option Block) : M (option error) :=
  λ w,
    let store (m : N) :=
      match blk with
      | Some b =>
          (Ret None,
           World (<[path := Regular (pemEncodeToMemory E b) m]> (fs w))
                 (path :: trace w) (seed w))
      | None =>
          (Panic (ENew "invalid memory address or nil pointer dereference"),
           World (<[path := Regular "" m]> (fs w)) (path :: trace w) (seed w))
      end in
    match fs w !! path with
    | None => store mode
    | Some ent =>
        if overwrite then
          match ent with
          | Regular _ m =>
              if ownerMayWrite m then store m
              else (Ret (Some (EPath "open" path EACCES)), w)
          | Blocked why => (Ret (Some (EPath "open" path (errnoOf why))), w)
          end
        else (Ret (Some (EPath "open" path EEXIST)), w)
    end.

(** Modelled from the spec: the asset loader's [FileExists] is not among the
    sources; the guard asks whether the file already exists on disk, and a
    failure of the lookup other than not-found is an error. *)
Definition FileExists (path : string) : M (bool * option error) :=
  let* err := Stat path in
  match err with
  | None => ret (true, None)
  | Some e => if IsNotExist e then ret (false, None) else ret (false, Some e)
  end.

(** One draw from the random source for a CA pair, one for a leaf pair. *)
Definition genCA (lifespan : Z) (cn : string) : M (error + (Block * Block)) :=
  λ w, (Ret (CreateCACertAndKey E (seed w) lifespan cn),
        World (fs w) (trace w) (S (seed w))).

Definition genServiceCert (lifespan : Z) (cn : string) (hostnames : list string)
    (caCert caKey : Block) (alsoClient : bool) : M (error + (Block * Block)) :=
  λ w, (Ret (CreateServiceCertAndKey E (seed w) lifespan cn hostnames
               caCert caKey alsoClient),
        World (fs w) (trace w) (S (seed w))).

Definition loadCertificateFile (certPath : string) := ReadFile certPath.
Definition loadKeyFile (keyPath : string) := ReadFile keyPath.

Definition writeCertificateFile (certFilePath : string)
    (certificatePEM : option Block) (overwrite : bool) : M (option error) :=
  WritePEMToFile certFilePath mode0644 overwrite certificatePEM.

Definition writeKeyFile (keyFilePath : string) (keyPEM : option Block)
    (overwrite : bool) : M (option error) :=
  WritePEMToFile keyFilePath mode0600 overwrite keyPEM.

Definition setCACertificate v (sb : ServiceCertificateBundle) :=
  MkSCB v (CAKey sb) (HostCertificate sb) (HostKey sb).
Definition setCAKey v (sb : ServiceCertificateBundle) :=
  MkSCB (CACertificate sb) v (HostCertificate sb) (HostKey sb).
Definition setHostCertificate v (sb : ServiceCertificateBundle) :=
  MkSCB (CACertificate sb) (CAKey sb) v (HostKey sb).
Definition setHostKey v (sb : ServiceCertificateBundle) :=
  MkSCB (CACertificate sb) (CAKey sb) (HostCertificate sb) v.

Definition loadServiceCertAndKey (sb : ServiceCertificateBundle)
    (certPath keyPath : string) : M (ServiceCertificateBundle * option error) :=
  let* '(cert, err) := loadCertificateFile certPath in
  let sb := setHostCertificate cert sb in
  match err with
  | Some e => ret (sb, Some e)
  | None =>
      let* '(key, err) := loadKeyFile keyPath in
      let sb := setHostKey key sb in
      ret (sb, err)
  end.

Definition loadCACertAndKey (sb : ServiceCertificateBundle)
    (certPath keyPath : string) : M (ServiceCertificateBundle * option error) :=
  let* '(cert, err) := loadCertificateFile certPath in
  let sb := setCACertificate cert sb in
  match err with
  | Some e => ret (sb, Some e)
  | None =>
      let* '(key, err) := loadKeyFile keyPath in
      let sb := setCAKey key sb in
      ret (sb, err)
  end.

Definition createServiceCA (sb : ServiceCertificateBundle)
    (caCertPath caKeyPath : string) (initLifespan : Z)
    : M (ServiceCertificateBundle * option error) :=
  let* r := genCA initLifespan (caCommonName E) in
  match r with
  | inl err => ret (sb, Some err)
  | inr (caCert, caKey) =>
      let sb := setCACertificate (Some (pemEncodeToMemory E caCert)) sb in
      let sb := setCAKey (Some (pemEncodeToMemory E caKey)) sb in
      let* err := writeCertificateFile caCertPath (Some caCert) false in
      match err with
      | Some e => ret (sb, Some e)
      | None =>
          let* err := writeKeyFile caKeyPath (Some caKey) false in
          match err with
          | Some e => ret (sb, Some e)
          | None => ret (sb, None)
          end
      end
  end.

(** The tail of [loadOrCreateServiceCertificates] (from "CA cert and key
    should now be loaded" on): decode the CA held in memory, sign a host
    pair, persist it without overwriting.  The index [caCertPEM[0]] is
    evaluated before the call that signs. *)
Definition issueServiceCert (sb : ServiceCertificateBundle)
    (serviceCertPath serviceKeyPath : string) (serviceCertLifespan : Z)
    (commonName : string) (hostnames : list string) (alsoClient : bool)
    : M (ServiceCertificateBundle * option error) :=
  match PEMToCertificates E (bytesOf (CACertificate sb)) with
  | inl err => ret (sb, Some (EWrap err "error when decoding PEM CACertificate"))
  | inr caCertPEM =>
      let '(caKeyPEM, rest) := pemDecode E (bytesOf (CAKey sb)) in
      match caKeyPEM with
      | None => ret (sb, Some (ENew "error when decoding PEM CAKey"))
      | Some caKeyPEM =>
          if (0 <? String.length rest)%nat
          then ret (sb, Some (ENew "error when decoding PEM CAKey"))
          else
            match caCertPEM with
            | [] => panic (ENew "index out of range [0] with length 0")
            | caCert0 :: _ =>
                let* r := genServiceCert serviceCertLifespan commonName
                            hostnames caCert0 caKeyPEM alsoClient in
                match r with
                | inl err =>
                    ret (sb, Some (EWrap err "failed to create Service Cert and Key"))
                | inr (hostCert, hostKey) =>
                    let sb := setHostCertificate
                                (Some (pemEncodeToMemory E hostCert)) sb in
                    let sb := setHostKey (Some (pemEncodeToMemory E hostKey)) sb in
                    let* err := writeCertificateFile serviceCertPath
                                  (Some hostCert) false in
                    match err with
                    | Some e => ret (sb, Some e)
                    | None =>
                        let* err := writeKeyFile serviceKeyPath (Some hostKey) false in
                        match err with
                        | Some e => ret (sb, Some e)
                        | None => ret (sb, None)
                        end
                    end
                end
            end
      end
  end.

Definition loadOrCreateServiceCertificates (sb : ServiceCertificateBundle)
    (serviceCertPath serviceKeyPath caCertPath caKeyPath : string)
    (serviceCertLifespan caCertLifespan : Z)
    (commonName serviceName : string) (hostnames : list string)
    (serviceCertIsAlsoValidAsClient : bool)
    : M (ServiceCertificateBundle * option error) :=
  let* '(cert, err) := loadCertificateFile serviceCertPath in
  let sb := setHostCertificate cert sb in
  match err with
  | None =>
      (* Cert file exists, now load key. *)
      let* '(key, err) := loadKeyFile serviceKeyPath in
      let sb := setHostKey key sb in
      match err with
      | Some e =>
          if IsNotExist e then
            ret (sb, Some (EWrapf e
              "failed to load service certificate key for %q expected key at %q"
              [serviceCertPath; serviceKeyPath]))
          else ret (sb, Some (EWrap e "something went wrong loading service key"))
      | None => ret (sb, None)
      end
  | Some _ =>
      (* err != nil is not handled here. *)
      let* '(ca, err) := loadCertificateFile caCertPath in
      let sb := setCACertificate ca sb in
      let* '(sb, early) :=
        match err with
        | None =>
            let* '(key, err) := loadKeyFile caKeyPath in
            let sb := setCAKey key sb in
            match err with
            | Some e =>
                ret (sb, Some (EWrapf e
                  "loaded service CA cert but failed to load service CA key file: %q"
                  [caKeyPath]))
            | None => ret (sb, None)
            end
        | Some e =>
            if IsNotExist e then
              let* '(sb, err) := createServiceCA sb caCertPath caKeyPath
                                   caCertLifespan in
              match err with
              | Some e => ret (sb, Some (EWrap e "failed to create Service CA"))
              | None => ret (sb, None)
              end
            else
              (* missing else case here. *)
              ret (sb, None)
        end in
      match early with
      | Some e => ret (sb, Some e)
      | None =>
          issueServiceCert sb serviceCertPath serviceKeyPath
            serviceCertLifespan commonName hostnames
            serviceCertIsAlsoValidAsClient
      end
  end.

(** [extractHosts]: the loop over the addresses, [res] being the slice built
    so far; a split error panics. *)
Fixpoint extractHostsFrom (res : list string) (addrs : list string)
    : outcome (list string) :=
  match addrs with
  | [] => Ret res
  | a :: addrs =>
      match SplitHostPort E a "0" with
      | inl err => Panic err
      | inr (hostname, _) =>
          let found := existsb (λ h, String.eqb h hostname) res in
          extractHostsFrom (if found then res else res ++ [hostname]) addrs
      end
  end.

Definition extractHosts (addrs : list string) : outcome (list string) :=
  extractHostsFrom [] addrs.

Definition lift {A} (r : outcome A) : M A := λ w, (r, w).

Definition setInterNode v (b : CertificateBundle) :=
  MkCB v (UserAuth b) (SQLService b) (RPCService b) (AdminUIService b).
Definition setUserAuth v (b : CertificateBundle) :=
  MkCB (InterNode b) v (SQLService b) (RPCService b) (AdminUIService b).
Definition setSQLService v (b : CertificateBundle) :=
  MkCB (InterNode b) (UserAuth b) v (RPCService b) (AdminUIService b).
Definition setRPCService v (b : CertificateBundle) :=
  MkCB (InterNode b) (UserAuth b) (SQLService b) v (AdminUIService b).
Definition setAdminUIService v (b : CertificateBundle) :=
  MkCB (InterNode b) (UserAuth b) (SQLService b) (RPCService b) v.

Definition indexPanic {A} : M A :=
  panic (ENew "index out of range [0] with length 0").

Definition InitializeFromConfig (b : CertificateBundle) (c : Config)
    : M (CertificateBundle * option error) :=
  let cl := MakeLocator E (SSLCertsDir c) in
  (* First check to see if host cert is already present. *)
  let* '(present, err) := FileExists (NodeCertPath cl) in
  match err with
  | Some e => ret (b, Some e)
  | None =>
  if present : bool
  then ret (b, Some (ENew "inter-node certificate already present"))
  else
  let* rpcAddrs := lift (extractHosts [Addr c; AdvertiseAddr c]) in
  let* sqlAddrs :=
    if SplitListenSQL c
    then lift (extractHosts [SQLAddr c; SQLAdvertiseAddr c])
    else ret rpcAddrs in
  let* httpAddrs := lift (extractHosts [HTTPAddr c; HTTPAdvertiseAddr c]) in
  match EnsureCertsDirectory E (SSLCertsDir c) with
  | Some e => ret (b, Some e)
  | None =>
  let* '(sb, err) :=
    loadOrCreateServiceCertificates (InterNode b)
      (NodeCertPath cl) (NodeKeyPath cl) (CACertPath cl) (CAKeyPath cl)
      defaultCertLifetime defaultCALifetime
      (NodeUser E) serviceNameInterNode rpcAddrs true in
  let b := setInterNode sb b in
  match err with
  | Some e =>
      ret (b, Some (EWrap e "failed to load or create InterNode certificates"))
  | None =>
  let* '(sb, err) :=
    loadOrCreateServiceCertificates (UserAuth b)
      (ClientNodeCertPath cl) (ClientNodeKeyPath cl)
      (ClientCACertPath cl) (ClientCAKeyPath cl)
      defaultCertLifetime defaultCALifetime
      (NodeUser E) serviceNameUserAuth [] true in
  let b := setUserAuth sb b in
  match err with
  | Some e =>
      ret (b, Some (EWrap e "failed to load or create User auth certificate(s)"))
  | None =>
  let* '(sb, err) :=
    loadOrCreateServiceCertificates (SQLService b)
      (SQLServiceCertPath cl) (SQLServiceKeyPath cl)
      (SQLServiceCACertPath cl) (SQLServiceCAKeyPath cl)
      defaultCertLifetime defaultCALifetime
      (NodeUser E) serviceNameSQL sqlAddrs false in
  let b := setSQLService sb b in
  match err with
  | Some e =>
      ret (b, Some (EWrap e "failed to load or create SQL service certificate(s)"))
  | None =>
  let* '(sb, err) :=
    loadOrCreateServiceCertificates (RPCService b)
      (RPCServiceCertPath cl) (RPCServiceKeyPath cl)
      (RPCServiceCACertPath cl) (RPCServiceCAKeyPath cl)
      defaultCertLifetime defaultCALifetime
      (NodeUser E) serviceNameRPC rpcAddrs false in
  let b := setRPCService sb b in
  match err with
  | Some e =>
      ret (b, Some (EWrap e "failed to load or create RPC service certificate(s)"))
  | None =>
  match httpAddrs with
  | [] => indexPanic
  | httpAddrs0 :: _ =>
  let* '(sb, err) :=
    loadOrCreateServiceCertificates (AdminUIService b)
      (UICertPath cl) (UIKeyPath cl) (UICACertPath cl) (UICAKeyPath cl)
      defaultCertLifetime defaultCALifetime
      httpAddrs0 serviceNameUI httpAddrs false in
  let b := setAdminUIService sb b in
  match err with
  | Some e =>
      ret (b, Some (EWrap e
             "failed to load or create Admin UI service certificate(s)"))
  | None => ret (b, None)
  end end end end end end end end.

Definition writeCAOrFail (sb : ServiceCertificateBundle)
    (certPath keyPath : string) : M (option error) :=
  let '(caCertPEM, _) := pemDecode E (bytesOf (CACertificate sb)) in
  let* err :=
    match CACertificate sb with
    | Some _ => writeCertificateFile certPath caCertPEM false
    | None => ret None
    end in
  match err with
  | Some e => ret (Some e)
  | None =>
      let '(caKeyPEM, _) := pemDecode E (bytesOf (CAKey sb)) in
      match CAKey sb with
      | Some _ => writeKeyFile keyPath caKeyPEM false
      | None => ret None
      end
  end.

Definition InitializeNodeFromBundle (b : CertificateBundle) (c : Config)
    : M (CertificateBundle * option error) :=
  let cl := MakeLocator E (SSLCertsDir c) in
  let* '(present, err) := FileExists (NodeCertPath cl) in
  match err with
  | Some e => ret (b, Some e)
  | None =>
  if present : bool
  then ret (b, Some (ENew "inter-node certificate already present"))
  else
  match EnsureCertsDirectory E (SSLCertsDir c) with
  | Some e => ret (b, Some e)
  | None =>
  let* err := writeCAOrFail (InterNode b) (CACertPath cl) (CAKeyPath cl) in
  match err with
  | Some e => ret (b, Some (EWrap e "failed to write InterNodeCA to disk"))
  | None =>
  let* err := writeCAOrFail (UserAuth b)
                (ClientCACertPath cl) (ClientCAKeyPath cl) in
  match err with
  | Some e => ret (b, Some (EWrap e "failed to write ClientCA to disk"))
  | None =>
  let* err := writeCAOrFail (SQLService b)
                (SQLServiceCACertPath cl) (SQLServiceCAKeyPath cl) in
  match err with
  | Some e => ret (b, Some (EWrap e "failed to write SQLServiceCA to disk"))
  | None =>
  let* err := writeCAOrFail (RPCService b)
                (RPCServiceCACertPath cl) (RPCServiceCAKeyPath cl) in
  match err with
  | Some e => ret (b, Some (EWrap e "failed to write RPCServiceCA to disk"))
  | None =>
  let* err := writeCAOrFail (AdminUIService b)
                (UICACertPath cl) (UICAKeyPath cl) in
  match err with
  | Some e => ret (b, Some (EWrap e "failed to write AdminUIServiceCA to disk"))
  | None =>
  let* '(b, err) := InitializeFromConfig b c in
  match err with
  | Some e =>
      ret (b, Some (EWrap e
             "failed to initialize host certs after writing CAs to disk"))
  | None => ret (b, None)
  end end end end end end end end.

Definition loadCACertAndKeyIfExists (sb : ServiceCertificateBundle)
    (certPath keyPath : string) : M (ServiceCertificateBundle * option error) :=
  let* '(sb, err) := loadCACertAndKey sb certPath keyPath in
  match err with
  | Some e => if IsNotExist e then ret (sb, None) else ret (sb, Some e)
  | None => ret (sb, None)
  end.

Definition collectLocalCABundle (sslCertsDir : string)
    : M (CertificateBundle * option error) :=
  let cl := MakeLocator E sslCertsDir in
  let b := emptyCB in
  let* '(sb, err) := loadCACertAndKeyIfExists (InterNode b)
                       (CACertPath cl) (CAKeyPath cl) in
  let b := setInterNode sb b in
  match err with
  | Some e => ret (b, Some (EWrap e "error loading InterNode CA cert and/or key"))
  | None =>
  let* '(sb, err) := loadCACertAndKeyIfExists (UserAuth b)
                       (ClientCACertPath cl) (ClientCAKeyPath cl) in
  let b := setUserAuth sb b in
  match err with
  | Some e => ret (b, Some (EWrap e "error loading UserAuth CA cert and/or key"))
  | None =>
  let* '(sb, err) := loadCACertAndKeyIfExists (SQLService b)
                       (SQLServiceCACertPath cl) (SQLServiceCAKeyPath cl) in
  let b := setSQLService sb b in
  match err with
  | Some e => ret (b, Some (EWrap e "error loading SQL CA cert and/or key"))
  | None =>
  let* '(sb, err) := loadCACertAndKeyIfExists (RPCService b)
                       (RPCServiceCACertPath cl) (RPCServiceCAKeyPath cl) in
  let b := setRPCService sb b in
  match err with
  | Some e => ret (b, Some (EWrap e "error loading RPC CA cert and/or key"))
  | None =>
  let* '(sb, err) := loadCACertAndKeyIfExists (AdminUIService b)
                       (UICACertPath cl) (UICAKeyPath cl) in
  let b := setAdminUIService sb b in
  match err with
  | Some e => ret (b, Some (EWrap e "error loading AdminUI CA cert and/or key"))
  | None => ret (b, None)
  end end end end end.

Definition rotateServiceCert (sb : ServiceCertificateBundle)
    (certPath keyPath : string) (serviceCertLifespan : Z)
    (commonName serviceString : string) (hostnames : list string)
    (serviceCertIsAlsoValidAsClient : bool) : M (option error) :=
  let failed e := EWrapf e "failed to rotate certs for %q" [serviceString] in
  (* generate *)
  match PEMToCertificates E (bytesOf (CACertificate sb)) with
  | inl err => ret (Some (EWrap err "error when decoding PEM CACertificate"))
  | inr caCertPEM =>
      let '(caKeyPEM, rest) := pemDecode E (bytesOf (CAKey sb)) in
      match caKeyPEM with
      | None => ret (Some (ENew "error when decoding PEM CAKey"))
      | Some caKeyPEM =>
          if (0 <? String.length rest)%nat
          then ret (Some (ENew "error when decoding PEM CAKey"))
          else
            match caCertPEM with
            | [] => indexPanic
            | caCert0 :: _ =>
                let* r := genServiceCert serviceCertLifespan commonName
                            hostnames caCert0 caKeyPEM
                            serviceCertIsAlsoValidAsClient in
                match r with
                | inl err => ret (Some (failed err))
                | inr (certPEM, keyPEM) =>
                    (* Check to make sure we're about to overwrite a file. *)
                    let* serr := Stat certPath in
                    match serr with
                    | Some e => ret (Some (failed e))
                    | None =>
                        let* err := writeCertificateFile certPath
                                      (Some certPEM) true in
                        match err with
                        | Some e => ret (Some (failed e))
                        | None =>
                            (* The second check looks at certPath again. *)
                            let* serr := Stat certPath in
                            match serr with
                            | Some e => ret (Some (failed e))
                            | None =>
                                let* err := writeKeyFile keyPath
                                              (Some keyPEM) true in
                                match err with
                                | Some e => ret (Some (failed e))
                                | None => ret None
                                end
                            end
                        end
                    end
                end
            end
      end
  end.

Definition rotateGeneratedCerts (c : Config) : M (option error) :=
  let cl := MakeLocator E (SSLCertsDir c) in
  (* Fail fast if we can't load the CAs. *)
  let* '(b, err) := collectLocalCABundle (SSLCertsDir c) in
  match err with
  | Some e =>
      ret (Some (EWrap e "failed to load local CAs for certificate rotation"))
  | None =>
  let* rpcAddrs := lift (extractHosts [Addr c; AdvertiseAddr c]) in
  let* sqlAddrs :=
    if SplitListenSQL c
    then lift (extractHosts [SQLAddr c; SQLAdvertiseAddr c])
    else ret rpcAddrs in
  let* httpAddrs := lift (extractHosts [HTTPAddr c; HTTPAdvertiseAddr c]) in
  let* err :=
    match CACertificate (InterNode b) with
    | Some _ =>
        rotateServiceCert (InterNode b) (NodeCertPath cl) (NodeKeyPath cl)
          defaultCertLifetime (NodeUser E) serviceNameInterNode rpcAddrs true
    | None => ret None
    end in
  match err with
  | Some e => ret (Some (EWrap e "failed to rotate InterNode cert"))
  | None =>
  let* err :=
    match CACertificate (UserAuth b) with
    | Some _ =>
        rotateServiceCert (UserAuth b)
          (ClientNodeCertPath cl) (ClientNodeKeyPath cl)
          defaultCertLifetime (NodeUser E) serviceNameUserAuth [] true
    | None => ret None
    end in
  match err with
  | Some e => ret (Some (EWrap e "failed to rotate InterNode cert"))
  | None =>
  let* err :=
    match CACertificate (SQLService b) with
    | Some _ =>
        rotateServiceCert (SQLService b)
          (SQLServiceCertPath cl) (SQLServiceKeyPath cl)
          defaultCertLifetime (NodeUser E) serviceNameSQL sqlAddrs false
    | None => ret None
    end in
  match err with
  | Some e => ret (Some (EWrap e "failed to rotate SQLService cert"))
  | None =>
  let* err :=
    match CACertificate (RPCService b) with
    | Some _ =>
        rotateServiceCert (RPCService b)
          (RPCServiceCertPath cl) (RPCServiceKeyPath cl)
          defaultCertLifetime (NodeUser E) serviceNameRPC rpcAddrs false
    | None => ret None
    end in
  match err with
  | Some e => ret (Some (EWrap e "failed to rotate RPCService cert"))
  | None =>
  let* err :=
    match CACertificate (AdminUIService b) with
    | Some _ =>
        match httpAddrs with
        | [] => indexPanic
        | httpAddrs0 :: _ =>
            rotateServiceCert (AdminUIService b) (UICertPath cl) (UIKeyPath cl)
              defaultCertLifetime httpAddrs0 serviceNameUI httpAddrs false
        end
    | None => ret None
    end in
  match err with
  | Some e => ret (Some (EWrap e "failed to rotate AdminUIService cert"))
  | None => ret None
  end end end end end end.

End Code.

(** ** A reference environment

    One concrete [Env], used to run the model: Go's address splitting, the
    file names of the certificate locator, and a simulated PEM coder and
    certificate generator whose output carries the position of the random
    source in unary. *)

Module Ref.

(** [strings.IndexByte] and [strings.LastIndexByte], -1 when absent. *)
Fixpoint IndexByte (s : string) (c : ascii) : Z :=
  match s with
  | EmptyString => -1
  | String a s' =>
      if Ascii.eqb a c then 0
      else let r := IndexByte s' c in if (r <? 0)%Z then -1 else (r + 1)%Z
  end.

Fixpoint LastIndexByte (s : string) (c : ascii) : Z :=
  match s with
  | EmptyString => -1
  | String a s' =>
      let r := LastIndexByte s' c in
      if (0 <=? r)%Z then (r + 1)%Z
      else if Ascii.eqb a c then 0 else -1
  end.

(** The slice [s[lo:hi]]. *)
Definition slice (s : string) (lo hi : Z) : string :=
  String.substring (Z.to_nat lo) (Z.to_nat (hi - lo)) s.

Definition len (s : string) : Z := Z.of_nat (String.length s).

Definition missingPort := "missing port in address".
Definition tooManyColons := "too many colons in address".

(** Modelled from the spec: the address splitter is not among the sources;
    the spec speaks of "host:port" strings and of malformed entries.  This
    is Go's [net.SplitHostPort]: the port starts after the last colon, a
    host that starts with a bracket ends at the matching bracket, and
    stray colons or brackets are errors. *)
Definition netSplitHostPort (hostport : string) : error + (string * string) :=
  let i := LastIndexByte hostport ":" in
  if (i <? 0)%Z then inl (EAddr missingPort hostport) else
  let bracketed :=
    match hostport with String "[" _ => true | _ => false end in
  let r : error + (string * Z * Z) :=
    if bracketed then
      let close := IndexByte hostport "]" in
      if (close <? 0)%Z then inl (EAddr "missing ']' in address" hostport)
      else if (close + 1 =? len hostport)%Z
      then inl (EAddr missingPort hostport)
      else if (close + 1 =? i)%Z
      then inr (slice hostport 1 close, 1%Z, (close + 1)%Z)
      else if bool_decide (slice hostport (close + 1) (close + 2) = ":")
      then inl (EAddr tooManyColons hostport)
      else inl (EAddr missingPort hostport)
    else
      let host := slice hostport 0 i in
      if (0 <=? IndexByte host ":")%Z
      then inl (EAddr tooManyColons hostport)
      else inr (host, 0%Z, 0%Z) in
  match r with
  | inl e => inl e
  | inr (host, j, k) =>
      if (0 <=? IndexByte (slice hostport j (len hostport)) "[")%Z
      then inl (EAddr "unexpected '[' in address" hostport)
      else if (0 <=? IndexByte (slice hostport k (len hostport)) "]")%Z
      then inl (EAddr "unexpected ']' in address" hostport)
      else inr (host, slice hostport (i + 1) (len hostport))
  end.

(** Modelled from the spec: [addr.SplitHostPort] is not among the sources.
    It is [net.SplitHostPort] with a default for a missing port; an address
    with too many colons is reported as an invalid address format. *)
Definition refSplitHostPort (v defaultPort : string)
    : error + (string * string) :=
  let r :=
    match netSplitHostPort v with
    | inr hp => inr hp
    | inl (EAddr why a) =>
        if String.prefix "too many colons" why then
          match netSplitHostPort ("[" +:+ v +:+ "]:" +:+ defaultPort) with
          | inr _ => inl (ENewf "invalid address format: %q" [v])
          | inl e => inl e
          end
        else if String.prefix "missing port" why then
          netSplitHostPort (v +:+ ":" +:+ defaultPort)
        else inl (EAddr why a)
    | inl e => inl e
    end in
  match r with
  | inr (host, port) =>
      inr (host, if bool_decide (port = "") then defaultPort else port)
  | inl e => inl e
  end.

(** Twenty file names in the style of the certificate locator, under the
    certs directory. *)
Definition refLocator (dir : string) : Locator :=
  let at_ name := dir +:+ "/" +:+ name in
  {| NodeCertPath := at_ "node.crt";
     NodeKeyPath := at_ "node.key";
     CACertPath := at_ "ca.crt";
     CAKeyPath := at_ "ca.key";
     ClientNodeCertPath := at_ "client.node.crt";
     ClientNodeKeyPath := at_ "client.node.key";
     ClientCACertPath := at_ "ca-client.crt";
     ClientCAKeyPath := at_ "ca-client.key";
     SQLServiceCertPath := at_ "service.sql.crt";
     SQLServiceKeyPath := at_ "service.sql.key";
     SQLServiceCACertPath := at_ "service.ca.sql.crt";
     SQLServiceCAKeyPath := at_ "service.ca.sql.key";
     RPCServiceCertPath := at_ "service.rpc.crt";
     RPCServiceKeyPath := at_ "service.rpc.key";
     RPCServiceCACertPath := at_ "service.ca.rpc.crt";
     RPCServiceCAKeyPath := at_ "service.ca.rpc.key";
     UICertPath := at_ "ui.crt";
     UIKeyPath := at_ "ui.key";
     UICACertPath := at_ "ca-ui.crt";
     UICAKeyPath := at_ "ca-ui.key" |}.

Definition newline : string := String "010" EmptyString.

(** Simulated PEM: the type on the first line, the bytes after it. *)
Definition refEncode (b : Block) : string :=
  blockType b +:+ newline +:+ blockBytes b.

Fixpoint splitLine (s : string) : option (string * string) :=
  match s with
  | EmptyString => None
  | String a s' =>
      if Ascii.eqb a "010" then Some (EmptyString, s')
      else match splitLine s' with
           | Some (l, r) => Some (String a l, r)
           | None => None
           end
  end.

Definition refDecode (s : string) : option Block * string :=
  match splitLine s with
  | Some (ty, body) => (Some (MkBlock ty body), "")
  | None => (None, s)
  end.

(** As the Go helper does, a text without any block gives the empty list,
    and a block of another type is an error. *)
Definition refPEMToCertificates (s : string) : error + list Block :=
  match refDecode s with
  | (None, _) => inr []
  | (Some b, _) =>
      if bool_decide (blockType b = "CERTIFICATE") then inr [b]
      else inl (ENewf "block #%d is of type %s, not CERTIFICATE"
                  ["0"; blockType b])
  end.

(** The position of the random source, in unary, ended by a semicolon. *)
Fixpoint serial (n : nat) : string :=
  match n with
  | O => ";"
  | S n => String "1" (serial n)
  end.

Definition refCreateCA (n : nat) (lifespan : Z) (cn : string)
    : error + (Block * Block) :=
  inr (MkBlock "CERTIFICATE" (serial n +:+ "ca;" +:+ cn),
       MkBlock "RSA PRIVATE KEY" (serial n +:+ "ca-key")).

Definition refCreateService (n : nat) (lifespan : Z) (cn : string)
    (hostnames : list string) (caCert caKey : Block) (alsoClient : bool)
    : error + (Block * Block) :=
  inr (MkBlock "CERTIFICATE"
         (serial n +:+ "leaf;" +:+ cn +:+ ";issuer;" +:+ blockBytes caCert),
       MkBlock "RSA PRIVATE KEY" (serial n +:+ "leaf-key")).

Definition env : Env :=
  {| SplitHostPort := refSplitHostPort;
     MakeLocator := refLocator;
     EnsureCertsDirectory := λ _, None;
     NodeUser := "node";
     caCommonName := "Cockroach CA";
     pemDecode := refDecode;
     pemEncodeToMemory := refEncode;
     PEMToCertificates := refPEMToCertificates;
     CreateCACertAndKey := refCreateCA;
     CreateServiceCertAndKey := refCreateService |}.

Definition config : Config :=
  {| SSLCertsDir := "certs";
     Addr := "10.0.0.1:26257";     AdvertiseAddr := "node1.example:26257";
     SplitListenSQL := true;
     SQLAddr := "10.0.0.1:26258";  SQLAdvertiseAddr := "10.0.0.1:26258";
     HTTPAddr := "10.0.0.2:8080";  HTTPAdvertiseAddr := "10.0.0.2:8080" |}.

Definition emptyWorld : world := World ∅ [] 0.

(** A bundle as a joining node receives it: five CA pairs, no host pairs. *)
Definition suppliedCA (name : string) : ServiceCertificateBundle :=
  MkSCB (Some (refEncode (MkBlock "CERTIFICATE" ("ca of " +:+ name))))
        (Some (refEncode (MkBlock "RSA PRIVATE KEY" ("ca key of " +:+ name))))
        None None.

Definition bundle : CertificateBundle :=
  MkCB (suppliedCA "node") (suppliedCA "client") (suppliedCA "sql")
       (suppliedCA "rpc") (suppliedCA "ui").

(** The empty directory after a bootstrap, and after a rotation on top. *)
Definition bootstrapped : outcome (CertificateBundle * option error) * world :=
  InitializeFromConfig env emptyCB config emptyWorld.

Definition rotated : outcome (option error) * world :=
  rotateGeneratedCerts env config bootstrapped.2.

(** The same bundle without a CA for the SQL slot. *)
Definition bundleWithoutSQL : CertificateBundle :=
  MkCB (suppliedCA "node") (suppliedCA "client") emptySCB
       (suppliedCA "rpc") (suppliedCA "ui").

End Ref.

(** ** Vocabulary of the specification *)

(** The five slots, in the order in which the workflows visit them. *)
Inductive slot := SInterNode | SUserAuth | SSQLService | SRPCService | SAdminUI.

Definition slots : list slot :=
  [SInterNode; SUserAuth; SSQLService; SRPCService; SAdminUI].

Definition getSlot (b : CertificateBundle) (s : slot) : ServiceCertificateBundle :=
  match s with
  | SInterNode => InterNode b
  | SUserAuth => UserAuth b
  | SSQLService => SQLService b
  | SRPCService => RPCService b
  | SAdminUI => AdminUIService b
  end.

Definition hostCertPath (cl : Locator) (s : slot) : string :=
  match s with
  | SInterNode => NodeCertPath cl
  | SUserAuth => ClientNodeCertPath cl
  | SSQLService => SQLServiceCertPath cl
  | SRPCService => RPCServiceCertPath cl
  | SAdminUI => UICertPath cl
  end.

Definition hostKeyPath (cl : Locator) (s : slot) : string :=
  match s with
  | SInterNode => NodeKeyPath cl
  | SUserAuth => ClientNodeKeyPath cl
  | SSQLService => SQLServiceKeyPath cl
  | SRPCService => RPCServiceKeyPath cl
  | SAdminUI => UIKeyPath cl
  end.

Definition caCertPath (cl : Locator) (s : slot) : string :=
  match s with
  | SInterNode => CACertPath cl
  | SUserAuth => ClientCACertPath cl
  | SSQLService => SQLServiceCACertPath cl
  | SRPCService => RPCServiceCACertPath cl
  | SAdminUI => UICACertPath cl
  end.

Definition caKeyPath (cl : Locator) (s : slot) : string :=
  match s with
  | SInterNode => CAKeyPath cl
  | SUserAuth => ClientCAKeyPath cl
  | SSQLService => SQLServiceCAKeyPath cl
  | SRPCService => RPCServiceCAKeyPath cl
  | SAdminUI => UICAKeyPath cl
  end.

(** The ten host paths, the ten CA paths, and all twenty. *)
Definition hostPaths (cl : Locator) : list string :=
  [NodeCertPath cl; NodeKeyPath cl;
   ClientNodeCertPath cl; ClientNodeKeyPath cl;
   SQLServiceCertPath cl; SQLServiceKeyPath cl;
   RPCServiceCertPath cl; RPCServiceKeyPath cl;
   UICertPath cl; UIKeyPath cl].

Definition caPaths (cl : Locator) : list string :=
  [CACertPath cl; CAKeyPath cl;
   ClientCACertPath cl; ClientCAKeyPath cl;
   SQLServiceCACertPath cl; SQLServiceCAKeyPath cl;
   RPCServiceCACertPath cl; RPCServiceCAKeyPath cl;
   UICACertPath cl; UICAKeyPath cl].

Definition paths (cl : Locator) : list string := hostPaths cl ++ caPaths cl.

(** The error classes of the specification, read on the errors the code
    builds. *)
Definition AlreadyInitialized : error :=
  ENew "inter-node certificate already present".

Definition isAlreadyInitialized (e : error) : bool :=
  match rootCause e with
  | ENew msg => String.eqb msg "inter-node certificate already present"
  | _ => false
  end.

Definition isAlreadyExists (e : error) : bool :=
  match rootCause e with
  | EPath _ _ EEXIST => true
  | _ => false
  end.

Definition isIOError (e : error) : bool :=
  match rootCause e with
  | EPath _ _ _ => true
  | _ => false
  end.

(** A host certificate whose key could not be loaded: the two errors that
    the cascade returns after the key load. *)
Definition isInconsistentPair (e : error) : bool :=
  match e with
  | EWrapf _ fmt _ =>
      String.eqb fmt
        "failed to load service certificate key for %q expected key at %q"
  | EWrap _ msg => String.eqb msg "something went wrong loading service key"
  | _ => false
  end.

(** A file that is there and can be read. *)
Definition loadable (w : world) (p : string) : Prop :=
  ∃ data mode, fs w !! p = Some (Regular data mode).

Definition fileBytes (w : world) (p : string) : option string :=
  match fs w !! p with
  | Some (Regular data _) => Some data
  | _ => None
  end.

Definition wellFormed (E : Env) (a : string) : Prop :=
  ∃ host port, SplitHostPort E a "0" = inr (host, port).

(** Following the spec's words: the hostnames, deduplicated, in first-seen
    order. *)
Fixpoint firstSeen (hosts : list string) : list string :=
  match hosts with
  | [] => []
  | h :: hosts => h :: filter (λ x, x ≠ h) (firstSeen hosts)
  end.

(** The six addresses of a configuration. *)
Definition addresses (c : Config) : list string :=
  [Addr c; AdvertiseAddr c; SQLAddr c; SQLAdvertiseAddr c;
   HTTPAddr c; HTTPAdvertiseAddr c].

(** [data] is the encoding of a certificate or key that the generator
    produces at position [s] of the random source. *)
Definition generated (E : Env) (s : nat) (data : string) : Prop :=
  (∃ life cn c k,
      CreateCACertAndKey E s life cn = inr (c, k) ∧
      (data = pemEncodeToMemory E c ∨ data = pemEncodeToMemory E k))
  ∨ (∃ life cn hosts ca cak dual c k,
      CreateServiceCertAndKey E s life cn hosts ca cak dual = inr (c, k) ∧
      (data = pemEncodeToMemory E c ∨ data = pemEncodeToMemory E k)).

(** What the success of a first bootstrap assumes of the generator and
    the PEM coder: generation succeeds, and what was generated as a CA
    decodes again. *)
Record GeneratorOK (E : Env) : Prop := {
  ca_total : ∀ s life cn, ∃ c k, CreateCACertAndKey E s life cn = inr (c, k);
  ca_decodes : ∀ s life cn c k,
    CreateCACertAndKey E s life cn = inr (c, k) →
    (∃ cs, PEMToCertificates E (pemEncodeToMemory E c) = inr (c :: cs)) ∧
    pemDecode E (pemEncodeToMemory E k) = (Some k, "");
  leaf_total : ∀ s life cn hosts ca cak dual,
    ∃ c k, CreateServiceCertAndKey E s life cn hosts ca cak dual = inr (c, k)
}.

(** Two positions of the random source never give the same bytes. *)
Definition DrawsDistinct (E : Env) : Prop :=
  ∀ s s' data, generated E s data → generated E s' data → s = s'.

(** No file holds bytes that the generator will produce from here on. *)
Definition Fresh (E : Env) (w : world) : Prop :=
  ∀ p data mode s,
    fs w !! p = Some (Regular data mode) → (seed w ≤ s)%nat → ¬ generated E s data.

(** [p] holds bytes generated since [w0]. *)
Definition touched (E : Env) (w0 w : world) (p : string) : Prop :=
  ∃ s data mode,
    (seed w0 ≤ s < seed w)%nat ∧ generated E s data ∧
    fs w !! p = Some (Regular data mode).

(** Since [w0] the random source has only advanced, and a file either is as
    it was or lies in [F] and holds bytes generated since. *)
Definition issued (E : Env) (F : list string) (w0 w : world) : Prop :=
  (seed w0 ≤ seed w)%nat ∧
  ∀ p, fs w !! p = fs w0 !! p ∨ (p ∈ F ∧ touched E w0 w p).

(** Running [m] keeps the property [I] of the world. *)
Definition preserves {A} (I : world → Prop) (m : M A) : Prop :=
  ∀ w, I w → I (m w).2.

(** While a freshly generated pair is being written: the files are as
    [issued] says and the draw [s] lies in the past. *)
Definition writing (E : Env) (F : list string) (w0 : world) (s : nat)
    (w : world) : Prop :=
  issued E F w0 w ∧ (s < seed w)%nat.

(** The CA of a slot is ready for the cascade: either both files are absent
    (a CA will be created), or both load and decode. *)
Definition caReady (E : Env) (w : world) (caCertPath caKeyPath : string) : Prop :=
  (fs w !! caCertPath = None ∧ fs w !! caKeyPath = None)
  ∨ (∃ cert m1 key m2 ca0 cas caKey,
       fs w !! caCertPath = Some (Regular cert m1) ∧
       fs w !! caKeyPath = Some (Regular key m2) ∧
       PEMToCertificates E cert = inr (ca0 :: cas) ∧
       pemDecode E key = (Some caKey, "")).

(** A slot of a received bundle: either no CA at all, or a CA certificate
    and key that decode, and whose blocks, once written, decode again. *)
Definition suppliedOrNil (E : Env) (sb : ServiceCertificateBundle) : Prop :=
  (CACertificate sb = None ∧ CAKey sb = None)
  ∨ (∃ cert key cb cr kb kr ca0 cas caKey,
       CACertificate sb = Some cert ∧ CAKey sb = Some key ∧
       pemDecode E cert = (Some cb, cr) ∧ pemDecode E key = (Some kb, kr) ∧
       PEMToCertificates E (pemEncodeToMemory E cb) = inr (ca0 :: cas) ∧
       pemDecode E (pemEncodeToMemory E kb) = (Some caKey, "")).

(** Outside [F] the files of [w'] are those of [w]. *)
Definition unchangedOutside (F : list string) (w w' : world) : Prop :=
  ∀ p, p ∉ F → fs w' !! p = fs w !! p.

(** The ten certificate paths and the ten key paths of a locator. *)
Definition certPaths (cl : Locator) : list string :=
  [NodeCertPath cl; CACertPath cl; ClientNodeCertPath cl; ClientCACertPath cl;
   SQLServiceCertPath cl; SQLServiceCACertPath cl;
   RPCServiceCertPath cl; RPCServiceCACertPath cl;
   UICertPath cl; UICACertPath cl].

Definition keyPaths (cl : Locator) : list string :=
  [NodeKeyPath cl; CAKeyPath cl; ClientNodeKeyPath cl; ClientCAKeyPath cl;
   SQLServiceKeyPath cl; SQLServiceCAKeyPath cl;
   RPCServiceKeyPath cl; RPCServiceCAKeyPath cl;
   UIKeyPath cl; UICAKeyPath cl].

(** Since [w0] every file is as it was, or was not there and has been
    created: under a certificate path with mode 0644, under a key path with
    mode 0600. *)
Definition created (certs keys : list string) (w0 w : world) : Prop :=
  ∀ p,
    fs w !! p = fs w0 !! p
    ∨ (fs w0 !! p = None ∧
       ∃ data,
         (p ∈ certs ∧ fs w !! p = Some (Regular data mode0644))
         ∨ (p ∈ keys ∧ fs w !! p = Some (Regular data mode0600))).

(** A file that is there and cannot be opened. *)
Definition blocked (w : world) (p : string) : Prop :=
  ∃ why, fs w !! p = Some (Blocked why).

(** Slot [s] of the bundle [b] holds a CA pair whose first PEM blocks are
    [cb] and [kb], and these blocks, once written, work as a CA. *)
Definition supplies (E : Env) (b : CertificateBundle) (s : slot)
    (cb kb : Block) : Prop :=
  ∃ cert key cr kr ca0 cas caKey,
    CACertificate (getSlot b s) = Some cert ∧
    CAKey (getSlot b s) = Some key ∧
    pemDecode E cert = (Some cb, cr) ∧ pemDecode E key = (Some kb, kr) ∧
    PEMToCertificates E (pemEncodeToMemory E cb) = inr (ca0 :: cas) ∧
    pemDecode E (pemEncodeToMemory E kb) = (Some caKey, "").

(** ** The test-output filter (pkg/cmd/testfilter/main.go) *)

Module TestFilter.

(** [type modeT byte] and its three constants. *)
Definition modeT := N.
Definition modeStrip : modeT := 0%N.
Definition modeOmit : modeT := 1%N.
Definition modeConvert : modeT := 2%N.

(** [Set] of [modeT]: the mode after the call and the error returned. *)
Definition modeT_Set (m : modeT) (s : string) : modeT * option error :=
  if String.eqb s "strip" then (modeStrip, None)
  else if String.eqb s "omit" then (modeOmit, None)
  else if String.eqb s "convert" then (modeConvert, None)
  else (m, Some (ENew "unsupported mode")).

(** [String] of [modeT]. *)
Definition modeT_String (m : modeT) : string :=
  if (m =? modeStrip)%N then "strip"
  else if (m =? modeOmit)%N then "omit"
  else if (m =? modeConvert)%N then "convert"
  else "unknown".

(** [testEvent], over the types of its time stamp and of its float. *)
Record testEvent (T F : Type) := MkEvent {
  Time : T;
  Action : string;
  Package : string;
  Test : string;
  Elapsed : F;
  Output : string
}.
Arguments MkEvent {T F}.
Arguments Time {T F}.
Arguments Action {T F}.
Arguments Package {T F}.
Arguments Test {T F}.
Arguments Elapsed {T F}.
Arguments Output {T F}.

(** [ent]: the first and last line of a test and its buffered output. *)
Record ent := MkEnt { first : string; last : string; buf : string }.

(** What [filter] takes from outside: the JSON coder on events (unmarshal
    into a zeroed event, marshal), the text of an error, the float zero,
    and the order in which the runtime enumerates the keys of the map at
    its [k]-th [range] loop. *)
Record Codec := MkCodec {
  timeT : Type;
  floatT : Type;
  zeroFloat : floatT;
  Unmarshal : string → error + testEvent timeT floatT;
  Marshal : testEvent timeT floatT → error + string;
  errText : error → string;
  rangeOrder : nat → gmap (string * string) ent → list (string * string)
}.

(** [strings.Contains]. *)
Fixpoint Contains (s substr : string) : bool :=
  String.prefix substr s
  || match s with
     | EmptyString => false
     | String _ s' => Contains s' substr
     end.

(** The test at the top of the loop: a line of more than two bytes that
    starts with an opening and ends with a closing brace. *)
Definition looksLikeJSON (line : string) : bool :=
  negb ((String.length line <=? 2)%nat
        || negb (bool_decide (String.get 0 line = Some "{"%char))
        || negb (bool_decide
                   (String.get (String.length line - 1) line = Some "}"%char))).

Definition helpMessage : string :=
  String "010"%char "Check full_output.txt in artifacts for stray panics or other errors that broke the test process.".

Definition newline : string := String "010"%char "".

(** The variables of [filter]: the map, the number of JSON lines parsed,
    the first line that looked like plain test output, what has been
    written to [out] (one entry per write, oldest first), and the number
    of [range] loops run so far. *)
Record state := MkState {
  m : gmap (string * string) ent;
  n : nat;
  passFailLine : string;
  out : list string;
  ranges : nat
}.

Definition write (s : state) (text : string) : state :=
  MkState (m s) (n s) (passFailLine s) (out s ++ [text]) (ranges s).

Definition setM (s : state) (m' : gmap (string * string) ent) : state :=
  MkState m' (n s) (passFailLine s) (out s) (ranges s).

(** [fmt.Fprintln(buf, line)] on an entry. *)
Definition entWrite (e : ent) (line : string) : ent :=
  MkEnt (first e) (last e) (buf e +:+ line +:+ newline).

(** What [filter] shows of a run of the loop. *)
Definition result (r : state + (error * state)) : option error * list string :=
  match r with
  | inl s => (None, out s)
  | inr (e, s) => (Some e, out s)
  end.

Section Filter.
Context (C : Codec).

Definition event : Type := testEvent (timeT C) (floatT C).

Definition setAction (a : string) (ev : event) : event :=
  MkEvent (Time ev) a (Package ev) (Test ev) (Elapsed ev) (Output ev).
Definition setTest (t : string) (ev : event) : event :=
  MkEvent (Time ev) (Action ev) (Package ev) t (Elapsed ev) (Output ev).
Definition setOutput (o : string) (ev : event) : event :=
  MkEvent (Time ev) (Action ev) (Package ev) (Test ev) (Elapsed ev) o.

(** The body of the loop over the map when a package fails: one key. *)
Definition dumpScope (ev : event) (acc : state * string)
    (key : string * string) : state * string :=
  let '(s, testReport) := acc in
  if String.eqb (fst key) (Package ev) && negb (String.eqb (snd key) (Test ev))
  then
    match m s !! key with
    | None => acc
    | Some b =>
        let '(s, testReport) :=
          if negb (Contains (snd key) "/") then
            let testReport := testReport +:+ newline +:+ snd key in
            let synthEv :=
              MkEvent (Time ev) "skip" (Package ev) (snd key) (zeroFloat C)
                ("unfinished due to package-level failure" +:+ helpMessage) in
            let '(s, b) :=
              match Marshal C synthEv with
              | inl err =>
                  (write s ("ERROR: " +:+ errText C err +:+ newline), b)
              | inr js => (s, entWrite b js)
              end in
            (write s (buf b +:+ newline), testReport)
          else (s, testReport) in
        (setM s (delete key (m s)), testReport)
    end
  else acc.

(** One turn of the loop: the state to go on with, or the error returned
    together with the state at that point. *)
Definition step (mode : modeT) (s : state) (line : string)
    : state + (error * state) :=
  if negb (looksLikeJSON line) then
    (* Not test2json output, pass it through except in omit mode. *)
    let s :=
      if String.eqb (passFailLine s) ""
         && (Contains line "PASS" || Contains line "FAIL")
      then MkState (m s) (n s) line (out s) (ranges s)
      else s in
    inl (if negb (mode =? modeOmit)%N then write s (line +:+ newline) else s)
  else
  match Unmarshal C line with
  | inl err => inr (err, s)
  | inr ev =>
  let s := MkState (m s) (S (n s)) (passFailLine s) (out s) (ranges s) in
  if (mode =? modeConvert)%N then
    inl (if String.eqb (Action ev) "output" then write s (Output ev) else s)
  else
  let packageLevel : option (state * event * string) :=
    if String.eqb (Test ev) "" then
      if (mode =? modeOmit)%N && negb (String.eqb (Action ev) "fail")
      then None
      else
        (* Populate a fake test name. *)
        let ev := setTest "PackageLevel" ev in
        let ev :=
          if String.eqb (Action ev) "fail"
          then setOutput (Output ev +:+ helpMessage) ev else ev in
        let pkey := (Package ev, Test ev) in
        let s :=
          match m s !! pkey with
          | Some _ => s
          | None =>
              let evCopy := setOutput "" (setAction "run" ev) in
              match Marshal C evCopy with
              | inl err => write s ("ERROR: " +:+ errText C err +:+ newline)
              | inr fakeLine =>
                  setM s (<[pkey := entWrite (MkEnt fakeLine "" "") fakeLine]>
                            (m s))
              end
          end in
        let '(s, ev) :=
          if String.eqb (Action ev) "fail" then
            let keys := rangeOrder C (ranges s) (m s) in
            let s := MkState (m s) (n s) (passFailLine s) (out s)
                       (S (ranges s)) in
            let '(s, testReport) := foldl (dumpScope ev) (s, "") keys in
            if (0 <? String.length testReport)%nat
            then (s, setOutput
                       (Output ev +:+ newline +:+
                        "The following tests have not completed and could be the cause of the failure:"
                        +:+ testReport) ev)
            else (s, ev)
          else (s, ev) in
        (* Re-populate the line from the JSON payload. *)
        match Marshal C ev with
        | inl err =>
            Some (write s ("ERROR: " +:+ errText C err +:+ newline), ev, line)
        | inr js => Some (s, ev, js)
        end
    else Some (s, ev, line) in
  match packageLevel with
  | None => inl s
  | Some (s, ev, line) =>
      let key := (Package ev, Test ev) in
      let b := default (MkEnt line "" "") (m s !! key) in
      let b := entWrite b line in
      let s := setM s (<[key := b]> (m s)) in
      if String.eqb (Action ev) "pass" || String.eqb (Action ev) "skip"
         || String.eqb (Action ev) "fail"
      then
        let b := MkEnt (first b) line (buf b) in
        let s := setM s (delete key (m s)) in
        if String.eqb (Action ev) "fail" then inl (write s (buf b))
        else if (mode =? modeStrip)%N
        then inl (write (write s (first b +:+ newline)) (last b +:+ newline))
        else inl s
      else if String.eqb (Action ev) "run" || String.eqb (Action ev) "pause"
              || String.eqb (Action ev) "cont"
              || String.eqb (Action ev) "bench"
              || String.eqb (Action ev) "output"
      then inl s
      else inr (ENewf "unknown input: %s" [line], s)
  end
  end.

(** [for scanner.Scan()] over the lines that the scanner yields. *)
Fixpoint loop (mode : modeT) (s : state) (lines : list string)
    : state + (error * state) :=
  match lines with
  | [] => inl s
  | line :: lines =>
      match step mode s line with
      | inl s => loop mode s lines
      | inr r => inr r
      end
  end.

Definition initial : state := MkState ∅ 0 "" [] 0.

(** [filter]: the error returned and the writes made to [out]. *)
Definition filter (lines : list string) (mode : modeT)
    : option error * list string :=
  match loop mode initial lines with
  | inr (err, s) => (Some err, out s)
  | inl s =>
      (* Some scopes might still be open. *)
      let s :=
        if (mode =? modeStrip)%N then
          foldl (λ s key,
                   match m s !! key with
                   | Some b => write s (buf b +:+ newline)
                   | None => s
                   end) s (rangeOrder C (ranges s) (m s))
        else s in
      if negb (mode =? modeConvert)%N && (n s =? 0)%nat
         && negb (String.eqb (passFailLine s) "")
      then (Some (ENewf
                    "not a single test was parsed, but detected test output: %s"
                    [passFailLine s]), out s)
      else (None, out s)
  end.

End Filter.

(** Vocabulary for the statements: [line] is a JSON line that the coder
    reads as an event of test [test] in package [pkg] whose action
    satisfies [P]; the actions that leave a test open; what a sequence of
    lines adds to a buffer. *)
Definition scopeEvent (C : Codec) (pkg test : string) (P : string → Prop)
    (line : string) : Prop :=
  looksLikeJSON line = true
  ∧ ∃ ev, Unmarshal C line = inr ev ∧ Package ev = pkg ∧ Test ev = test
          ∧ P (Action ev).

Definition openAction (a : string) : Prop :=
  a ∈ ["run"; "pause"; "cont"; "bench"; "output"].

Definition buffered (b : string) (lines : list string) : string :=
  foldl (λ b l, b +:+ l +:+ newline) b lines.

(** A small coder for the examples: six known lines, every other line
    is rejected; events are rendered between braces. *)
Module Sample.

Definition ev (a p t o : string) : testEvent unit unit := MkEvent tt a p t tt o.

Definition table : list (string * testEvent unit unit) :=
  [ ("{run}", ev "run" "pkg" "TestA" "");
    ("{out}", ev "output" "pkg" "TestA" "hello");
    ("{pass}", ev "pass" "pkg" "TestA" "");
    ("{fail}", ev "fail" "pkg" "TestA" "");
    ("{pkgfail}", ev "fail" "pkg" "" "");
    ("{odd}", ev "mystery" "pkg" "TestA" "") ].

Fixpoint assoc (l : list (string * testEvent unit unit)) (k : string)
    : error + testEvent unit unit :=
  match l with
  | [] => inl (ENew "invalid character")
  | (k', e) :: l => if String.eqb k k' then inr e else assoc l k
  end.

Definition render (e : testEvent unit unit) : error + string :=
  inr ("{" +:+ Action e +:+ " " +:+ Package e +:+ " " +:+ Test e +:+ " "
       +:+ Output e +:+ "}").

Definition text (e : error) : string :=
  match e with
  | ENew msg => msg
  | _ => "error"
  end.

Definition codec : Codec :=
  MkCodec unit unit tt (assoc table) render text
    (λ _ m, (map_to_list m).*1).

End Sample.

End TestFilter.

(** ** The application names of a statements response
    (getAppsFromStmtsResponseMemoized) *)

Module StatementsPage.

(** A JavaScript string is a sequence of UTF-16 code units. *)
Definition jsString : Type := list N.

(** A string is truthy when it is not empty. *)
Definition truthy (s : jsString) : bool :=
  match s with
  | [] => false
  | _ => true
  end.

(** [String.prototype.startsWith]. *)
Fixpoint startsWith (s p : jsString) : bool :=
  match p, s with
  | [], _ => true
  | _ :: _, [] => false
  | c :: p', d :: s' => (c =? d)%N && startsWith s' p'
  end.

(** The order of the default [sort]: code unit by code unit, a proper
    prefix first. *)
Fixpoint lexleb (a b : jsString) : bool :=
  match a, b with
  | [], _ => true
  | _ :: _, [] => false
  | x :: a', y :: b' =>
      if (x <? y)%N then true
      else if (x =? y)%N then lexleb a' b'
      else false
  end.

Definition lexle (a b : jsString) : Prop := lexleb a b = true.

#[global] Instance lexle_dec : RelDecision lexle.
Proof. intros a b. unfold lexle. apply _. Defined.

(** [statement.key.key_data.app] is all that is read of a statement. *)
Record Statement := MkStatement { app : jsString }.

(** The two fields read of the response; either may be missing. *)
Record SqlStatsResponse := MkResponse {
  statements : option (list Statement);
  internal_app_name_prefix : option jsString
}.

(** [Set.prototype.add] on a set kept in insertion order. *)
Definition setAdd (apps : list jsString) (x : jsString) : list jsString :=
  if decide (x ∈ apps) then apps else (apps ++ [x])%list.

Section Apps.
(** The constant [unset] is imported from the util package. *)
Context (unset : jsString).

(** What the callback of [forEach] adds for one statement. *)
Definition appName (data : SqlStatsResponse) (statement : Statement)
    : jsString :=
  let app := app statement in
  match internal_app_name_prefix data with
  | Some prefix =>
      if truthy prefix && startsWith app prefix then prefix
      else if truthy app then app else unset
  | None => if truthy app then app else unset
  end.

(** The result function of the selector. *)
Definition getAppsFromStmtsResponseMemoized (data : option SqlStatsResponse)
    : list jsString :=
  match data with
  | None => []
  | Some data =>
      let apps :=
        foldl (λ apps statement, setAdd apps (appName data statement)) []
          (default [] (statements data)) in
      merge_sort lexle apps
  end.

End Apps.

(** The code units of an ASCII string, for the examples. *)
Fixpoint codeUnits (s : string) : jsString :=
  match s with
  | EmptyString => []
  | String c s => N_of_ascii c :: codeUnits s
  end.

End StatementsPage.

(** * Theorems *)

(** ** The monad *)

Lemma bind_eq {A B} (m : M A) (k : A → M B) w a w' :
  m w = (Ret a, w') → bind m k w = k a w'.
Proof. intros H. unfold bind. by rewrite H. Qed.

Lemma bind_inv {A B} (m : M A) (k : A → M B) w (r : B) w2 :
  bind m k w = (Ret r, w2) →
  ∃ a w1, m w = (Ret a, w1) ∧ k a w1 = (Ret r, w2).
Proof.
  unfold bind. destruct (m w) as [[a|v] w1]; intros H; [eauto | discriminate].
Qed.

Lemma preserves_ret {A} I (a : A) : preserves I (ret a).
Proof. by intros w. Qed.

Lemma preserves_panic {A} I v : preserves I (@panic A v).
Proof. by intros w. Qed.

Lemma preserves_lift {A} I (r : outcome A) : preserves I (lift r).
Proof. by intros w. Qed.

Lemma preserves_bind {A B} I (m : M A) (k : A → M B) :
  preserves I m → (∀ a, preserves I (k a)) → preserves I (bind m k).
Proof.
  intros Hm Hk w Hw. unfold bind. specialize (Hm w Hw).
  destruct (m w) as [[a|v] w1]; simpl in *; [by apply Hk | done].
Qed.

Lemma ReadFile_world p w : (ReadFile p w).2 = w.
Proof. unfold ReadFile. by destruct (fs w !! p) as [[]|]. Qed.

Lemma Stat_world p w : (Stat p w).2 = w.
Proof. unfold Stat. by destruct (fs w !! p). Qed.

Lemma preserves_ReadFile I p : preserves I (ReadFile p).
Proof. intros w Hw. by rewrite ReadFile_world. Qed.

Lemma preserves_Stat I p : preserves I (Stat p).
Proof. intros w Hw. by rewrite Stat_world. Qed.

(** ** The address helper *)

Section Hosts.
Context (E : Env).

Lemma existsb_eqb_elem (h : string) (res : list string) :
  existsb (λ x, String.eqb x h) res = bool_decide (h ∈ res).
Proof.
  induction res as [|x res IH]; simpl; [done|].
  rewrite IH. destruct (String.eqb_spec x h) as [->|Hne]; simpl.
  - symmetry. apply bool_decide_eq_true. by left.
  - apply bool_decide_ext. rewrite elem_of_cons. naive_solver.
Qed.

Lemma filter_firstSeen (P : string → Prop) `{∀ x, Decision (P x)} hosts :
  filter P (firstSeen hosts) = firstSeen (filter P hosts).
Proof.
  induction hosts as [|h hosts IH]; simpl; [done|].
  rewrite !filter_cons. destruct (decide (P h)) as [Hh|Hh]; simpl.
  - rewrite <- IH. f_equal. rewrite !list_filter_filter.
    apply list_filter_iff. naive_solver.
  - rewrite <- IH. rewrite list_filter_filter.
    apply list_filter_iff. intros x. split; [naive_solver|].
    intros Hx. split; [done|]. by intros ->.
Qed.

Lemma extractHostsFrom_ok res addrs hosts :
  Forall2 (λ a h, ∃ port, SplitHostPort E a "0" = inr (h, port)) addrs hosts →
  extractHostsFrom E res addrs
  = Ret (res ++ firstSeen (filter (λ h, h ∉ res) hosts))%list.
Proof.
  intros HF. revert res.
  induction HF as [|a h addrs hosts [port Ha] _ IH]; intros res; simpl.
  - by rewrite app_nil_r.
  - rewrite Ha, existsb_eqb_elem, filter_cons. case_bool_decide as Hin.
    + rewrite decide_False by naive_solver. apply IH.
    + rewrite decide_True by done. rewrite IH. simpl.
      rewrite <- app_assoc. simpl. do 3 f_equal.
      rewrite filter_firstSeen, list_filter_filter. f_equal.
      apply list_filter_iff. intros x.
      rewrite elem_of_app, list_elem_of_singleton. naive_solver.
Qed.

Lemma firstSeen_elem h hosts : h ∈ firstSeen hosts ↔ h ∈ hosts.
Proof.
  induction hosts as [|x hosts IH]; simpl; [done|].
  rewrite !elem_of_cons, list_elem_of_filter, IH.
  destruct (decide (h = x)); naive_solver.
Qed.

Lemma firstSeen_NoDup hosts : NoDup (firstSeen hosts).
Proof.
  induction hosts as [|x hosts IH]; simpl; [constructor|].
  apply NoDup_cons. split.
  - rewrite list_elem_of_filter. naive_solver.
  - by apply NoDup_filter.
Qed.

End Hosts.

Lemma extractHostsFrom_panics (E : Env) res addrs a :
  a ∈ addrs → ¬ wellFormed E a →
  ∃ a' e, a' ∈ addrs ∧ SplitHostPort E a' "0" = inl e ∧
          extractHostsFrom E res addrs = Panic e.
Proof.
  intros Hin Hbad. revert res.
  induction addrs as [|x addrs IH]; intros res; [by apply elem_of_nil in Hin|].
  simpl. destruct (SplitHostPort E x "0") as [e|[host port]] eqn:Hx.
  - exists x, e. split; [by left | done].
  - assert (a ∈ addrs) as Hin'.
    { apply elem_of_cons in Hin as [->|]; [|done].
      destruct Hbad. by exists host, port. }
    destruct (IH Hin' (if existsb (λ h, String.eqb h host) res
                       then res else (res ++ [host])%list))
      as (a' & e & Ha' & He & Hrun).
    exists a', e. split; [by right | done].
Qed.

(** C7 (as amended).  When the list holds an entry that the address
    splitter rejects, [extractHosts] panics with the splitter's error for
    such an entry; the function has no error result to return it in. *)
Theorem extractHosts_malformed_panics (E : Env) (addrs : list string) (a : string) :
  a ∈ addrs → ¬ wellFormed E a →
  ∃ a' e, a' ∈ addrs ∧ SplitHostPort E a' "0" = inl e ∧
          extractHosts E addrs = Panic e.
Proof. apply extractHostsFrom_panics. Qed.

Lemma extractHosts_malformed_panics_witness :
  "a:b:c" ∈ ["10.0.0.1:26257"; "a:b:c"] ∧ ¬ wellFormed Ref.env "a:b:c" ∧
  ∃ a' e, a' ∈ ["10.0.0.1:26257"; "a:b:c"] ∧
          SplitHostPort Ref.env a' "0" = inl e ∧
          extractHosts Ref.env ["10.0.0.1:26257"; "a:b:c"] = Panic e.
Proof.
  assert ("a:b:c" ∈ ["10.0.0.1:26257"; "a:b:c"]) as Hin
    by (right; left).
  assert (¬ wellFormed Ref.env "a:b:c") as Hbad.
  { intros (host & port & H). vm_compute in H. discriminate H. }
  split; [exact Hin|]. split; [exact Hbad|].
  exact (extractHosts_malformed_panics Ref.env _ _ Hin Hbad).
Defined.

(** C7 (as stated) fails: on a list with a malformed entry the helper does
    not return at all, it panics. *)
Lemma extractHosts_malformed_counterexample :
  ¬ wellFormed Ref.env "a:b:c" ∧
  extractHosts Ref.env ["10.0.0.1:26257"; "a:b:c"]
  = Panic (ENewf "invalid address format: %q" ["a:b:c"]).
Proof.
  split; [|reflexivity].
  intros (host & port & H). vm_compute in H. discriminate H.
Qed.

(** C8.  On well-formed addresses [extractHosts] returns the hostnames,
    ports stripped, deduplicated in first-seen order: the list [firstSeen]
    of the hosts, which has no duplicates and the same members. *)
Theorem extractHosts_first_seen (E : Env) (addrs hosts : list string) :
  Forall2 (λ a h, ∃ port, SplitHostPort E a "0" = inr (h, port)) addrs hosts →
  extractHosts E addrs = Ret (firstSeen hosts) ∧
  NoDup (firstSeen hosts) ∧
  ∀ h, h ∈ firstSeen hosts ↔ h ∈ hosts.
Proof.
  intros HF. split; [|split].
  - unfold extractHosts. rewrite (extractHostsFrom_ok E [] addrs hosts HF).
    simpl. do 2 f_equal. clear HF. induction hosts as [|x hosts' IH]; [done|].
    rewrite filter_cons_True by apply not_elem_of_nil. f_equal. apply IH.
  - apply firstSeen_NoDup.
  - intros h. apply firstSeen_elem.
Qed.

Lemma extractHosts_first_seen_witness :
  Forall2 (λ a h, ∃ port, SplitHostPort Ref.env a "0" = inr (h, port))
    ["10.0.0.1:26257"; "10.0.0.1:26258"; "10.0.0.2:8080"]
    ["10.0.0.1"; "10.0.0.1"; "10.0.0.2"] ∧
  extractHosts Ref.env ["10.0.0.1:26257"; "10.0.0.1:26258"; "10.0.0.2:8080"]
  = Ret ["10.0.0.1"; "10.0.0.2"].
Proof.
  assert (Forall2 (λ a h, ∃ port, SplitHostPort Ref.env a "0" = inr (h, port))
            ["10.0.0.1:26257"; "10.0.0.1:26258"; "10.0.0.2:8080"]
            ["10.0.0.1"; "10.0.0.1"; "10.0.0.2"]) as HF.
  { repeat constructor; eexists; vm_compute; reflexivity. }
  split; [exact HF|].
  exact (proj1 (extractHosts_first_seen Ref.env _ _ HF)).
Defined.

(** ** The guard of bootstrap and of bundle receive *)

Lemma FileExists_present p w ent :
  fs w !! p = Some ent → FileExists p w = (Ret (true, None), w).
Proof. intros H. unfold FileExists, bind, Stat. by rewrite H. Qed.

Lemma FileExists_absent p w :
  fs w !! p = None → FileExists p w = (Ret (false, None), w).
Proof. intros H. unfold FileExists, bind, Stat. by rewrite H. Qed.

(** C1.  When the InterNode host certificate file exists, bootstrap returns
    the error "inter-node certificate already present" and the world it
    leaves is the world it found: no file changed, nothing was opened for
    writing. *)
Theorem bootstrap_guard (E : Env) (b : CertificateBundle) (c : Config)
    (w : world) (ent : entry) :
  fs w !! NodeCertPath (MakeLocator E (SSLCertsDir c)) = Some ent →
  InitializeFromConfig E b c w = (Ret (b, Some AlreadyInitialized), w).
Proof.
  intros H. unfold InitializeFromConfig.
  by rewrite (bind_eq _ _ _ _ _ (FileExists_present _ _ _ H)).
Qed.

Lemma bootstrap_guard_witness :
  let w := World {[ "certs/node.crt" := Regular "old" mode0644 ]} [] 7 in
  fs w !! NodeCertPath (MakeLocator Ref.env (SSLCertsDir Ref.config))
  = Some (Regular "old" mode0644) ∧
  InitializeFromConfig Ref.env emptyCB Ref.config w
  = (Ret (emptyCB, Some AlreadyInitialized), w).
Proof.
  intros w.
  assert (fs w !! NodeCertPath (MakeLocator Ref.env (SSLCertsDir Ref.config))
          = Some (Regular "old" mode0644)) as H by (vm_compute; reflexivity).
  split; [exact H|].
  exact (bootstrap_guard Ref.env emptyCB Ref.config w _ H).
Defined.

(** ** The cascade of one slot *)

(** The case that the cascade handles: when the host certificate file
    loads and the host key file does not, the cascade returns one of its
    two key-load errors (the specification's InconsistentPair) and leaves
    the world as it found it: nothing is generated, nothing is written. *)
Theorem cascade_inconsistent_pair (E : Env) (sb : ServiceCertificateBundle)
    (serviceCertPath serviceKeyPath caCertPath caKeyPath : string)
    (certLife caLife : Z) (commonName serviceName : string)
    (hostnames : list string) (dual : bool) (w : world) :
  loadable w serviceCertPath → ¬ loadable w serviceKeyPath →
  ∃ sb' e,
    loadOrCreateServiceCertificates E sb serviceCertPath serviceKeyPath
      caCertPath caKeyPath certLife caLife commonName serviceName
      hostnames dual w = (Ret (sb', Some e), w) ∧
    isInconsistentPair e = true.
Proof.
  intros (data & mode & Hcert) Hkey.
  unfold loadOrCreateServiceCertificates, bind, loadCertificateFile,
    loadKeyFile, ReadFile.
  rewrite Hcert.
  destruct (fs w !! serviceKeyPath) as [[d m|why]|] eqn:Hk.
  - destruct Hkey. by exists d, m.
  - destruct (IsNotExist (EPath "open" serviceKeyPath (errnoOf why))); eauto.
  - simpl. eauto.
Qed.

Lemma cascade_inconsistent_pair_witness :
  let w := World {[ "certs/client.node.crt" := Regular "cert" mode0644 ]} [] 0 in
  loadable w "certs/client.node.crt" ∧ ¬ loadable w "certs/client.node.key" ∧
  ∃ sb' e,
    loadOrCreateServiceCertificates Ref.env emptySCB
      "certs/client.node.crt" "certs/client.node.key"
      "certs/ca-client.crt" "certs/ca-client.key"
      defaultCertLifetime defaultCALifetime "node" serviceNameUserAuth []
      true w = (Ret (sb', Some e), w) ∧
    isInconsistentPair e = true.
Proof.
  intros w.
  assert (loadable w "certs/client.node.crt") as Hc.
  { exists "cert", mode0644. vm_compute. reflexivity. }
  assert (¬ loadable w "certs/client.node.key") as Hk.
  { intros (d & m & H). vm_compute in H. discriminate H. }
  split; [exact Hc|]. split; [exact Hk|].
  exact (cascade_inconsistent_pair Ref.env emptySCB _ _ _ _ _ _ _ _ _ _ w Hc Hk).
Defined.

(** When the host certificate does not load and reading the CA certificate
    fails with anything but not-found, neither branch of the CA step is
    taken: the cascade goes on to issue a host pair with no CA certificate
    in memory, and the read error is gone. *)
Lemma cascade_ca_read_error_ignored (E : Env) (sb : ServiceCertificateBundle)
    (serviceCertPath serviceKeyPath caCertPath caKeyPath : string)
    (certLife caLife : Z) (commonName serviceName : string)
    (hostnames : list string) (dual : bool) (w : world) (why : fault) :
  ¬ loadable w serviceCertPath →
  fs w !! caCertPath = Some (Blocked why) →
  loadOrCreateServiceCertificates E sb serviceCertPath serviceKeyPath
    caCertPath caKeyPath certLife caLife commonName serviceName hostnames
    dual w
  = issueServiceCert E (setCACertificate None (setHostCertificate None sb))
      serviceCertPath serviceKeyPath certLife commonName hostnames dual w.
Proof.
  intros Hcert Hca.
  unfold loadOrCreateServiceCertificates, bind, loadCertificateFile, ReadFile.
  destruct (fs w !! serviceCertPath) as [[d m|why']|] eqn:Hc.
  - destruct Hcert. by exists d, m.
  - rewrite Hca. simpl. by destruct why.
  - rewrite Hca. simpl. by destruct why.
Qed.

(** C5 (the code at the failing input).  The host certificate is absent and
    the CA certificate cannot be read for lack of permission: the cascade
    does not report the read failure, it reports that the CA key, which it
    never tried to load, does not decode. *)
Theorem cascade_ca_permission_error :
  let w := World {[ "certs/ca.crt" := Blocked Denied ]} [] 0 in
  ∃ e,
    loadOrCreateServiceCertificates Ref.env emptySCB
      "certs/node.crt" "certs/node.key" "certs/ca.crt" "certs/ca.key"
      defaultCertLifetime defaultCALifetime "node" serviceNameInterNode
      ["10.0.0.1"] true w = (Ret (emptySCB, Some e), w) ∧
    e = ENew "error when decoding PEM CAKey" ∧ isIOError e = false.
Proof. eexists. split; [vm_compute; reflexivity | split; reflexivity]. Qed.

(** ** Rotation of one slot *)

(** C9.  With a CA certificate in memory that decodes to at least one
    certificate, and no host certificate file on disk, [rotateServiceCert]
    returns an error and no file is written.  When the new pair has been
    generated, the error is the failed existence check of the certificate
    file. *)
Theorem rotate_needs_existing_cert (E : Env) (sb : ServiceCertificateBundle)
    (certPath keyPath : string) (life : Z) (commonName serviceString : string)
    (hostnames : list string) (dual : bool) (w : world)
    (ca : string) (caCert0 : Block) (rest : list Block) :
  CACertificate sb = Some ca →
  PEMToCertificates E ca = inr (caCert0 :: rest) →
  fs w !! certPath = None →
  ∃ e w',
    rotateServiceCert E sb certPath keyPath life commonName serviceString
      hostnames dual w = (Ret (Some e), w') ∧
    fs w' = fs w ∧ trace w' = trace w ∧
    ∀ caKey cert key,
      pemDecode E (bytesOf (CAKey sb)) = (Some caKey, "") →
      CreateServiceCertAndKey E (seed w) life commonName hostnames
        caCert0 caKey dual = inr (cert, key) →
      e = EWrapf (EPath "stat" certPath ENOENT)
            "failed to rotate certs for %q" [serviceString] ∧
      seed w' = S (seed w).
Proof.
  intros Hca Hpem Hcert. unfold rotateServiceCert.
  rewrite Hca. simpl. rewrite Hpem.
  destruct (pemDecode E (bytesOf (CAKey sb))) as [[caKey|] r] eqn:Hdec.
  2:{ eexists _, w. do 3 (split; [reflexivity|]). intros ??? [=]. }
  destruct r as [|a r]; simpl.
  2:{ eexists _, w. do 3 (split; [reflexivity|]). intros ??? [=]. }
  unfold bind, genServiceCert. simpl.
  destruct (CreateServiceCertAndKey E (seed w) life commonName hostnames
              caCert0 caKey dual) as [err|[cert key]] eqn:Hgen.
  - eexists _, _. do 3 (split; [reflexivity|]). intros ??? [= <-]. congruence.
  - unfold Stat. simpl. rewrite Hcert.
    eexists _, _. do 3 (split; [reflexivity|]). intros ??? _ _. done.
Qed.

Lemma rotate_needs_existing_cert_witness :
  let sb := MkSCB (Some (Ref.refEncode (MkBlock "CERTIFICATE" "ca")))
                  (Some (Ref.refEncode (MkBlock "RSA PRIVATE KEY" "ca-key")))
                  None None in
  ∃ e w',
    rotateServiceCert Ref.env sb "certs/ui.crt" "certs/ui.key"
      defaultCertLifetime "10.0.0.2" serviceNameUI ["10.0.0.2"] false
      Ref.emptyWorld = (Ret (Some e), w') ∧
    fs w' = fs Ref.emptyWorld ∧ trace w' = trace Ref.emptyWorld.
Proof.
  intros sb.
  destruct (rotate_needs_existing_cert Ref.env sb "certs/ui.crt" "certs/ui.key"
              defaultCertLifetime "10.0.0.2" serviceNameUI ["10.0.0.2"] false
              Ref.emptyWorld (Ref.refEncode (MkBlock "CERTIFICATE" "ca"))
              (MkBlock "CERTIFICATE" "ca") []
              eq_refl eq_refl eq_refl) as (e & w' & H1 & H2 & H3 & _).
  exists e, w'. split; [exact H1|]. split; [exact H2 | exact H3].
Defined.

(** ** Distinct paths *)

Lemma NoDup_lookup_ne (l : list string) (i j : nat) (x y : string) :
  NoDup l → l !! i = Some x → l !! j = Some y → i ≠ j → x ≠ y.
Proof. intros Hnd Hi Hj Hij ->. apply Hij. by eapply NoDup_lookup. Qed.

Ltac index_of x l :=
  lazymatch l with
  | x :: _ => constr:(O)
  | _ :: ?t => let n := index_of x t in constr:(S n)
  end.

(** Two different paths of a locator whose twenty paths are distinct. *)
Ltac path_ne :=
  lazymatch goal with
  | Hnd : NoDup (paths ?cl) |- ?x ≠ ?y =>
      let l := eval cbv [paths hostPaths caPaths app] in (paths cl) in
      let i := index_of x l in
      let j := index_of y l in
      exact (NoDup_lookup_ne (paths cl) i j x y Hnd eq_refl eq_refl
               ltac:(discriminate))
  end.

Ltac path_notin :=
  rewrite ?not_elem_of_cons; repeat split;
  first [ apply not_elem_of_nil | path_ne ].

Ltac path_in :=
  first [ apply list_elem_of_here | apply list_elem_of_further; path_in ].

(** ** What the workflows do to the files *)

Section Frames.
Context (E : Env).

Lemma issued_refl F w : issued E F w w.
Proof. split; [done | by left]. Qed.

Lemma touched_later w0 w w' p :
  touched E w0 w p → fs w' !! p = fs w !! p → (seed w ≤ seed w')%nat →
  touched E w0 w' p.
Proof.
  intros (s & data & mode & Hs & Hg & Hp) Heq Hle.
  exists s, data, mode. split; [lia|]. split; [done|]. by rewrite Heq.
Qed.

Lemma issued_step F w0 w w' :
  issued E F w0 w → (seed w ≤ seed w')%nat →
  (∀ p, fs w' !! p = fs w !! p ∨ (p ∈ F ∧ touched E w0 w' p)) →
  issued E F w0 w'.
Proof.
  intros [Hle H] Hle' H'. split; [lia|]. intros p.
  destruct (H' p) as [Heq|?]; [|by right].
  destruct (H p) as [Heq0|[Hin Ht]].
  - left. by rewrite Heq.
  - right. split; [done|]. by eapply touched_later.
Qed.

Lemma issued_bump F w0 w t :
  issued E F w0 w → issued E F w0 (World (fs w) t (S (seed w))).
Proof. intros H. eapply issued_step; [done | simpl; lia | by left]. Qed.

Lemma issued_write F w0 w p s data mode t :
  issued E F w0 w → p ∈ F → generated E s data →
  (seed w0 ≤ s < seed w)%nat →
  issued E F w0 (World (<[p := Regular data mode]> (fs w)) t (seed w)).
Proof.
  intros H Hin Hg Hs. eapply issued_step; [done | done |]. intros q. simpl.
  destruct (decide (p = q)) as [->|Hne].
  - right. split; [done|]. exists s, data, mode. simpl.
    by rewrite lookup_insert_eq.
  - left. by rewrite lookup_insert_ne.
Qed.

Lemma issued_weaken F F' w0 w :
  F ⊆ F' → issued E F w0 w → issued E F' w0 w.
Proof.
  intros Hsub [Hle H]. split; [done|]. intros p.
  destruct (H p) as [?|[? ?]]; [by left | right; split; auto].
Qed.

Lemma issued_trans F w0 w1 w2 :
  issued E F w0 w1 → issued E F w1 w2 → issued E F w0 w2.
Proof.
  intros H01 [Hle H12]. eapply issued_step; [done | done |]. intros p.
  destruct (H12 p) as [?|[Hin (s & data & mode & Hs & Hg & Hp)]]; [by left|].
  right. split; [done|]. exists s, data, mode. destruct H01 as [? _].
  split; [lia | done].
Qed.

Lemma issued_frame F w0 w p :
  issued E F w0 w → p ∉ F → fs w !! p = fs w0 !! p.
Proof. intros [_ H] Hp. destruct (H p) as [?|[? _]]; done. Qed.

Lemma issued_present F w0 w p :
  issued E F w0 w → is_Some (fs w0 !! p) → is_Some (fs w !! p).
Proof.
  intros [_ H] Hp. destruct (H p) as [->|[_ (s & d & m & _ & _ & ->)]]; eauto.
Qed.

Lemma touched_carry F w0 wa wb w p :
  touched E wa wb p → (seed w0 ≤ seed wa)%nat → issued E F wb w →
  touched E w0 w p.
Proof.
  intros (s & d & m & Hs & Hg & Hp) Hle [Hle' H].
  destruct (H p) as [Heq|[_ (s' & d' & m' & Hs' & Hg' & Hp')]].
  - exists s, d, m. split; [lia|]. split; [done|]. by rewrite Heq.
  - exists s', d', m'. split; [lia | done].
Qed.

Lemma issued_Fresh F w0 w :
  (∀ s s' data, generated E s data → generated E s' data → s = s') →
  Fresh E w0 → issued E F w0 w → Fresh E w.
Proof.
  intros Hinj Hfresh [Hle H] p data mode s Hp Hs Hg.
  destruct (H p) as [Heq|[_ (s' & d' & m' & Hs' & Hg' & Hp')]].
  - rewrite Heq in Hp. eapply Hfresh; [done | | done]. lia.
  - rewrite Hp in Hp'. injection Hp' as -> ->.
    assert (s = s') by by eapply Hinj. lia.
Qed.

Lemma WritePEMToFile_issued F w0 p mode ow b w :
  p ∈ F →
  (∃ s, (seed w0 ≤ s < seed w)%nat ∧ generated E s (pemEncodeToMemory E b)) →
  issued E F w0 w →
  issued E F w0 (WritePEMToFile E p mode ow (Some b) w).2.
Proof.
  intros Hin (s & Hs & Hg) H. unfold WritePEMToFile.
  destruct (fs w !! p) as [[d m|why]|];
    [destruct ow; [destruct (ownerMayWrite m)|]|destruct ow|]; simpl;
    try done; by eapply issued_write.
Qed.

End Frames.

(** One step of a proof that a composite run keeps a property. *)
Ltac preserves_step :=
  first
  [ apply preserves_ret | apply preserves_panic | apply preserves_lift
  | apply preserves_ReadFile | apply preserves_Stat
  | apply preserves_bind; [|intros ?]
  | lazymatch goal with
    | |- preserves _ (match ?x with _ => _ end) => destruct x
    end ].

Section Workflows.
Context (E : Env).

Lemma WritePEMToFile_seed p mode ow blk w :
  seed (WritePEMToFile E p mode ow blk w).2 = seed w.
Proof.
  unfold WritePEMToFile.
  destruct (fs w !! p) as [[d m|why]|], ow, blk;
    try destruct (ownerMayWrite m); reflexivity.
Qed.

Lemma WritePEMToFile_writing F w0 s p mode ow b :
  p ∈ F → (seed w0 ≤ s)%nat → generated E s (pemEncodeToMemory E b) →
  preserves (writing E F w0 s) (WritePEMToFile E p mode ow (Some b)).
Proof.
  intros Hin Hs Hg w [Hw Hlt]. split.
  - apply WritePEMToFile_issued; [done | | done]. exists s. split; [lia|done].
  - by rewrite WritePEMToFile_seed.
Qed.

Lemma writing_start {A} F w0 w t (m : M A) :
  issued E F w0 w → preserves (writing E F w0 (seed w)) m →
  issued E F w0 (m (World (fs w) t (S (seed w)))).2.
Proof.
  intros Hw Hm. apply Hm. split; [by apply issued_bump | simpl; lia].
Qed.

Lemma generated_ca s life cn c k :
  CreateCACertAndKey E s life cn = inr (c, k) →
  generated E s (pemEncodeToMemory E c) ∧ generated E s (pemEncodeToMemory E k).
Proof. intros H. split; left; exists life, cn, c, k; auto. Qed.

Lemma generated_leaf s life cn hosts ca cak dual c k :
  CreateServiceCertAndKey E s life cn hosts ca cak dual = inr (c, k) →
  generated E s (pemEncodeToMemory E c) ∧ generated E s (pemEncodeToMemory E k).
Proof. intros H. split; right; exists life, cn, hosts, ca, cak, dual, c, k; auto. Qed.

Lemma createServiceCA_issued F w0 sb caCertPath caKeyPath life :
  caCertPath ∈ F → caKeyPath ∈ F →
  preserves (issued E F w0) (createServiceCA E sb caCertPath caKeyPath life).
Proof.
  intros Hc Hk w Hw. unfold createServiceCA, bind at 1, genCA.
  destruct (CreateCACertAndKey E (seed w) life (caCommonName E))
    as [err|[c k]] eqn:Hgen.
  - by apply issued_bump.
  - destruct (generated_ca _ _ _ _ _ Hgen) as [Hgc Hgk].
    apply writing_start; [done|].
    unfold writeCertificateFile, writeKeyFile.
    destruct Hw as [Hle _].
    repeat first [ by apply WritePEMToFile_writing | preserves_step ].
Qed.

Lemma issueServiceCert_issued F w0 sb certPath keyPath life cn hosts dual :
  certPath ∈ F → keyPath ∈ F →
  preserves (issued E F w0)
    (issueServiceCert E sb certPath keyPath life cn hosts dual).
Proof.
  intros Hc Hk w Hw. unfold issueServiceCert.
  destruct (PEMToCertificates E (bytesOf (CACertificate sb))) as [err|cas];
    [done|].
  destruct (pemDecode E (bytesOf (CAKey sb))) as [[caKey|] rest]; [|done].
  destruct (0 <? String.length rest)%nat; [done|].
  destruct cas as [|ca0 cas]; [done|].
  unfold bind at 1, genServiceCert.
  destruct (CreateServiceCertAndKey E (seed w) life cn hosts ca0 caKey dual)
    as [err|[c k]] eqn:Hgen.
  - by apply issued_bump.
  - destruct (generated_leaf _ _ _ _ _ _ _ _ _ Hgen) as [Hgc Hgk].
    apply writing_start; [done|].
    unfold writeCertificateFile, writeKeyFile.
    destruct Hw as [Hle _].
    repeat first [ by apply WritePEMToFile_writing | preserves_step ].
Qed.

Lemma rotateServiceCert_issued F w0 sb certPath keyPath life cn svc hosts dual :
  certPath ∈ F → keyPath ∈ F →
  preserves (issued E F w0)
    (rotateServiceCert E sb certPath keyPath life cn svc hosts dual).
Proof.
  intros Hc Hk w Hw. unfold rotateServiceCert.
  destruct (PEMToCertificates E (bytesOf (CACertificate sb))) as [err|cas];
    [done|].
  destruct (pemDecode E (bytesOf (CAKey sb))) as [[caKey|] rest]; [|done].
  destruct (0 <? String.length rest)%nat; [done|].
  destruct cas as [|ca0 cas]; [done|].
  unfold bind at 1, genServiceCert.
  destruct (CreateServiceCertAndKey E (seed w) life cn hosts ca0 caKey dual)
    as [err|[c k]] eqn:Hgen.
  - by apply issued_bump.
  - destruct (generated_leaf _ _ _ _ _ _ _ _ _ Hgen) as [Hgc Hgk].
    apply writing_start; [done|].
    unfold writeCertificateFile, writeKeyFile.
    destruct Hw as [Hle _].
    repeat first [ by apply WritePEMToFile_writing | preserves_step ].
Qed.

Lemma loadOrCreate_issued F w0 sb certPath keyPath caCertPath caKeyPath
    certLife caLife cn sn hosts dual :
  certPath ∈ F → keyPath ∈ F → caCertPath ∈ F → caKeyPath ∈ F →
  preserves (issued E F w0)
    (loadOrCreateServiceCertificates E sb certPath keyPath caCertPath
       caKeyPath certLife caLife cn sn hosts dual).
Proof.
  intros H1 H2 H3 H4.
  unfold loadOrCreateServiceCertificates, loadCertificateFile, loadKeyFile.
  repeat first [ by apply createServiceCA_issued
               | by apply issueServiceCert_issued
               | preserves_step ].
Qed.

Lemma paths_subset cl p : p ∈ paths cl →
  p ∈ hostPaths cl ∨ p ∈ caPaths cl.
Proof. unfold paths. by rewrite elem_of_app. Qed.

Lemma InitializeFromConfig_issued w0 b c :
  preserves (issued E (paths (MakeLocator E (SSLCertsDir c))) w0)
    (InitializeFromConfig E b c).
Proof.
  unfold InitializeFromConfig, FileExists, indexPanic.
  repeat first
    [ apply loadOrCreate_issued;
      unfold paths, hostPaths, caPaths; simpl; path_in
    | preserves_step ].
Qed.

Lemma loadCACertAndKey_world sb cp kp w :
  (loadCACertAndKey sb cp kp w).2 = w.
Proof.
  unfold loadCACertAndKey, loadCertificateFile, loadKeyFile, bind, ReadFile.
  destruct (fs w !! cp) as [[]|]; simpl; try done.
  by destruct (fs w !! kp) as [[]|].
Qed.

Lemma rotateGeneratedCerts_issued w0 c :
  preserves (issued E (hostPaths (MakeLocator E (SSLCertsDir c))) w0)
    (rotateGeneratedCerts E c).
Proof.
  unfold rotateGeneratedCerts, collectLocalCABundle, loadCACertAndKeyIfExists,
    loadCACertAndKey, loadCertificateFile, loadKeyFile, indexPanic.
  repeat first
    [ apply rotateServiceCert_issued; unfold hostPaths; path_in
    | preserves_step ].
Qed.

(** *** Success of the cascade *)

Lemma WritePEMToFile_new p mode b w :
  fs w !! p = None →
  WritePEMToFile E p mode false (Some b) w
  = (Ret None,
     World (<[p := Regular (pemEncodeToMemory E b) mode]> (fs w))
           (p :: trace w) (seed w)).
Proof. intros H. unfold WritePEMToFile. by rewrite H. Qed.

Lemma createServiceCA_ok sb caCertPath caKeyPath life w c k :
  CreateCACertAndKey E (seed w) life (caCommonName E) = inr (c, k) →
  fs w !! caCertPath = None → fs w !! caKeyPath = None →
  caCertPath ≠ caKeyPath →
  createServiceCA E sb caCertPath caKeyPath life w
  = (Ret (setCAKey (Some (pemEncodeToMemory E k))
            (setCACertificate (Some (pemEncodeToMemory E c)) sb), None),
     World (<[caKeyPath := Regular (pemEncodeToMemory E k) mode0600]>
              (<[caCertPath := Regular (pemEncodeToMemory E c) mode0644]>
                 (fs w)))
           (caKeyPath :: caCertPath :: trace w) (S (seed w))).
Proof.
  intros Hgen Hc Hk Hne.
  unfold createServiceCA.
  erewrite bind_eq; [|unfold genCA; by rewrite Hgen]. cbv beta iota.
  unfold writeCertificateFile, writeKeyFile.
  erewrite bind_eq; [|by apply WritePEMToFile_new]. cbv beta iota.
  erewrite bind_eq;
    [|apply WritePEMToFile_new; simpl; by rewrite lookup_insert_ne].
  done.
Qed.

Lemma issueServiceCert_ok sb certPath keyPath life cn hosts dual w
    ca0 cas caKey hc hk :
  PEMToCertificates E (bytesOf (CACertificate sb)) = inr (ca0 :: cas) →
  pemDecode E (bytesOf (CAKey sb)) = (Some caKey, "") →
  CreateServiceCertAndKey E (seed w) life cn hosts ca0 caKey dual
  = inr (hc, hk) →
  fs w !! certPath = None → fs w !! keyPath = None → certPath ≠ keyPath →
  issueServiceCert E sb certPath keyPath life cn hosts dual w
  = (Ret (setHostKey (Some (pemEncodeToMemory E hk))
            (setHostCertificate (Some (pemEncodeToMemory E hc)) sb), None),
     World (<[keyPath := Regular (pemEncodeToMemory E hk) mode0600]>
              (<[certPath := Regular (pemEncodeToMemory E hc) mode0644]>
                 (fs w)))
           (keyPath :: certPath :: trace w) (S (seed w))).
Proof.
  intros Hpem Hdec Hgen Hc Hk Hne.
  unfold issueServiceCert. rewrite Hpem, Hdec. simpl.
  erewrite bind_eq; [|unfold genServiceCert; by rewrite Hgen]. cbv beta iota.
  unfold writeCertificateFile, writeKeyFile.
  erewrite bind_eq; [|by apply WritePEMToFile_new]. cbv beta iota.
  erewrite bind_eq;
    [|apply WritePEMToFile_new; simpl; by rewrite lookup_insert_ne].
  done.
Qed.

End Workflows.

(** ** A cascade that succeeds *)

Section Success.
Context (E : Env).

Lemma ReadFile_absent p w :
  fs w !! p = None → ReadFile p w = (Ret (None, Some (EPath "open" p ENOENT)), w).
Proof. intros H. unfold ReadFile. by rewrite H. Qed.

Lemma ReadFile_regular p w data mode :
  fs w !! p = Some (Regular data mode) → ReadFile p w = (Ret (Some data, None), w).
Proof. intros H. unfold ReadFile. by rewrite H. Qed.

Lemma cascade_ok sb certPath keyPath caCertPath caKeyPath certLife caLife
    cn sn hosts dual w :
  GeneratorOK E →
  fs w !! certPath = None → fs w !! keyPath = None →
  caReady E w caCertPath caKeyPath →
  certPath ≠ keyPath → caCertPath ≠ caKeyPath →
  certPath ≠ caCertPath → certPath ≠ caKeyPath →
  keyPath ≠ caCertPath → keyPath ≠ caKeyPath →
  ∃ sb' w',
    loadOrCreateServiceCertificates E sb certPath keyPath caCertPath
      caKeyPath certLife caLife cn sn hosts dual w = (Ret (sb', None), w') ∧
    is_Some (fs w' !! certPath) ∧ is_Some (fs w' !! keyPath) ∧
    (fs w !! caCertPath = None →
       ∃ c k,
         CreateCACertAndKey E (seed w) caLife (caCommonName E) = inr (c, k) ∧
         fs w' !! caCertPath = Some (Regular (pemEncodeToMemory E c) mode0644) ∧
         fs w' !! caKeyPath = Some (Regular (pemEncodeToMemory E k) mode0600) ∧
         CACertificate sb' = Some (pemEncodeToMemory E c) ∧
         CAKey sb' = Some (pemEncodeToMemory E k)) ∧
    (is_Some (fs w !! caCertPath) →
       fs w' !! caCertPath = fs w !! caCertPath ∧
       fs w' !! caKeyPath = fs w !! caKeyPath).
Proof.
  intros HG Hc Hk Hready N1 N2 N3 N4 N5 N6.
  unfold loadOrCreateServiceCertificates, loadCertificateFile, loadKeyFile.
  erewrite bind_eq; [|by apply ReadFile_absent]. cbv beta iota.
  destruct Hready as [[Hca Hcak]|(cert & m1 & key & m2 & ca0 & cas & caKey &
                                   Hca & Hcak & Hpem & Hdec)].
  - erewrite bind_eq; [|by apply ReadFile_absent]. cbv beta iota.
    change (IsNotExist (EPath "open" caCertPath ENOENT)) with true.
    cbv beta iota.
    destruct (ca_total E HG (seed w) caLife (caCommonName E)) as (c & k & Hgen).
    destruct (ca_decodes E HG _ _ _ _ _ Hgen) as [[cs Hpem] Hdec].
    erewrite bind_eq.
    2:{ erewrite bind_eq; [|by apply createServiceCA_ok]. reflexivity. }
    cbv beta iota.
    match goal with |- context [issueServiceCert E ?sb1 _ _ _ _ _ _ ?w1] =>
      destruct (leaf_total E HG (seed w1) certLife cn hosts c k dual)
        as (hc & hk & Hleaf);
      rewrite (issueServiceCert_ok E sb1 certPath keyPath certLife cn hosts
                 dual w1 c cs k hc hk Hpem Hdec Hleaf)
    end.
    + eexists _, _. split; [reflexivity|]. simpl.
      rewrite lookup_insert_ne, lookup_insert_eq by done.
      rewrite lookup_insert_eq.
      split; [eauto|]. split; [eauto|]. split.
      * intros _. exists c, k. split; [done|].
        rewrite !(lookup_insert_ne _ keyPath), !(lookup_insert_ne _ certPath)
          by done.
        rewrite lookup_insert_ne, !lookup_insert_eq by done. done.
      * rewrite Hca. by intros [? [=]].
    + simpl. by rewrite !lookup_insert_ne.
    + simpl. by rewrite !lookup_insert_ne.
    + done.
  - erewrite bind_eq; [|by eapply ReadFile_regular]. cbv beta iota.
    erewrite bind_eq.
    2:{ erewrite bind_eq; [|by eapply ReadFile_regular]. reflexivity. }
    cbv beta iota.
    match goal with |- context [issueServiceCert E ?sb1 _ _ _ _ _ _ ?w1] =>
      destruct (leaf_total E HG (seed w1) certLife cn hosts ca0 caKey dual)
        as (hc & hk & Hleaf);
      rewrite (issueServiceCert_ok E sb1 certPath keyPath certLife cn hosts
                 dual w1 ca0 cas caKey hc hk Hpem Hdec Hleaf) by done
    end.
    eexists _, _. split; [reflexivity|]. simpl.
    rewrite lookup_insert_ne, !lookup_insert_eq by done.
    split; [eauto|]. split; [eauto|]. split.
    + rewrite Hca. intros [=].
    + intros _. by rewrite !lookup_insert_ne.
Qed.

Lemma caReady_frame w w' caCertPath caKeyPath :
  fs w' !! caCertPath = fs w !! caCertPath →
  fs w' !! caKeyPath = fs w !! caKeyPath →
  caReady E w caCertPath caKeyPath → caReady E w' caCertPath caKeyPath.
Proof. unfold caReady. intros -> ->. done. Qed.

Lemma extractHostsFrom_total res addrs :
  Forall (wellFormed E) addrs →
  ∃ r, extractHostsFrom E res addrs = Ret r ∧
       (res ≠ [] ∨ addrs ≠ [] → r ≠ []).
Proof.
  intros HF. revert res.
  induction HF as [|a addrs (host & port & Ha) _ IH]; intros res; simpl.
  - exists res. split; [done|]. by intros [?|?].
  - rewrite Ha.
    destruct (IH (if existsb (λ h, String.eqb h host) res
                  then res else (res ++ [host])%list)) as (r & Hr & Hne).
    exists r. split; [done|]. intros _. apply Hne. left.
    destruct (existsb _ res) eqn:Hex.
    + intros ->. discriminate Hex.
    + by destruct res.
Qed.

Lemma extractHosts_total a1 a2 :
  wellFormed E a1 → wellFormed E a2 →
  ∃ h hs, extractHosts E [a1; a2] = Ret (h :: hs).
Proof.
  intros H1 H2.
  destruct (extractHostsFrom_total [] [a1; a2]) as (r & Hr & Hne);
    [by repeat constructor|].
  destruct r as [|h hs]; [by destruct Hne; [right|]|]. by exists h, hs.
Qed.

End Success.

(** Rewrites a lookup in a later world into the lookup in an earlier one,
    across steps that did not touch the path. *)
Ltac frame_back :=
  repeat match goal with
  | H : issued ?E ?F ?wa ?wb |- context [fs ?wb !! ?p] =>
      rewrite (issued_frame E F wa wb p H) by path_notin
  end.

(** One slot of the bootstrap: the cascade succeeds, and the step is
    recorded as a frame. *)
Ltac slot_step HG Hhost Hready s :=
  lazymatch goal with
  | |- context [bind (loadOrCreateServiceCertificates ?E ?sb ?cert ?key
                        ?cacert ?cakey ?l1 ?l2 ?cn ?sn ?hosts ?dual) _ ?wk] =>
      let Hc := fresh "Hc" in
      let Hk := fresh "Hk" in
      let Hr := fresh "Hr" in
      let sb' := fresh "sb" in
      let w' := fresh "w" in
      let Hrun := fresh "Hrun" in
      let Hfr := fresh "Hfr" in
      let Hcert := fresh "Hcert" in
      let Hkey := fresh "Hkey" in
      let Hnew := fresh "Hnew" in
      let Hold := fresh "Hold" in
      assert (fs wk !! cert = None) as Hc
        by (frame_back; apply Hhost; unfold hostPaths; path_in);
      assert (fs wk !! key = None) as Hk
        by (frame_back; apply Hhost; unfold hostPaths; path_in);
      assert (caReady E wk cacert cakey) as Hr
        by (apply (caReady_frame E _ wk cacert cakey) with (3 := Hready s);
            frame_back; reflexivity);
      destruct (cascade_ok E sb cert key cacert cakey l1 l2 cn sn hosts dual
                  wk HG Hc Hk Hr
                  ltac:(path_ne) ltac:(path_ne) ltac:(path_ne)
                  ltac:(path_ne) ltac:(path_ne) ltac:(path_ne))
        as (sb' & w' & Hrun & Hcert & Hkey & Hnew & Hold);
      pose proof (loadOrCreate_issued E [cert; key; cacert; cakey] wk sb
                    cert key cacert cakey l1 l2 cn sn hosts dual
                    ltac:(path_in) ltac:(path_in) ltac:(path_in)
                    ltac:(path_in) wk (issued_refl E _ wk)) as Hfr;
      rewrite Hrun in Hfr; simpl in Hfr;
      erewrite bind_eq; [|exact Hrun]; cbv beta iota
  end.

(** ** Bootstrap of a directory without host certificates *)

Section Bootstrap.
Context (E : Env).

Lemma bootstrap_ok b c w :
  GeneratorOK E →
  NoDup (paths (MakeLocator E (SSLCertsDir c))) →
  EnsureCertsDirectory E (SSLCertsDir c) = None →
  Forall (wellFormed E) (addresses c) →
  (∀ p, p ∈ hostPaths (MakeLocator E (SSLCertsDir c)) → fs w !! p = None) →
  (∀ s, caReady E w (caCertPath (MakeLocator E (SSLCertsDir c)) s)
                    (caKeyPath (MakeLocator E (SSLCertsDir c)) s)) →
  ∃ b1 w1,
    InitializeFromConfig E b c w = (Ret (b1, None), w1) ∧
    ∀ s,
      is_Some (fs w1 !! hostCertPath (MakeLocator E (SSLCertsDir c)) s) ∧
      is_Some (fs w1 !! hostKeyPath (MakeLocator E (SSLCertsDir c)) s) ∧
      (fs w !! caCertPath (MakeLocator E (SSLCertsDir c)) s = None →
         ∃ n ca caKey,
           CreateCACertAndKey E n defaultCALifetime (caCommonName E)
           = inr (ca, caKey) ∧
           fs w1 !! caCertPath (MakeLocator E (SSLCertsDir c)) s
           = Some (Regular (pemEncodeToMemory E ca) mode0644) ∧
           fs w1 !! caKeyPath (MakeLocator E (SSLCertsDir c)) s
           = Some (Regular (pemEncodeToMemory E caKey) mode0600) ∧
           CACertificate (getSlot b1 s) = Some (pemEncodeToMemory E ca)) ∧
      (is_Some (fs w !! caCertPath (MakeLocator E (SSLCertsDir c)) s) →
         fs w1 !! caCertPath (MakeLocator E (SSLCertsDir c)) s
         = fs w !! caCertPath (MakeLocator E (SSLCertsDir c)) s ∧
         fs w1 !! caKeyPath (MakeLocator E (SSLCertsDir c)) s
         = fs w !! caKeyPath (MakeLocator E (SSLCertsDir c)) s).
Proof.
  intros HG Hnd Hdir Haddr Hhost Hready.
  set (cl := MakeLocator E (SSLCertsDir c)) in *.
  unfold addresses in Haddr.
  repeat match goal with H : Forall _ (_ :: _) |- _ =>
    apply Forall_cons in H; destruct H as [? H] end.
  destruct (extractHosts_total E (Addr c) (AdvertiseAddr c))
    as (rpc0 & rpcs & Hrpc); [done..|].
  destruct (extractHosts_total E (SQLAddr c) (SQLAdvertiseAddr c))
    as (sql0 & sqls & Hsql); [done..|].
  destruct (extractHosts_total E (HTTPAddr c) (HTTPAdvertiseAddr c))
    as (http0 & https & Hhttp); [done..|].
  unfold InitializeFromConfig. fold cl.
  erewrite bind_eq; [|apply FileExists_absent, Hhost; unfold hostPaths; path_in].
  cbv beta iota.
  rewrite Hrpc, Hsql, Hhttp, Hdir.
  erewrite bind_eq; [|reflexivity]. cbv beta iota.
  assert (∃ sqlAddrs,
            (if SplitListenSQL c then lift (Ret (sql0 :: sqls))
             else ret (rpc0 :: rpcs)) w = (Ret sqlAddrs, w))
    as [sqlAddrs Hs] by (destruct (SplitListenSQL c); eauto).
  erewrite bind_eq; [|exact Hs]. cbv beta iota.
  erewrite bind_eq; [|reflexivity]. cbv beta iota.
  slot_step HG Hhost Hready SInterNode.
  slot_step HG Hhost Hready SUserAuth.
  slot_step HG Hhost Hready SSQLService.
  slot_step HG Hhost Hready SRPCService.
  slot_step HG Hhost Hready SAdminUI.
  eexists _, _. split; [reflexivity|].
  intros s.
  split; [destruct s; simpl; frame_back; assumption|].
  split; [destruct s; simpl; frame_back; assumption|].
  split.
  - intros Habs.
    destruct s; simpl in *;
    [ destruct Hnew as (ca & caKey & ? & ? & ? & ? & ?)
    | destruct Hnew0 as (ca & caKey & ? & ? & ? & ? & ?)
    | destruct Hnew1 as (ca & caKey & ? & ? & ? & ? & ?)
    | destruct Hnew2 as (ca & caKey & ? & ? & ? & ? & ?)
    | destruct Hnew3 as (ca & caKey & ? & ? & ? & ? & ?) ];
    try (frame_back; exact Habs);
    eexists _, ca, caKey; (split; [eassumption|]);
    frame_back; auto.
  - intros Hpres.
    destruct s; simpl in *; frame_back;
    [ destruct Hold as [-> ->] | destruct Hold0 as [-> ->]
    | destruct Hold1 as [-> ->] | destruct Hold2 as [-> ->]
    | destruct Hold3 as [-> ->] ];
    try (frame_back; exact Hpres); by frame_back.
Qed.

End Bootstrap.

(** ** After a success the guard is armed *)

Section Guard.
Context (E : Env).

Lemma bootstrap_guard_trips b c w :
  is_Some (fs w !! NodeCertPath (MakeLocator E (SSLCertsDir c))) →
  InitializeFromConfig E b c w = (Ret (b, Some AlreadyInitialized), w).
Proof.
  intros [ent H]. unfold InitializeFromConfig.
  by rewrite (bind_eq _ _ _ _ _ (FileExists_present _ _ _ H)).
Qed.

Lemma receive_guard_trips b c w :
  is_Some (fs w !! NodeCertPath (MakeLocator E (SSLCertsDir c))) →
  InitializeNodeFromBundle E b c w = (Ret (b, Some AlreadyInitialized), w).
Proof.
  intros [ent H]. unfold InitializeNodeFromBundle.
  by rewrite (bind_eq _ _ _ _ _ (FileExists_present _ _ _ H)).
Qed.

Lemma run_world {A} (m : M A) w r w' : m w = (r, w') → w' = (m w).2.
Proof. by intros ->. Qed.

Lemma issueServiceCert_success_present sb certPath keyPath life cn hosts dual
    w sb' w' :
  issueServiceCert E sb certPath keyPath life cn hosts dual w
  = (Ret (sb', None), w') →
  is_Some (fs w' !! certPath).
Proof.
  unfold issueServiceCert.
  destruct (PEMToCertificates E _) as [?|cas]; [discriminate|].
  destruct (pemDecode E _) as [[caKey|] rest]; [|discriminate].
  destruct (0 <? String.length rest)%nat; [discriminate|].
  destruct cas as [|ca0 cas]; [discriminate|].
  intros H. apply bind_inv in H as (r & w1 & _ & H).
  destruct r as [err|[hc hk]]; [discriminate H|].
  apply bind_inv in H as ([e|] & w2 & Hw1 & H); [discriminate H|].
  apply bind_inv in H as ([e|] & w3 & Hw2 & H); [discriminate H|].
  injection H as _ <-.
  assert (is_Some (fs w2 !! certPath)) as Hp.
  { revert Hw1. unfold writeCertificateFile, WritePEMToFile.
    destruct (fs w1 !! certPath) as [ent|]; [discriminate|].
    intros [= <-]. simpl. rewrite lookup_insert_eq. eauto. }
  revert Hw2. unfold writeKeyFile, WritePEMToFile.
  destruct (fs w2 !! keyPath) as [ent|]; [discriminate|].
  intros [= <-]. simpl.
  destruct (decide (keyPath = certPath)) as [->|Hne].
  - rewrite lookup_insert_eq. eauto.
  - by rewrite lookup_insert_ne.
Qed.

Lemma cascade_success_present sb certPath keyPath caCertPath caKeyPath
    certLife caLife cn sn hosts dual w sb' w' :
  loadOrCreateServiceCertificates E sb certPath keyPath caCertPath caKeyPath
    certLife caLife cn sn hosts dual w = (Ret (sb', None), w') →
  is_Some (fs w' !! certPath).
Proof.
  unfold loadOrCreateServiceCertificates, loadCertificateFile, loadKeyFile.
  intros H. apply bind_inv in H as ([cert err] & w1 & Hc & H).
  revert Hc. unfold ReadFile.
  destruct (fs w !! certPath) as [[data mode|why]|] eqn:Hcert;
    intros [= <- <- <-].
  - apply bind_inv in H as ([key err] & w1 & Hk & H).
    apply run_world in Hk. rewrite ReadFile_world in Hk. subst w1.
    destruct err as [e|]; [destruct (IsNotExist e); discriminate H|].
    injection H as _ <-. rewrite Hcert. eauto.
  - apply bind_inv in H as ([ca err] & w1 & _ & H).
    apply bind_inv in H as ([sb1 early] & w2 & _ & H).
    destruct early; [discriminate H|].
    by eapply issueServiceCert_success_present.
  - apply bind_inv in H as ([ca err] & w1 & _ & H).
    apply bind_inv in H as ([sb1 early] & w2 & _ & H).
    destruct early; [discriminate H|].
    by eapply issueServiceCert_success_present.
Qed.

(** A cascade run from [w] to [w'], as a frame. *)
Lemma cascade_run_issued F sb certPath keyPath caCertPath caKeyPath
    certLife caLife cn sn hosts dual w r w' :
  certPath ∈ F → keyPath ∈ F → caCertPath ∈ F → caKeyPath ∈ F →
  loadOrCreateServiceCertificates E sb certPath keyPath caCertPath caKeyPath
    certLife caLife cn sn hosts dual w = (r, w') →
  issued E F w w'.
Proof.
  intros H1 H2 H3 H4 Hrun. rewrite (run_world _ _ _ _ Hrun).
  apply loadOrCreate_issued; [done..|]. apply issued_refl.
Qed.

Lemma bootstrap_success_present b c w b1 w1 :
  InitializeFromConfig E b c w = (Ret (b1, None), w1) →
  is_Some (fs w1 !! NodeCertPath (MakeLocator E (SSLCertsDir c))).
Proof.
  unfold InitializeFromConfig. set (cl := MakeLocator E (SSLCertsDir c)).
  intros H. apply bind_inv in H as ([present err] & wa & _ & H).
  destruct err; [discriminate H|]. destruct present; [discriminate H|].
  apply bind_inv in H as (rpcAddrs & w2 & _ & H).
  apply bind_inv in H as (sqlAddrs & w3 & _ & H).
  apply bind_inv in H as (httpAddrs & w4 & _ & H).
  destruct (EnsureCertsDirectory E (SSLCertsDir c)); [discriminate H|].
  apply bind_inv in H as ([sb1 [e|]] & w5 & Hrun1 & H); [discriminate H|].
  apply cascade_success_present in Hrun1.
  apply bind_inv in H as ([sb2 [e|]] & w6 & Hrun2 & H); [discriminate H|].
  apply bind_inv in H as ([sb3 [e|]] & w7 & Hrun3 & H); [discriminate H|].
  apply bind_inv in H as ([sb4 [e|]] & w8 & Hrun4 & H); [discriminate H|].
  destruct httpAddrs as [|h0 hs]; [discriminate H|].
  apply bind_inv in H as ([sb5 [e|]] & w9 & Hrun5 & H); [discriminate H|].
  injection H as _ <-.
  apply (cascade_run_issued (paths cl)) in Hrun2, Hrun3, Hrun4, Hrun5;
    try (unfold paths, hostPaths, caPaths; simpl; path_in).
  eapply issued_present; [exact Hrun5|].
  eapply issued_present; [exact Hrun4|].
  eapply issued_present; [exact Hrun3|].
  eapply issued_present; [exact Hrun2|]. done.
Qed.

Lemma receive_success_present b c w b1 w1 :
  InitializeNodeFromBundle E b c w = (Ret (b1, None), w1) →
  is_Some (fs w1 !! NodeCertPath (MakeLocator E (SSLCertsDir c))).
Proof.
  unfold InitializeNodeFromBundle.
  intros H. apply bind_inv in H as ([present err] & wa & _ & H).
  destruct err; [discriminate H|]. destruct present; [discriminate H|].
  destruct (EnsureCertsDirectory E (SSLCertsDir c)); [discriminate H|].
  do 5 (apply bind_inv in H as ([e|] & ? & _ & H); [discriminate H|]).
  apply bind_inv in H as ([b2 [e|]] & w9 & Hrun & H); [discriminate H|].
  injection H as _ <-. by eapply bootstrap_success_present.
Qed.

End Guard.

(** ** The reference environment is well behaved *)

Lemma Ref_generator_ok : GeneratorOK Ref.env.
Proof.
  split.
  - intros. eexists _, _. reflexivity.
  - intros s life cn c k [= <- <-]. split; [exists []|]; reflexivity.
  - intros. eexists _, _. reflexivity.
Qed.

Lemma Ref_paths_NoDup : NoDup (paths (MakeLocator Ref.env "certs")).
Proof. apply (bool_decide_unpack _). vm_compute. exact I. Qed.

Lemma Ref_addresses_ok : Forall (wellFormed Ref.env) (addresses Ref.config).
Proof. repeat constructor; eexists _, _; vm_compute; reflexivity. Qed.

(** C2 (as amended).  On a certs directory without any of the twenty files,
    with a generator that succeeds and well-formed addresses, the first
    bootstrap succeeds; the second returns "inter-node certificate already
    present" and leaves the world of the first untouched: every file is
    byte-identical and nothing is opened for writing. *)
Theorem bootstrap_twice (E : Env) (b b' : CertificateBundle) (c : Config)
    (w0 : world) :
  GeneratorOK E →
  NoDup (paths (MakeLocator E (SSLCertsDir c))) →
  EnsureCertsDirectory E (SSLCertsDir c) = None →
  Forall (wellFormed E) (addresses c) →
  (∀ p, p ∈ paths (MakeLocator E (SSLCertsDir c)) → fs w0 !! p = None) →
  ∃ b1 w1,
    InitializeFromConfig E b c w0 = (Ret (b1, None), w1) ∧
    InitializeFromConfig E b' c w1 = (Ret (b', Some AlreadyInitialized), w1).
Proof.
  intros HG Hnd Hdir Haddr Hempty.
  destruct (bootstrap_ok E b c w0 HG Hnd Hdir Haddr) as (b1 & w1 & Hrun & Hall).
  - intros p Hp. apply Hempty. unfold paths. apply elem_of_app. by left.
  - intros s. left.
    split; apply Hempty; unfold paths; apply elem_of_app; right;
      destruct s; unfold caPaths; simpl; path_in.
  - exists b1, w1. split; [done|]. apply bootstrap_guard_trips.
    apply (Hall SInterNode).
Qed.

Lemma bootstrap_twice_witness :
  ∃ b1 w1,
    InitializeFromConfig Ref.env emptyCB Ref.config Ref.emptyWorld
    = (Ret (b1, None), w1) ∧
    InitializeFromConfig Ref.env emptyCB Ref.config w1
    = (Ret (emptyCB, Some AlreadyInitialized), w1).
Proof.
  apply (bootstrap_twice Ref.env emptyCB emptyCB Ref.config Ref.emptyWorld
           Ref_generator_ok Ref_paths_NoDup eq_refl Ref_addresses_ok).
  intros p _. reflexivity.
Defined.

(** C2 (as stated) fails: after a first successful bootstrap of the empty
    directory, the second bootstrap does not succeed. *)
Lemma bootstrap_twice_counterexample :
  (∃ b1, (InitializeFromConfig Ref.env emptyCB Ref.config Ref.emptyWorld).1
         = Ret (b1, None)) ∧
  ∀ b2 w2,
    InitializeFromConfig Ref.env emptyCB Ref.config
      (InitializeFromConfig Ref.env emptyCB Ref.config Ref.emptyWorld).2
    ≠ (Ret (b2, None), w2).
Proof.
  split.
  - eexists. vm_compute. reflexivity.
  - intros b2 w2 H. vm_compute in H. discriminate H.
Qed.

(** C4 (as amended).  After a successful bundle receive on a directory, a
    second receive on it, whatever the bundle, returns "inter-node
    certificate already present" from the guard, before the CA-write step,
    and leaves the world untouched. *)
Theorem receive_twice (E : Env) (b b' b1 : CertificateBundle) (c : Config)
    (w w1 : world) :
  InitializeNodeFromBundle E b c w = (Ret (b1, None), w1) →
  InitializeNodeFromBundle E b' c w1 = (Ret (b', Some AlreadyInitialized), w1).
Proof.
  intros H. apply receive_guard_trips. by eapply receive_success_present.
Qed.

Lemma receive_twice_witness :
  ∃ b1 w1,
    InitializeNodeFromBundle Ref.env Ref.bundle Ref.config Ref.emptyWorld
    = (Ret (b1, None), w1) ∧
    InitializeNodeFromBundle Ref.env Ref.bundle Ref.config w1
    = (Ret (Ref.bundle, Some AlreadyInitialized), w1).
Proof.
  assert (∃ b1 w1,
            InitializeNodeFromBundle Ref.env Ref.bundle Ref.config
              Ref.emptyWorld = (Ret (b1, None), w1)) as (b1 & w1 & H).
  { eexists _, _. vm_compute. reflexivity. }
  exists b1, w1. split; [exact H|].
  exact (receive_twice Ref.env Ref.bundle Ref.bundle b1 Ref.config
           Ref.emptyWorld w1 H).
Defined.

(** C4 (as stated) fails: the second receive does not reach the CA-write
    step; its error is not an already-exists error of a write. *)
Lemma receive_twice_counterexample :
  ∃ b1 w1 e,
    InitializeNodeFromBundle Ref.env Ref.bundle Ref.config Ref.emptyWorld
    = (Ret (b1, None), w1) ∧
    InitializeNodeFromBundle Ref.env Ref.bundle Ref.config w1
    = (Ret (Ref.bundle, Some e), w1) ∧
    isAlreadyExists e = false ∧ isAlreadyInitialized e = true.
Proof.
  eexists _, _, _. split; [vm_compute; reflexivity|].
  split; [vm_compute; reflexivity|]. split; reflexivity.
Qed.

(** ** Rotation *)

Section Rotation.
Context (E : Env).

Lemma WritePEMToFile_success p mode ow b w w' :
  WritePEMToFile E p mode ow (Some b) w = (Ret None, w') →
  ∃ m, w' = World (<[p := Regular (pemEncodeToMemory E b) m]> (fs w))
                  (p :: trace w) (seed w).
Proof.
  unfold WritePEMToFile.
  destruct (fs w !! p) as [[d m|why]|];
    [destruct ow; [destruct (ownerMayWrite m)|]|destruct ow|];
    intros [= <-]; eauto.
Qed.

Lemma rotateServiceCert_success sb certPath keyPath life cn svc hosts dual
    w w' :
  rotateServiceCert E sb certPath keyPath life cn svc hosts dual w
  = (Ret None, w') →
  touched E w w' certPath ∧ touched E w w' keyPath.
Proof.
  unfold rotateServiceCert.
  destruct (PEMToCertificates E _) as [?|cas]; [discriminate|].
  destruct (pemDecode E _) as [[caKey|] rest]; [|discriminate].
  destruct (0 <? String.length rest)%nat; [discriminate|].
  destruct cas as [|ca0 cas]; [discriminate|].
  intros H. apply bind_inv in H as (r & w1 & Hgen & H).
  unfold genServiceCert in Hgen. injection Hgen as <- <-.
  destruct (CreateServiceCertAndKey E (seed w) life cn hosts ca0 caKey dual)
    as [err|[c k]] eqn:Hgen; [discriminate H|].
  destruct (generated_leaf E _ _ _ _ _ _ _ _ _ Hgen) as [Hgc Hgk].
  apply bind_inv in H as ([e|] & w2 & Hs1 & H); [discriminate H|].
  apply run_world in Hs1. rewrite Stat_world in Hs1. subst w2.
  apply bind_inv in H as ([e|] & w3 & Hw1 & H); [discriminate H|].
  apply WritePEMToFile_success in Hw1 as [m1 ->].
  apply bind_inv in H as ([e|] & w4 & Hs2 & H); [discriminate H|].
  apply run_world in Hs2. rewrite Stat_world in Hs2. subst w4.
  apply bind_inv in H as ([e|] & w5 & Hw2 & H); [discriminate H|].
  apply WritePEMToFile_success in Hw2 as [m2 ->].
  injection H as <-. simpl. unfold touched. simpl. split.
  - destruct (decide (keyPath = certPath)) as [->|Hne].
    + exists (seed w), (pemEncodeToMemory E k), m2.
      rewrite lookup_insert_eq. split; [lia|done].
    + exists (seed w), (pemEncodeToMemory E c), m1.
      rewrite lookup_insert_ne, lookup_insert_eq by done. split; [lia|done].
  - exists (seed w), (pemEncodeToMemory E k), m2.
    rewrite lookup_insert_eq. split; [lia|done].
Qed.

(** One slot of the rotation: skipped when no CA certificate was
    collected, rotated otherwise. *)
Lemma rotate_step (ca : option string) (m : M (option error)) certPath keyPath
    w w' :
  (∀ w w', m w = (Ret None, w') →
     touched E w w' certPath ∧ touched E w w' keyPath) →
  preserves (issued E [certPath; keyPath] w) m →
  (match ca with Some _ => m | None => ret None end) w = (Ret None, w') →
  issued E [certPath; keyPath] w w' ∧
  (is_Some ca → touched E w w' certPath ∧ touched E w w' keyPath).
Proof.
  intros Hm Hpres Hrun. split.
  - rewrite (run_world _ _ _ _ Hrun). destruct ca; [|apply issued_refl].
    apply Hpres, issued_refl.
  - intros [x ->]. by apply Hm.
Qed.

Lemma loadCACertAndKeyIfExists_ok sb certPath keyPath w sb' w' :
  loadCACertAndKeyIfExists sb certPath keyPath w = (Ret (sb', None), w') →
  w' = w ∧ (is_Some (fs w !! certPath) → is_Some (CACertificate sb')).
Proof.
  unfold loadCACertAndKeyIfExists, loadCACertAndKey, loadCertificateFile,
    loadKeyFile, bind, ReadFile.
  destruct (fs w !! certPath) as [[data mode|why]|] eqn:Hc; simpl.
  - destruct (fs w !! keyPath) as [[kd km|kwhy]|]; simpl.
    + intros [= <- <-]. simpl. eauto.
    + destruct (IsNotExist _); intros [= <- <-]; simpl; eauto.
    + intros [= <- <-]. simpl. eauto.
  - destruct (IsNotExist _) eqn:Hne; [|discriminate].
    intros [= <- <-]. split; [done|]. intros _.
    destruct why; discriminate Hne.
  - intros [= <- <-]. split; [done|]. by intros [? [=]].
Qed.

Lemma collectLocalCABundle_ok dir w b w' :
  collectLocalCABundle E dir w = (Ret (b, None), w') →
  w' = w ∧
  ∀ s, is_Some (fs w !! caCertPath (MakeLocator E dir) s) →
       is_Some (CACertificate (getSlot b s)).
Proof.
  unfold collectLocalCABundle. intros H.
  apply bind_inv in H as ([sb1 [e|]] & w1 & H1 & H); [discriminate H|].
  apply loadCACertAndKeyIfExists_ok in H1 as [-> H1].
  apply bind_inv in H as ([sb2 [e|]] & w2 & H2 & H); [discriminate H|].
  apply loadCACertAndKeyIfExists_ok in H2 as [-> H2].
  apply bind_inv in H as ([sb3 [e|]] & w3 & H3 & H); [discriminate H|].
  apply loadCACertAndKeyIfExists_ok in H3 as [-> H3].
  apply bind_inv in H as ([sb4 [e|]] & w4 & H4 & H); [discriminate H|].
  apply loadCACertAndKeyIfExists_ok in H4 as [-> H4].
  apply bind_inv in H as ([sb5 [e|]] & w5 & H5 & H); [discriminate H|].
  apply loadCACertAndKeyIfExists_ok in H5 as [-> H5].
  injection H as <- <-. split; [done|]. intros s; destruct s; simpl; auto.
Qed.

Lemma touched_between F F' w0 wa wb w p :
  issued E F w0 wa → touched E wa wb p → issued E F' wb w →
  touched E w0 w p.
Proof.
  intros [Hle _] Ht Hw. eapply touched_carry; [exact Ht | exact Hle | exact Hw].
Qed.

Lemma lift_world {A} (r : outcome A) w a w' :
  lift r w = (Ret a, w') → w' = w.
Proof. by intros [= _ <-]. Qed.

Lemma rotate_touches c w1 w2 :
  rotateGeneratedCerts E c w1 = (Ret None, w2) →
  ∀ s, is_Some (fs w1 !! caCertPath (MakeLocator E (SSLCertsDir c)) s) →
       touched E w1 w2 (hostCertPath (MakeLocator E (SSLCertsDir c)) s) ∧
       touched E w1 w2 (hostKeyPath (MakeLocator E (SSLCertsDir c)) s).
Proof.
  unfold rotateGeneratedCerts. set (cl := MakeLocator E (SSLCertsDir c)).
  intros H. apply bind_inv in H as ([b [e|]] & wa & Hcol & H);
    [discriminate H|].
  apply collectLocalCABundle_ok in Hcol as [-> Hcol]. fold cl in Hcol.
  apply bind_inv in H as (rpcAddrs & wb & Hl & H).
  apply lift_world in Hl as ->.
  apply bind_inv in H as (sqlAddrs & wb & Hl & H).
  assert (wb = w1) as ->.
  { destruct (SplitListenSQL c); [by eapply lift_world|].
    by injection Hl as _ <-. }
  clear Hl.
  apply bind_inv in H as (httpAddrs & wb & Hl & H).
  apply lift_world in Hl as ->.
  apply bind_inv in H as ([e|] & wa & S1 & H); [discriminate H|].
  apply (rotate_step _ _ (NodeCertPath cl) (NodeKeyPath cl)) in S1 as [F1 T1];
    [|apply rotateServiceCert_success
     |apply rotateServiceCert_issued; path_in].
  apply bind_inv in H as ([e|] & wb & S2 & H); [discriminate H|].
  apply (rotate_step _ _ (ClientNodeCertPath cl) (ClientNodeKeyPath cl)) in S2 as [F2 T2];
    [|apply rotateServiceCert_success
     |apply rotateServiceCert_issued; path_in].
  apply bind_inv in H as ([e|] & wc & S3 & H); [discriminate H|].
  apply (rotate_step _ _ (SQLServiceCertPath cl) (SQLServiceKeyPath cl)) in S3 as [F3 T3];
    [|apply rotateServiceCert_success
     |apply rotateServiceCert_issued; path_in].
  apply bind_inv in H as ([e|] & wd & S4 & H); [discriminate H|].
  apply (rotate_step _ _ (RPCServiceCertPath cl) (RPCServiceKeyPath cl)) in S4 as [F4 T4];
    [|apply rotateServiceCert_success
     |apply rotateServiceCert_issued; path_in].
  apply bind_inv in H as ([e|] & we & S5 & H); [discriminate H|].
  injection H as <-.
  assert (issued E [UICertPath cl; UIKeyPath cl] wd we ∧
          (is_Some (CACertificate (AdminUIService b)) →
           touched E wd we (UICertPath cl) ∧ touched E wd we (UIKeyPath cl)))
    as [F5 T5].
  { destruct httpAddrs as [|h0 hs].
    - destruct (CACertificate (AdminUIService b)); [discriminate S5|].
      injection S5 as <-. split; [apply issued_refl | by intros [? [=]]].
    - apply (rotate_step _ _ (UICertPath cl) (UIKeyPath cl)) in S5;
        [done | apply rotateServiceCert_success
        | apply rotateServiceCert_issued; path_in]. }
  pose proof (issued_refl E (hostPaths cl) we) as G5.
  assert (issued E (hostPaths cl) wd we) as G4
    by (eapply issued_weaken; [|exact F5]; unfold hostPaths; set_solver).
  assert (issued E (hostPaths cl) wc we) as G3.
  { eapply issued_trans; [|exact G4].
    eapply issued_weaken; [|exact F4]. unfold hostPaths; set_solver. }
  assert (issued E (hostPaths cl) wb we) as G2.
  { eapply issued_trans; [|exact G3].
    eapply issued_weaken; [|exact F3]. unfold hostPaths; set_solver. }
  assert (issued E (hostPaths cl) wa we) as G1.
  { eapply issued_trans; [|exact G2].
    eapply issued_weaken; [|exact F2]. unfold hostPaths; set_solver. }
  pose proof (issued_refl E [NodeCertPath cl; NodeKeyPath cl] w1) as P0.
  assert (issued E (hostPaths cl) w1 wa) as P1
    by (eapply issued_weaken; [|exact F1]; unfold hostPaths; set_solver).
  assert (issued E (hostPaths cl) w1 wb) as P2.
  { eapply issued_trans; [exact P1|].
    eapply issued_weaken; [|exact F2]. unfold hostPaths; set_solver. }
  assert (issued E (hostPaths cl) w1 wc) as P3.
  { eapply issued_trans; [exact P2|].
    eapply issued_weaken; [|exact F3]. unfold hostPaths; set_solver. }
  assert (issued E (hostPaths cl) w1 wd) as P4.
  { eapply issued_trans; [exact P3|].
    eapply issued_weaken; [|exact F4]. unfold hostPaths; set_solver. }
  intros s Hs. apply Hcol in Hs.
  destruct s; simpl in *.
  - destruct (T1 Hs) as [A B].
    split; [exact (touched_between _ _ _ _ _ _ _ P0 A G1)
           |exact (touched_between _ _ _ _ _ _ _ P0 B G1)].
  - destruct (T2 Hs) as [A B].
    split; [exact (touched_between _ _ _ _ _ _ _ P1 A G2)
           |exact (touched_between _ _ _ _ _ _ _ P1 B G2)].
  - destruct (T3 Hs) as [A B].
    split; [exact (touched_between _ _ _ _ _ _ _ P2 A G3)
           |exact (touched_between _ _ _ _ _ _ _ P2 B G3)].
  - destruct (T4 Hs) as [A B].
    split; [exact (touched_between _ _ _ _ _ _ _ P3 A G4)
           |exact (touched_between _ _ _ _ _ _ _ P3 B G4)].
  - destruct (T5 Hs) as [A B].
    split; [exact (touched_between _ _ _ _ _ _ _ P4 A G5)
           |exact (touched_between _ _ _ _ _ _ _ P4 B G5)].
Qed.

Lemma touched_changes w1 w2 p :
  Fresh E w1 → touched E w1 w2 p →
  is_Some (fileBytes w2 p) ∧ fileBytes w2 p ≠ fileBytes w1 p.
Proof.
  intros Hfresh (s & data & mode & Hs & Hg & Hp). unfold fileBytes.
  rewrite Hp. split; [eauto|].
  destruct (fs w1 !! p) as [[d m|why]|] eqn:Hp1; [|done..].
  intros [= ->]. eapply Hfresh; [exact Hp1 | | exact Hg]. lia.
Qed.

End Rotation.

(** C6.  Take a world whose files hold nothing that the generator will
    produce later, bootstrap it successfully, then rotate successfully.
    For every slot the CA certificate file and the CA key file are what
    they were before the rotation; and for every slot whose CA certificate
    file was there, the host certificate file and the host key file hold
    bytes that differ from those before the rotation. *)
Theorem rotation_replaces_leaves_keeps_cas (E : Env) (b b1 : CertificateBundle)
    (c : Config) (w0 w1 w2 : world) :
  DrawsDistinct E →
  NoDup (paths (MakeLocator E (SSLCertsDir c))) →
  Fresh E w0 →
  InitializeFromConfig E b c w0 = (Ret (b1, None), w1) →
  rotateGeneratedCerts E c w1 = (Ret None, w2) →
  ∀ s : slot,
    fs w2 !! caCertPath (MakeLocator E (SSLCertsDir c)) s
    = fs w1 !! caCertPath (MakeLocator E (SSLCertsDir c)) s ∧
    fs w2 !! caKeyPath (MakeLocator E (SSLCertsDir c)) s
    = fs w1 !! caKeyPath (MakeLocator E (SSLCertsDir c)) s ∧
    (is_Some (fs w1 !! caCertPath (MakeLocator E (SSLCertsDir c)) s) →
     (is_Some (fileBytes w2 (hostCertPath (MakeLocator E (SSLCertsDir c)) s)) ∧
      fileBytes w2 (hostCertPath (MakeLocator E (SSLCertsDir c)) s)
      ≠ fileBytes w1 (hostCertPath (MakeLocator E (SSLCertsDir c)) s)) ∧
     (is_Some (fileBytes w2 (hostKeyPath (MakeLocator E (SSLCertsDir c)) s)) ∧
      fileBytes w2 (hostKeyPath (MakeLocator E (SSLCertsDir c)) s)
      ≠ fileBytes w1 (hostKeyPath (MakeLocator E (SSLCertsDir c)) s))).
Proof.
  intros Hinj Hnd Hfresh Hboot Hrot.
  set (cl := MakeLocator E (SSLCertsDir c)) in *.
  assert (Fresh E w1) as Hfresh1.
  { eapply issued_Fresh; [exact Hinj | exact Hfresh |].
    rewrite (run_world _ _ _ _ Hboot).
    apply InitializeFromConfig_issued, issued_refl. }
  assert (issued E (hostPaths cl) w1 w2) as Hiss.
  { rewrite (run_world _ _ _ _ Hrot).
    apply rotateGeneratedCerts_issued, issued_refl. }
  intros s. split; [|split].
  - eapply issued_frame; [exact Hiss|].
    destruct s; unfold hostPaths; simpl; path_notin.
  - eapply issued_frame; [exact Hiss|].
    destruct s; unfold hostPaths; simpl; path_notin.
  - intros Hca. destruct (rotate_touches E c w1 w2 Hrot s Hca) as [Hc Hk].
    split; by apply (touched_changes E).
Qed.

(** ** The reference generator never repeats itself *)

Lemma serial_inj n n' x y :
  Ref.serial n +:+ x = Ref.serial n' +:+ y → n = n'.
Proof.
  revert n'. induction n as [|n IH]; intros [|n']; simpl; try done.
  intros [= H]. f_equal. by apply IH.
Qed.

Lemma Ref_draws_distinct : DrawsDistinct Ref.env.
Proof.
  intros s s' data G1 G2.
  destruct G1 as [(l1 & cn1 & c1 & k1 & E1 & D1)
                 |(l1 & cn1 & h1 & a1 & ak1 & d1 & c1 & k1 & E1 & D1)];
  destruct G2 as [(l2 & cn2 & c2 & k2 & E2 & D2)
                 |(l2 & cn2 & h2 & a2 & ak2 & d2 & c2 & k2 & E2 & D2)];
  injection E1 as <- <-; injection E2 as <- <-;
  destruct D1 as [->| ->]; destruct D2 as [D2|D2];
  simpl in D2; try discriminate D2; injection D2 as D2;
  by apply serial_inj in D2.
Qed.

Lemma Ref_fresh : Fresh Ref.env Ref.emptyWorld.
Proof. intros p data mode s H. simpl in H. by rewrite lookup_empty in H. Qed.

Lemma rotation_replaces_leaves_keeps_cas_witness :
  ∃ b1,
    InitializeFromConfig Ref.env emptyCB Ref.config Ref.emptyWorld
    = (Ret (b1, None), Ref.bootstrapped.2) ∧
    rotateGeneratedCerts Ref.env Ref.config Ref.bootstrapped.2
    = (Ret None, Ref.rotated.2) ∧
    fs Ref.rotated.2 !! "certs/ca.crt" = fs Ref.bootstrapped.2 !! "certs/ca.crt" ∧
    fileBytes Ref.rotated.2 "certs/node.crt"
    ≠ fileBytes Ref.bootstrapped.2 "certs/node.crt".
Proof.
  assert (∃ b1, Ref.bootstrapped = (Ret (b1, None), Ref.bootstrapped.2))
    as [b1 H1] by (eexists; vm_compute; reflexivity).
  assert (Ref.rotated = (Ret None, Ref.rotated.2)) as H2
    by (vm_compute; reflexivity).
  exists b1. split; [exact H1|]. split; [exact H2|].
  pose proof (rotation_replaces_leaves_keeps_cas Ref.env emptyCB b1
                Ref.config Ref.emptyWorld Ref.bootstrapped.2 Ref.rotated.2
                Ref_draws_distinct Ref_paths_NoDup Ref_fresh H1 H2 SInterNode)
    as (Hca & _ & Hleaf).
  split; [exact Hca|]. apply Hleaf. vm_compute. eauto.
Defined.

(** ** Receiving a bundle with a missing CA *)

Ltac frame_back_all :=
  repeat match goal with
  | H : issued ?E ?F ?wa ?wb |- context [fs ?wb !! ?p] =>
      rewrite (issued_frame E F wa wb p H) by path_notin
  | H : unchangedOutside ?F ?wa ?wb |- context [fs ?wb !! ?p] =>
      rewrite (H p) by path_notin
  end.

Section Receive.
Context (E : Env).

Lemma writeCAOrFail_nil sb certPath keyPath w :
  CACertificate sb = None → CAKey sb = None →
  writeCAOrFail E sb certPath keyPath w = (Ret None, w).
Proof.
  intros Hc Hk. unfold writeCAOrFail. rewrite Hc, Hk.
  by destruct (pemDecode E (bytesOf None)).
Qed.

Lemma writeCAOrFail_ok sb certPath keyPath w :
  suppliedOrNil E sb →
  fs w !! certPath = None → fs w !! keyPath = None → certPath ≠ keyPath →
  ∃ w',
    writeCAOrFail E sb certPath keyPath w = (Ret None, w') ∧
    unchangedOutside [certPath; keyPath] w w' ∧
    caReady E w' certPath keyPath ∧
    (CACertificate sb = None → fs w' !! certPath = None).
Proof.
  intros [[Hc Hk]|(cert & key & cb & cr & kb & kr & ca0 & cas & caKey &
                   Hc & Hk & Hdc & Hdk & Hpem & Hdec)] Hcp Hkp Hne.
  - exists w. split; [by apply writeCAOrFail_nil|].
    split; [done|]. split; [by left | done].
  - unfold writeCAOrFail. rewrite Hc, Hk. simpl. rewrite Hdc, Hdk.
    unfold writeCertificateFile, writeKeyFile.
    erewrite bind_eq; [|by apply WritePEMToFile_new]. cbv beta iota.
    rewrite WritePEMToFile_new by (simpl; by rewrite lookup_insert_ne).
    eexists. split; [reflexivity|]. simpl. split; [|split].
    + intros p Hp. simpl.
      apply not_elem_of_cons in Hp as [? Hp].
      apply not_elem_of_cons in Hp as [? _].
      by rewrite !lookup_insert_ne.
    + right. exists (pemEncodeToMemory E cb), mode0644,
        (pemEncodeToMemory E kb), mode0600, ca0, cas, caKey. simpl.
      rewrite lookup_insert_ne, !lookup_insert_eq by done. done.
    + intros [=].
Qed.

End Receive.

(** C10.  Take a slot of a received bundle whose CA certificate and CA key
    are both nil.  For that slot [writeCAOrFail] returns success and leaves
    the world as it is.  And when the bundle is received into a directory
    without any of the twenty files, the other slots being nil or decodable
    pairs, [InitializeNodeFromBundle] succeeds, and the CA files of the slot
    hold a CA created by the generator during the bootstrap. *)
Theorem receive_nil_ca_creates_local_ca (E : Env) (b : CertificateBundle)
    (c : Config) (w : world) (s : slot) :
  GeneratorOK E →
  NoDup (paths (MakeLocator E (SSLCertsDir c))) →
  EnsureCertsDirectory E (SSLCertsDir c) = None →
  Forall (wellFormed E) (addresses c) →
  (∀ p, p ∈ paths (MakeLocator E (SSLCertsDir c)) → fs w !! p = None) →
  (∀ s', suppliedOrNil E (getSlot b s')) →
  CACertificate (getSlot b s) = None → CAKey (getSlot b s) = None →
  (∀ certPath keyPath w',
     writeCAOrFail E (getSlot b s) certPath keyPath w' = (Ret None, w')) ∧
  ∃ b1 w1 n ca caKey,
    InitializeNodeFromBundle E b c w = (Ret (b1, None), w1) ∧
    CreateCACertAndKey E n defaultCALifetime (caCommonName E)
    = inr (ca, caKey) ∧
    fs w1 !! caCertPath (MakeLocator E (SSLCertsDir c)) s
    = Some (Regular (pemEncodeToMemory E ca) mode0644) ∧
    fs w1 !! caKeyPath (MakeLocator E (SSLCertsDir c)) s
    = Some (Regular (pemEncodeToMemory E caKey) mode0600) ∧
    CACertificate (getSlot b1 s) = Some (pemEncodeToMemory E ca).
Proof.
  intros HG Hnd Hdir Haddr Hempty Hsup Hnilc Hnilk.
  split; [intros; by apply writeCAOrFail_nil|].
  set (cl := MakeLocator E (SSLCertsDir c)) in *.
  assert (∀ p, p ∈ paths cl → fs w !! p = None) as Hempty' by done.
  unfold paths, hostPaths, caPaths in Hempty'. simpl in Hempty'.
  unfold InitializeNodeFromBundle. fold cl.
  erewrite bind_eq; [|apply FileExists_absent, Hempty'; path_in].
  cbv beta iota. rewrite Hdir.
  destruct (writeCAOrFail_ok E (InterNode b) (CACertPath cl) (CAKeyPath cl) w
              (Hsup SInterNode))
    as (w1 & R1 & U1 & C1 & N1);
    [apply Hempty'; path_in | apply Hempty'; path_in | path_ne |].
  erewrite bind_eq; [|exact R1]. cbv beta iota.
  destruct (writeCAOrFail_ok E (UserAuth b) (ClientCACertPath cl)
              (ClientCAKeyPath cl) w1 (Hsup SUserAuth))
    as (w2 & R2 & U2 & C2 & N2);
    [frame_back_all; apply Hempty'; path_in
    |frame_back_all; apply Hempty'; path_in | path_ne |].
  erewrite bind_eq; [|exact R2]. cbv beta iota.
  destruct (writeCAOrFail_ok E (SQLService b) (SQLServiceCACertPath cl)
              (SQLServiceCAKeyPath cl) w2 (Hsup SSQLService))
    as (w3 & R3 & U3 & C3 & N3);
    [frame_back_all; apply Hempty'; path_in
    |frame_back_all; apply Hempty'; path_in | path_ne |].
  erewrite bind_eq; [|exact R3]. cbv beta iota.
  destruct (writeCAOrFail_ok E (RPCService b) (RPCServiceCACertPath cl)
              (RPCServiceCAKeyPath cl) w3 (Hsup SRPCService))
    as (w4 & R4 & U4 & C4 & N4);
    [frame_back_all; apply Hempty'; path_in
    |frame_back_all; apply Hempty'; path_in | path_ne |].
  erewrite bind_eq; [|exact R4]. cbv beta iota.
  destruct (writeCAOrFail_ok E (AdminUIService b) (UICACertPath cl)
              (UICAKeyPath cl) w4 (Hsup SAdminUI))
    as (w5 & R5 & U5 & C5 & N5);
    [frame_back_all; apply Hempty'; path_in
    |frame_back_all; apply Hempty'; path_in | path_ne |].
  erewrite bind_eq; [|exact R5]. cbv beta iota.
  destruct (bootstrap_ok E b c w5 HG Hnd Hdir Haddr)
    as (b1 & w6 & Hrun & Hall).
  { intros p Hp. unfold hostPaths in Hp. fold cl in Hp.
    repeat (apply elem_of_cons in Hp as [->|Hp]);
      try (by apply elem_of_nil in Hp);
      frame_back_all; apply Hempty'; path_in. }
  { fold cl. intros s'; destruct s'; simpl;
      [ eapply caReady_frame; [| |exact C1]
      | eapply caReady_frame; [| |exact C2]
      | eapply caReady_frame; [| |exact C3]
      | eapply caReady_frame; [| |exact C4]
      | eapply caReady_frame; [| |exact C5] ];
      frame_back_all; reflexivity. }
  erewrite bind_eq; [|exact Hrun]. cbv beta iota.
  destruct (Hall s) as (_ & _ & Hnew & _). fold cl in Hnew.
  destruct Hnew as (n & ca & caKey & Hgen & Hf1 & Hf2 & Hmem).
  { destruct s; simpl in *; frame_back_all; auto. }
  exists b1, w6, n, ca, caKey. done.
Qed.

Lemma Ref_bundle_supplied s :
  suppliedOrNil Ref.env (getSlot Ref.bundleWithoutSQL s).
Proof.
  destruct s; simpl; [right|right|left|right|right];
    try (split; reflexivity);
    unfold Ref.suppliedCA; eexists _, _, _, _, _, _, _, _, _;
    repeat split; reflexivity.
Qed.

Lemma receive_nil_ca_creates_local_ca_witness :
  ∃ b1 w1 n ca caKey,
    InitializeNodeFromBundle Ref.env Ref.bundleWithoutSQL Ref.config
      Ref.emptyWorld = (Ret (b1, None), w1) ∧
    CreateCACertAndKey Ref.env n defaultCALifetime (caCommonName Ref.env)
    = inr (ca, caKey) ∧
    fs w1 !! "certs/service.ca.sql.crt"
    = Some (Regular (pemEncodeToMemory Ref.env ca) mode0644) ∧
    fs w1 !! "certs/service.ca.sql.key"
    = Some (Regular (pemEncodeToMemory Ref.env caKey) mode0600) ∧
    CACertificate (SQLService b1) = Some (pemEncodeToMemory Ref.env ca).
Proof.
  exact (proj2 (receive_nil_ca_creates_local_ca Ref.env Ref.bundleWithoutSQL
                  Ref.config Ref.emptyWorld SSQLService
                  Ref_generator_ok Ref_paths_NoDup eq_refl Ref_addresses_ok
                  (λ p _, eq_refl) Ref_bundle_supplied eq_refl eq_refl)).
Defined.

(** * Further properties of the certificate workflows *)

(** ** Write-once creation *)

Section WriteOnce.
Context (E : Env).

Lemma created_refl certs keys w : created certs keys w w.
Proof. intros p. by left. Qed.

Lemma created_same certs keys w0 w t n :
  created certs keys w0 w → created certs keys w0 (World (fs w) t n).
Proof. done. Qed.

Lemma WritePEMToFile_created certs keys w0 p mode blk :
  (p ∈ certs ∧ mode = mode0644) ∨ (p ∈ keys ∧ mode = mode0600) →
  preserves (created certs keys w0) (WritePEMToFile E p mode false blk).
Proof.
  intros Hp w Hw. unfold WritePEMToFile.
  destruct (fs w !! p) as [ent|] eqn:Hlook; [done|].
  assert (fs w0 !! p = None) as Hp0.
  { destruct (Hw p) as [<-|[? _]]; done. }
  assert (∀ data t,
            created certs keys w0
              (World (<[p := Regular data mode]> (fs w)) t (seed w))) as Hnew.
  { intros data t q. simpl. destruct (decide (p = q)) as [<-|Hne].
    - right. split; [done|]. exists data. rewrite lookup_insert_eq.
      destruct Hp as [[? ->]|[? ->]]; [left | right]; done.
    - rewrite lookup_insert_ne by done. apply Hw. }
  destruct blk; simpl; apply Hnew.
Qed.

Lemma genCA_created certs keys w0 life cn :
  preserves (created certs keys w0) (genCA E life cn).
Proof. by intros w Hw. Qed.

Lemma genServiceCert_created certs keys w0 life cn hosts ca cak dual :
  preserves (created certs keys w0) (genServiceCert E life cn hosts ca cak dual).
Proof. by intros w Hw. Qed.

Lemma createServiceCA_created certs keys w0 sb caCertPath caKeyPath life :
  caCertPath ∈ certs → caKeyPath ∈ keys →
  preserves (created certs keys w0)
    (createServiceCA E sb caCertPath caKeyPath life).
Proof.
  intros Hc Hk. unfold createServiceCA, writeCertificateFile, writeKeyFile.
  repeat first [ apply genCA_created
               | apply WritePEMToFile_created; auto
               | preserves_step ].
Qed.

Lemma issueServiceCert_created certs keys w0 sb certPath keyPath life cn
    hosts dual :
  certPath ∈ certs → keyPath ∈ keys →
  preserves (created certs keys w0)
    (issueServiceCert E sb certPath keyPath life cn hosts dual).
Proof.
  intros Hc Hk. unfold issueServiceCert, writeCertificateFile, writeKeyFile.
  repeat first [ apply genServiceCert_created
               | apply WritePEMToFile_created; auto
               | preserves_step ].
Qed.

Lemma loadOrCreate_created certs keys w0 sb certPath keyPath caCertPath
    caKeyPath certLife caLife cn sn hosts dual :
  certPath ∈ certs → keyPath ∈ keys → caCertPath ∈ certs → caKeyPath ∈ keys →
  preserves (created certs keys w0)
    (loadOrCreateServiceCertificates E sb certPath keyPath caCertPath
       caKeyPath certLife caLife cn sn hosts dual).
Proof.
  intros H1 H2 H3 H4.
  unfold loadOrCreateServiceCertificates, loadCertificateFile, loadKeyFile.
  repeat first [ by apply createServiceCA_created
               | by apply issueServiceCert_created
               | preserves_step ].
Qed.

Lemma InitializeFromConfig_created w0 b c :
  preserves (created (certPaths (MakeLocator E (SSLCertsDir c)))
                     (keyPaths (MakeLocator E (SSLCertsDir c))) w0)
    (InitializeFromConfig E b c).
Proof.
  unfold InitializeFromConfig, FileExists, indexPanic.
  repeat first
    [ apply loadOrCreate_created; unfold certPaths, keyPaths; path_in
    | preserves_step ].
Qed.

Lemma writeCAOrFail_created certs keys w0 sb certPath keyPath :
  certPath ∈ certs → keyPath ∈ keys →
  preserves (created certs keys w0) (writeCAOrFail E sb certPath keyPath).
Proof.
  intros Hc Hk. unfold writeCAOrFail, writeCertificateFile, writeKeyFile.
  repeat first [ apply WritePEMToFile_created; auto | preserves_step ].
Qed.

Lemma InitializeNodeFromBundle_created w0 b c :
  preserves (created (certPaths (MakeLocator E (SSLCertsDir c)))
                     (keyPaths (MakeLocator E (SSLCertsDir c))) w0)
    (InitializeNodeFromBundle E b c).
Proof.
  unfold InitializeNodeFromBundle, FileExists.
  repeat first
    [ apply InitializeFromConfig_created
    | apply writeCAOrFail_created; unfold certPaths, keyPaths; path_in
    | preserves_step ].
Qed.

Lemma created_kept certs keys w0 w p ent :
  created certs keys w0 w → fs w0 !! p = Some ent → fs w !! p = Some ent.
Proof. intros H Hp. destruct (H p) as [->|[Hn _]]; congruence. Qed.

Lemma created_mode (cl : Locator) w0 w p data mode :
  NoDup (paths cl) →
  created (certPaths cl) (keyPaths cl) w0 w →
  fs w0 !! p = None → fs w !! p = Some (Regular data mode) →
  (p ∈ certPaths cl ∧ mode = mode0644) ∨ (p ∈ keyPaths cl ∧ mode = mode0600).
Proof.
  intros Hnd H Hp0 Hp.
  destruct (H p) as [Heq|[_ (d & [[Hin Hd]|[Hin Hd]])]].
  - congruence.
  - left. split; [done|]. congruence.
  - right. split; [done|]. congruence.
Qed.

End WriteOnce.

Lemma key_not_cert (cl : Locator) p :
  NoDup (paths cl) → p ∈ keyPaths cl → p ∈ certPaths cl → False.
Proof.
  intros Hnd Hk Hc. unfold keyPaths in Hk. unfold certPaths in Hc.
  repeat (apply elem_of_cons in Hk as [->|Hk]);
    try (by apply elem_of_nil in Hk);
    repeat (apply elem_of_cons in Hc as [Hc|Hc]);
    try (by apply elem_of_nil in Hc);
    revert Hc;
    match goal with |- ?a = ?b → False => change (a ≠ b) end; path_ne.
Qed.

(** X1.  Bootstrap and bundle receive never change or remove a file that is
    already there, whether they succeed, return an error or panic. *)
Theorem bootstrap_and_receive_never_overwrite (E : Env) (b : CertificateBundle)
    (c : Config) (w : world) (p : string) (ent : entry) :
  fs w !! p = Some ent →
  fs (InitializeFromConfig E b c w).2 !! p = Some ent ∧
  fs (InitializeNodeFromBundle E b c w).2 !! p = Some ent.
Proof.
  intros Hp. split.
  - eapply created_kept; [|exact Hp].
    apply InitializeFromConfig_created, created_refl.
  - eapply created_kept; [|exact Hp].
    apply InitializeNodeFromBundle_created, created_refl.
Qed.

Lemma bootstrap_and_receive_never_overwrite_witness :
  let w := World {[ "certs/ca.crt" := Regular "old" mode0600 ]} [] 0 in
  fs (InitializeFromConfig Ref.env emptyCB Ref.config w).2 !! "certs/ca.crt"
  = Some (Regular "old" mode0600) ∧
  fs (InitializeNodeFromBundle Ref.env Ref.bundle Ref.config w).2
    !! "certs/ca.crt" = Some (Regular "old" mode0600).
Proof.
  intros w.
  exact (bootstrap_and_receive_never_overwrite Ref.env _ Ref.config w
           "certs/ca.crt" (Regular "old" mode0600) eq_refl).
Defined.

(** X2.  With twenty distinct paths, a file that bootstrap or bundle receive
    creates has mode 0600 when it lies under a key path and mode 0644 when
    it lies under a certificate path, and it lies under one of them. *)
Theorem created_files_have_modes (E : Env) (b : CertificateBundle) (c : Config)
    (w w' : world) (p data : string) (mode : N) :
  NoDup (paths (MakeLocator E (SSLCertsDir c))) →
  w' = (InitializeFromConfig E b c w).2 ∨
  w' = (InitializeNodeFromBundle E b c w).2 →
  fs w !! p = None → fs w' !! p = Some (Regular data mode) →
  (p ∈ certPaths (MakeLocator E (SSLCertsDir c)) ∧ mode = mode0644
   ∧ p ∉ keyPaths (MakeLocator E (SSLCertsDir c)))
  ∨ (p ∈ keyPaths (MakeLocator E (SSLCertsDir c)) ∧ mode = mode0600
     ∧ p ∉ certPaths (MakeLocator E (SSLCertsDir c))).
Proof.
  intros Hnd Hw' Hp0 Hp.
  assert (created (certPaths (MakeLocator E (SSLCertsDir c)))
                  (keyPaths (MakeLocator E (SSLCertsDir c))) w w') as Hc.
  { destruct Hw' as [->| ->].
    - apply InitializeFromConfig_created, created_refl.
    - apply InitializeNodeFromBundle_created, created_refl. }
  destruct (created_mode _ _ _ _ _ _ Hnd Hc Hp0 Hp) as [[Hin ->]|[Hin ->]].
  - left. split; [done|]. split; [done|]. intros Hk.
    by eapply key_not_cert.
  - right. split; [done|]. split; [done|]. intros Hk.
    by eapply key_not_cert.
Qed.

Lemma created_files_have_modes_witness :
  ∃ data,
    fs Ref.bootstrapped.2 !! "certs/node.key" = Some (Regular data mode0600).
Proof.
  assert (∃ data mode,
            fs Ref.bootstrapped.2 !! "certs/node.key"
            = Some (Regular data mode)) as (data & mode & H)
    by (eexists _, _; vm_compute; reflexivity).
  exists data.
  destruct (created_files_have_modes Ref.env emptyCB Ref.config
              Ref.emptyWorld Ref.bootstrapped.2 "certs/node.key" data mode
              Ref_paths_NoDup (or_introl eq_refl) eq_refl H)
    as [(Hin & _ & Hnot)|(_ & -> & _)]; [|exact H].
  exfalso. apply Hnot. unfold keyPaths. simpl. apply list_elem_of_here.
Defined.

(** ** The host pair after a cascade *)

Section HostPair.
Context (E : Env).

Lemma WritePEMToFile_excl p mode b w w' :
  WritePEMToFile E p mode false (Some b) w = (Ret None, w') →
  fs w !! p = None ∧
  w' = World (<[p := Regular (pemEncodeToMemory E b) mode]> (fs w))
             (p :: trace w) (seed w).
Proof.
  unfold WritePEMToFile. destruct (fs w !! p); [discriminate|].
  by intros [= <-].
Qed.

Lemma issueServiceCert_success_pair sb certPath keyPath life cn hosts dual
    w sb' w' :
  issueServiceCert E sb certPath keyPath life cn hosts dual w
  = (Ret (sb', None), w') →
  ∃ cert key,
    fs w' !! certPath = Some (Regular cert mode0644) ∧
    fs w' !! keyPath = Some (Regular key mode0600) ∧
    HostCertificate sb' = Some cert ∧ HostKey sb' = Some key.
Proof.
  unfold issueServiceCert.
  destruct (PEMToCertificates E _) as [?|cas]; [discriminate|].
  destruct (pemDecode E _) as [[caKey|] rest]; [|discriminate].
  destruct (0 <? String.length rest)%nat; [discriminate|].
  destruct cas as [|ca0 cas]; [discriminate|].
  intros H. apply bind_inv in H as (r & w1 & _ & H).
  destruct r as [err|[hc hk]]; [discriminate H|].
  apply bind_inv in H as ([e|] & w2 & Hw1 & H); [discriminate H|].
  apply bind_inv in H as ([e|] & w3 & Hw2 & H); [discriminate H|].
  injection H as <- <-.
  apply WritePEMToFile_excl in Hw1 as [Hc ->].
  apply WritePEMToFile_excl in Hw2 as [Hk ->]. simpl in *.
  assert (certPath ≠ keyPath) as Hne.
  { intros ->. by rewrite lookup_insert_eq in Hk. }
  exists (pemEncodeToMemory E hc), (pemEncodeToMemory E hk).
  rewrite lookup_insert_ne, !lookup_insert_eq by done. done.
Qed.

Lemma cascade_success_pair sb certPath keyPath caCertPath caKeyPath
    certLife caLife cn sn hosts dual w sb' w' :
  loadOrCreateServiceCertificates E sb certPath keyPath caCertPath caKeyPath
    certLife caLife cn sn hosts dual w = (Ret (sb', None), w') →
  ∃ cert key mc mk,
    fs w' !! certPath = Some (Regular cert mc) ∧
    fs w' !! keyPath = Some (Regular key mk) ∧
    HostCertificate sb' = Some cert ∧ HostKey sb' = Some key.
Proof.
  unfold loadOrCreateServiceCertificates, loadCertificateFile, loadKeyFile.
  intros H. apply bind_inv in H as ([cert err] & w1 & Hc & H).
  revert Hc. unfold ReadFile.
  destruct (fs w !! certPath) as [[data mode|why]|] eqn:Hcert;
    intros [= <- <- <-].
  - apply bind_inv in H as ([key err] & w1 & Hk & H).
    revert Hk. unfold ReadFile.
    destruct (fs w !! keyPath) as [[kd km|kwhy]|] eqn:Hkey;
      intros [= <- <- <-]; try (destruct (IsNotExist _); discriminate H).
    injection H as <- <-. exists data, kd, mode, km. done.
  - apply bind_inv in H as ([ca err] & w1 & _ & H).
    apply bind_inv in H as ([sb1 early] & w2 & _ & H).
    destruct early; [discriminate H|].
    apply issueServiceCert_success_pair in H as (c & k & ? & ? & ? & ?).
    by exists c, k, mode0644, mode0600.
  - apply bind_inv in H as ([ca err] & w1 & _ & H).
    apply bind_inv in H as ([sb1 early] & w2 & _ & H).
    destruct early; [discriminate H|].
    apply issueServiceCert_success_pair in H as (c & k & ? & ? & ? & ?).
    by exists c, k, mode0644, mode0600.
Qed.

Lemma cascade_loaded sb certPath keyPath caCertPath caKeyPath
    certLife caLife cn sn hosts dual w cert key mc mk :
  fs w !! certPath = Some (Regular cert mc) →
  fs w !! keyPath = Some (Regular key mk) →
  loadOrCreateServiceCertificates E sb certPath keyPath caCertPath caKeyPath
    certLife caLife cn sn hosts dual w
  = (Ret (setHostKey (Some key) (setHostCertificate (Some cert) sb), None), w).
Proof.
  intros Hc Hk.
  unfold loadOrCreateServiceCertificates, loadCertificateFile, loadKeyFile,
    bind, ReadFile.
  by rewrite Hc, Hk.
Qed.

End HostPair.

(** X3.  After a successful cascade the host certificate and the host key
    held in memory are the bytes of the two files on disk. *)
Theorem cascade_memory_matches_disk (E : Env) (sb sb' : ServiceCertificateBundle)
    (certPath keyPath caCertPath caKeyPath : string) (certLife caLife : Z)
    (cn sn : string) (hosts : list string) (dual : bool) (w w' : world) :
  loadOrCreateServiceCertificates E sb certPath keyPath caCertPath caKeyPath
    certLife caLife cn sn hosts dual w = (Ret (sb', None), w') →
  is_Some (HostCertificate sb') ∧ is_Some (HostKey sb') ∧
  fileBytes w' certPath = HostCertificate sb' ∧
  fileBytes w' keyPath = HostKey sb'.
Proof.
  intros H.
  apply cascade_success_pair in H as (c & k & mc & mk & Hc & Hk & -> & ->).
  unfold fileBytes. rewrite Hc, Hk. eauto.
Qed.

(** X4.  The cascade is idempotent: after a successful cascade, a second one
    on the same paths, for any bundle and any other arguments, succeeds,
    leaves the world as it is, and only loads the host pair of the first;
    the CA fields of its bundle are not touched. *)
Theorem cascade_idempotent (E : Env) (sb sb' sb2 : ServiceCertificateBundle)
    (certPath keyPath caCertPath caKeyPath : string) (certLife caLife : Z)
    (cn sn : string) (hosts : list string) (dual : bool)
    (certLife2 caLife2 : Z) (cn2 sn2 : string) (hosts2 : list string)
    (dual2 : bool) (w w' : world) :
  loadOrCreateServiceCertificates E sb certPath keyPath caCertPath caKeyPath
    certLife caLife cn sn hosts dual w = (Ret (sb', None), w') →
  loadOrCreateServiceCertificates E sb2 certPath keyPath caCertPath caKeyPath
    certLife2 caLife2 cn2 sn2 hosts2 dual2 w'
  = (Ret (MkSCB (CACertificate sb2) (CAKey sb2)
            (HostCertificate sb') (HostKey sb'), None), w').
Proof.
  intros H.
  apply cascade_success_pair in H as (c & k & mc & mk & Hc & Hk & -> & ->).
  by rewrite (cascade_loaded E sb2 _ _ _ _ _ _ _ _ _ _ _ _ _ _ _ Hc Hk).
Qed.

(** ** Collecting the local CAs *)

Section Collect.
Context (E : Env).

Lemma loadCACertAndKeyIfExists_world sb cp kp w :
  (loadCACertAndKeyIfExists sb cp kp w).2 = w.
Proof.
  unfold loadCACertAndKeyIfExists, loadCACertAndKey, loadCertificateFile,
    loadKeyFile, bind, ReadFile.
  destruct (fs w !! cp) as [[]|]; simpl;
    try destruct (fs w !! kp) as [[]|]; simpl;
    try destruct (IsNotExist _); done.
Qed.

Lemma loadCACertAndKeyIfExists_result sb cp kp w :
  (loadCACertAndKeyIfExists sb cp kp w).1
  = Ret
      match fs w !! cp with
      | None => (setCACertificate None sb, None)
      | Some (Blocked why) =>
          (setCACertificate None sb, Some (EPath "open" cp (errnoOf why)))
      | Some (Regular cert _) =>
          match fs w !! kp with
          | None => (setCAKey None (setCACertificate (Some cert) sb), None)
          | Some (Blocked why) =>
              (setCAKey None (setCACertificate (Some cert) sb),
               Some (EPath "open" kp (errnoOf why)))
          | Some (Regular key _) =>
              (setCAKey (Some key) (setCACertificate (Some cert) sb), None)
          end
      end.
Proof.
  unfold loadCACertAndKeyIfExists, loadCACertAndKey, loadCertificateFile,
    loadKeyFile, bind, ReadFile.
  destruct (fs w !! cp) as [[cert m|[]]|]; simpl; try done;
    destruct (fs w !! kp) as [[key km|[]]|]; simpl; done.
Qed.

End Collect.

(** X5.  [loadCACertAndKeyIfExists] returns an error exactly when the CA
    certificate file is there but cannot be opened, or it loads and the key
    file is there but cannot be opened.  In particular a CA certificate
    whose key file is missing is loaded without error, with a nil key. *)
Theorem loadCA_error_iff (sb : ServiceCertificateBundle) (certPath keyPath : string)
    (w : world) :
  ∃ sb' err,
    loadCACertAndKeyIfExists sb certPath keyPath w = (Ret (sb', err), w) ∧
    (is_Some err ↔
       blocked w certPath ∨ (loadable w certPath ∧ blocked w keyPath)) ∧
    (loadable w certPath → fs w !! keyPath = None →
       err = None ∧ CACertificate sb' = fileBytes w certPath ∧
       CAKey sb' = None).
Proof.
  pose proof (loadCACertAndKeyIfExists_world sb certPath keyPath w) as Hw.
  pose proof (loadCACertAndKeyIfExists_result sb certPath keyPath w) as Hr.
  destruct (loadCACertAndKeyIfExists sb certPath keyPath w) as [r w'].
  simpl in *. subst. unfold blocked, loadable, fileBytes.
  destruct (fs w !! certPath) as [[cert m|why]|] eqn:Hc;
    [destruct (fs w !! keyPath) as [[key km|kwhy]|] eqn:Hk|..];
    eexists _, _; (split; [reflexivity|]); unfold is_Some; simpl;
    naive_solver.
Qed.

Lemma loadCA_error_iff_witness :
  let w := World {[ "certs/ca.crt" := Regular "ca" mode0644 ]} [] 0 in
  ∃ sb' err,
    loadCACertAndKeyIfExists emptySCB "certs/ca.crt" "certs/ca.key" w
    = (Ret (sb', err), w) ∧
    err = None ∧ CACertificate sb' = Some "ca" ∧ CAKey sb' = None.
Proof.
  intros w.
  destruct (loadCA_error_iff emptySCB "certs/ca.crt" "certs/ca.key" w)
    as (sb' & err & Hrun & _ & Hkey).
  exists sb', err. split; [exact Hrun|]. apply Hkey.
  - exists "ca", mode0644. vm_compute. reflexivity.
  - vm_compute. reflexivity.
Defined.

Section CollectAll.
Context (E : Env).

Lemma preserves_loadCA w0 sb cp kp :
  preserves (λ w, w = w0) (loadCACertAndKeyIfExists sb cp kp).
Proof. intros w ->. apply loadCACertAndKeyIfExists_world. Qed.

Lemma collectLocalCABundle_world dir w :
  (collectLocalCABundle E dir w).2 = w.
Proof.
  unfold collectLocalCABundle.
  match goal with |- (?m w).2 = w =>
    cut (preserves (λ w', w' = w) m); [intros H; by apply H|]
  end.
  repeat first [ apply preserves_loadCA | preserves_step ].
Qed.

Lemma loadCA_content sb cp kp w sb' w' :
  CAKey sb = None → HostCertificate sb = None → HostKey sb = None →
  loadCACertAndKeyIfExists sb cp kp w = (Ret (sb', None), w') →
  CACertificate sb' = fileBytes w cp ∧
  (loadable w cp → CAKey sb' = fileBytes w kp) ∧
  (fs w !! cp = None → CAKey sb' = None) ∧
  HostCertificate sb' = None ∧ HostKey sb' = None.
Proof.
  intros H1 H2 H3 Hrun.
  pose proof (loadCACertAndKeyIfExists_result sb cp kp w) as Hr.
  rewrite Hrun in Hr. simpl in Hr. unfold loadable, fileBytes.
  destruct (fs w !! cp) as [[cert m|why]|];
    [destruct (fs w !! kp) as [[key km|kwhy]|]|..];
    simplify_eq/=; naive_solver.
Qed.

Lemma collect_content dir w b w' :
  collectLocalCABundle E dir w = (Ret (b, None), w') →
  ∀ s,
    CACertificate (getSlot b s) = fileBytes w (caCertPath (MakeLocator E dir) s) ∧
    (loadable w (caCertPath (MakeLocator E dir) s) →
     CAKey (getSlot b s) = fileBytes w (caKeyPath (MakeLocator E dir) s)) ∧
    (fs w !! caCertPath (MakeLocator E dir) s = None →
     CAKey (getSlot b s) = None) ∧
    HostCertificate (getSlot b s) = None ∧ HostKey (getSlot b s) = None.
Proof.
  unfold collectLocalCABundle. intros H.
  apply bind_inv in H as ([sb1 [e|]] & w1 & H1 & H); [discriminate H|].
  pose proof (run_world _ _ _ _ H1) as W1.
  rewrite loadCACertAndKeyIfExists_world in W1. subst w1.
  apply loadCA_content in H1; [|done..].
  apply bind_inv in H as ([sb2 [e|]] & w2 & H2 & H); [discriminate H|].
  pose proof (run_world _ _ _ _ H2) as W2.
  rewrite loadCACertAndKeyIfExists_world in W2. subst w2.
  apply loadCA_content in H2; [|done..].
  apply bind_inv in H as ([sb3 [e|]] & w3 & H3 & H); [discriminate H|].
  pose proof (run_world _ _ _ _ H3) as W3.
  rewrite loadCACertAndKeyIfExists_world in W3. subst w3.
  apply loadCA_content in H3; [|done..].
  apply bind_inv in H as ([sb4 [e|]] & w4 & H4 & H); [discriminate H|].
  pose proof (run_world _ _ _ _ H4) as W4.
  rewrite loadCACertAndKeyIfExists_world in W4. subst w4.
  apply loadCA_content in H4; [|done..].
  apply bind_inv in H as ([sb5 [e|]] & w5 & H5 & H); [discriminate H|].
  pose proof (run_world _ _ _ _ H5) as W5.
  rewrite loadCACertAndKeyIfExists_world in W5. subst w5.
  apply loadCA_content in H5; [|done..].
  injection H as <- <-. intros s; destruct s; simpl; assumption.
Qed.



End CollectAll.

(** X6.  [collectLocalCABundle] leaves the world as it is, whatever it
    returns; and the bundle it returns without error holds, slot by slot,
    the bytes of the CA certificate file (nil when the file is absent), the
    bytes of the CA key file when the certificate loaded, and no host
    pair. *)
Theorem collect_reads_disk (E : Env) (dir : string) (w : world) :
  (collectLocalCABundle E dir w).2 = w ∧
  ∀ b, (collectLocalCABundle E dir w).1 = Ret (b, None) →
    ∀ s,
      CACertificate (getSlot b s)
      = fileBytes w (caCertPath (MakeLocator E dir) s) ∧
      (loadable w (caCertPath (MakeLocator E dir) s) →
       CAKey (getSlot b s) = fileBytes w (caKeyPath (MakeLocator E dir) s)) ∧
      (fs w !! caCertPath (MakeLocator E dir) s = None →
       CAKey (getSlot b s) = None) ∧
      HostCertificate (getSlot b s) = None ∧ HostKey (getSlot b s) = None.
Proof.
  split; [apply collectLocalCABundle_world|].
  intros b Hb.
  destruct (collectLocalCABundle E dir w) as [r w'] eqn:Hrun.
  simpl in Hb. subst r. by eapply collect_content.
Qed.



(** ** More on rotation *)

Section RotateMore.
Context (E : Env).

Lemma loadCA_absent sb cp kp w :
  fs w !! cp = None →
  loadCACertAndKeyIfExists sb cp kp w = (Ret (setCACertificate None sb, None), w).
Proof.
  intros H. unfold loadCACertAndKeyIfExists, loadCACertAndKey,
    loadCertificateFile, bind, ReadFile. by rewrite H.
Qed.

Lemma extractHosts_outcome addrs :
  Forall (wellFormed E) addrs → ∃ r, extractHosts E addrs = Ret r.
Proof.
  intros H. destruct (extractHostsFrom_total E [] addrs H) as (r & Hr & _).
  by exists r.
Qed.

End RotateMore.

(** X8.  With no CA certificate file on disk and well-formed addresses,
    [rotateGeneratedCerts] succeeds and leaves the world as it is: every
    slot is skipped. *)
Theorem rotate_without_ca_is_noop (E : Env) (c : Config) (w : world) :
  Forall (wellFormed E) (addresses c) →
  (∀ s, fs w !! caCertPath (MakeLocator E (SSLCertsDir c)) s = None) →
  rotateGeneratedCerts E c w = (Ret None, w).
Proof.
  intros Haddr Hno. unfold addresses in Haddr.
  repeat match goal with H : Forall _ (_ :: _) |- _ =>
    apply Forall_cons in H; destruct H as [? H] end.
  destruct (extractHosts_outcome E [Addr c; AdvertiseAddr c]) as [rpc Hrpc];
    [by repeat constructor|].
  destruct (extractHosts_outcome E [SQLAddr c; SQLAdvertiseAddr c])
    as [sql Hsql]; [by repeat constructor|].
  destruct (extractHosts_outcome E [HTTPAddr c; HTTPAdvertiseAddr c])
    as [http Hhttp]; [by repeat constructor|].
  unfold rotateGeneratedCerts, collectLocalCABundle.
  rewrite Hrpc, Hsql, Hhttp.
  erewrite bind_eq.
  2:{ erewrite bind_eq; [|apply loadCA_absent, (Hno SInterNode)].
      cbv beta iota.
      erewrite bind_eq; [|apply loadCA_absent, (Hno SUserAuth)].
      cbv beta iota.
      erewrite bind_eq; [|apply loadCA_absent, (Hno SSQLService)].
      cbv beta iota.
      erewrite bind_eq; [|apply loadCA_absent, (Hno SRPCService)].
      cbv beta iota.
      erewrite bind_eq; [|apply loadCA_absent, (Hno SAdminUI)].
      cbv beta iota. reflexivity. }
  cbv beta iota. by destruct (SplitListenSQL c).
Qed.

Lemma rotate_without_ca_is_noop_witness :
  rotateGeneratedCerts Ref.env Ref.config Ref.emptyWorld
  = (Ret None, Ref.emptyWorld).
Proof.
  apply (rotate_without_ca_is_noop Ref.env Ref.config Ref.emptyWorld
           Ref_addresses_ok).
  intros s. reflexivity.
Defined.

(** X9.  Whatever [rotateGeneratedCerts] returns, also when it stops at an
    error or panics half way, every file is either as it was or is one of
    the ten host files and holds a certificate or key generated during the
    call; in particular no file is removed, and no CA file changes when the
    twenty paths are distinct. *)
Theorem rotate_partial_progress (E : Env) (c : Config) (w : world) (p : string) :
  (fs (rotateGeneratedCerts E c w).2 !! p = fs w !! p
   ∨ (p ∈ hostPaths (MakeLocator E (SSLCertsDir c)) ∧
      touched E w (rotateGeneratedCerts E c w).2 p)) ∧
  (is_Some (fs w !! p) → is_Some (fs (rotateGeneratedCerts E c w).2 !! p)) ∧
  (NoDup (paths (MakeLocator E (SSLCertsDir c))) →
   p ∈ caPaths (MakeLocator E (SSLCertsDir c)) →
   fs (rotateGeneratedCerts E c w).2 !! p = fs w !! p).
Proof.
  pose proof (rotateGeneratedCerts_issued E w c w (issued_refl E _ w)) as H.
  split; [apply H|]. split.
  - by eapply issued_present.
  - intros Hnd Hp. eapply issued_frame; [exact H|].
    unfold caPaths in Hp.
    repeat (apply elem_of_cons in Hp as [->|Hp]);
      try (by apply elem_of_nil in Hp); unfold hostPaths; path_notin.
Qed.

Lemma rotate_partial_progress_witness :
  let w := World (delete "certs/client.node.crt" (fs Ref.bootstrapped.2))
                 [] (seed Ref.bootstrapped.2) in
  (∃ e, (rotateGeneratedCerts Ref.env Ref.config w).1 = Ret (Some e)) ∧
  touched Ref.env w (rotateGeneratedCerts Ref.env Ref.config w).2
    "certs/node.crt".
Proof.
  intros w. split; [eexists; vm_compute; reflexivity|].
  destruct (rotate_partial_progress Ref.env Ref.config w "certs/node.crt")
    as [[Heq|[_ Ht]] _]; [|exact Ht].
  vm_compute in Heq. discriminate Heq.
Defined.

Section RotateKey.
Context (E : Env).

Lemma Stat_present p w ent :
  fs w !! p = Some ent → Stat p w = (Ret None, w).
Proof. intros H. unfold Stat. by rewrite H. Qed.

Lemma WritePEMToFile_over p mode b w old m :
  fs w !! p = Some (Regular old m) → ownerMayWrite m = true →
  WritePEMToFile E p mode true (Some b) w
  = (Ret None,
     World (<[p := Regular (pemEncodeToMemory E b) m]> (fs w))
           (p :: trace w) (seed w)).
Proof. intros H Hm. unfold WritePEMToFile. by rewrite H, Hm. Qed.

Lemma WritePEMToFile_readonly p mode blk w old m :
  fs w !! p = Some (Regular old m) → ownerMayWrite m = false →
  WritePEMToFile E p mode true blk w
  = (Ret (Some (EPath "open" p EACCES)), w).
Proof. intros H Hm. unfold WritePEMToFile. by rewrite H, Hm. Qed.

Lemma WritePEMToFile_absent p mode ow b w :
  fs w !! p = None →
  WritePEMToFile E p mode ow (Some b) w
  = (Ret None,
     World (<[p := Regular (pemEncodeToMemory E b) mode]> (fs w))
           (p :: trace w) (seed w)).
Proof. intros H. unfold WritePEMToFile. by rewrite H. Qed.

End RotateKey.

(** X10.  [rotateServiceCert] checks the certificate path before each of
    its two writes, never the key path.  With a usable CA, a host
    certificate file on disk and no host key file, the outcome is decided
    by the certificate file alone.  If its owner may write it, the call
    succeeds: the certificate is replaced, keeping its mode, and the key
    file is created with mode 0600.  If not (a read-only file), the call
    returns the permission error of the open, wrapped as a failed
    rotation, and no file changes. *)
Theorem rotate_creates_missing_key (E : Env) (sb : ServiceCertificateBundle)
    (certPath keyPath : string) (life : Z) (cn svc : string)
    (hosts : list string) (dual : bool) (w : world)
    (ca0 : Block) (cas : list Block) (caKey cert key : Block)
    (old : string) (mode : N) :
  PEMToCertificates E (bytesOf (CACertificate sb)) = inr (ca0 :: cas) →
  pemDecode E (bytesOf (CAKey sb)) = (Some caKey, "") →
  CreateServiceCertAndKey E (seed w) life cn hosts ca0 caKey dual
  = inr (cert, key) →
  fs w !! certPath = Some (Regular old mode) →
  fs w !! keyPath = None →
  rotateServiceCert E sb certPath keyPath life cn svc hosts dual w
  = if ownerMayWrite mode then
      (Ret None,
       World (<[keyPath := Regular (pemEncodeToMemory E key) mode0600]>
                (<[certPath := Regular (pemEncodeToMemory E cert) mode]> (fs w)))
             (keyPath :: certPath :: trace w) (S (seed w)))
    else
      (Ret (Some (EWrapf (EPath "open" certPath EACCES)
                    "failed to rotate certs for %q" [svc])),
       World (fs w) (trace w) (S (seed w))).
Proof.
  intros Hpem Hdec Hgen Hc Hk.
  assert (certPath ≠ keyPath) as Hne by (intros ->; congruence).
  unfold rotateServiceCert. rewrite Hpem, Hdec. simpl.
  erewrite bind_eq; [|unfold genServiceCert; by rewrite Hgen].
  cbv beta iota.
  erewrite bind_eq; [|by eapply Stat_present]. cbv beta iota.
  unfold writeCertificateFile, writeKeyFile.
  destruct (ownerMayWrite mode) eqn:Hm.
  - erewrite bind_eq; [|by eapply WritePEMToFile_over]. cbv beta iota.
    erewrite bind_eq;
      [|eapply Stat_present; simpl; apply lookup_insert_eq]. cbv beta iota.
    erewrite bind_eq;
      [|apply WritePEMToFile_absent; simpl; by rewrite lookup_insert_ne].
    done.
  - erewrite bind_eq; [|by eapply WritePEMToFile_readonly]. done.
Qed.

Lemma rotate_creates_missing_key_witness :
  let sb := Ref.suppliedCA "ui" in
  let w := World {[ "certs/ui.crt" := Regular "old" mode0644 ]} [] 3 in
  let v := World {[ "certs/ui.crt" := Regular "old" 292%N ]} [] 3 in
  (∃ w',
     rotateServiceCert Ref.env sb "certs/ui.crt" "certs/ui.key"
       defaultCertLifetime "10.0.0.2" serviceNameUI ["10.0.0.2"] false w
     = (Ret None, w') ∧
     fs w !! "certs/ui.key" = None ∧
     ∃ data, fs w' !! "certs/ui.key" = Some (Regular data mode0600)) ∧
  ∃ e v',
    rotateServiceCert Ref.env sb "certs/ui.crt" "certs/ui.key"
      defaultCertLifetime "10.0.0.2" serviceNameUI ["10.0.0.2"] false v
    = (Ret (Some e), v') ∧ fs v' = fs v.
Proof.
  intros sb w v.
  pose proof (rotate_creates_missing_key Ref.env sb "certs/ui.crt"
                "certs/ui.key" defaultCertLifetime "10.0.0.2" serviceNameUI
                ["10.0.0.2"] false w _ _ _ _ _ "old" mode0644
                eq_refl eq_refl eq_refl eq_refl eq_refl) as Hw.
  pose proof (rotate_creates_missing_key Ref.env sb "certs/ui.crt"
                "certs/ui.key" defaultCertLifetime "10.0.0.2" serviceNameUI
                ["10.0.0.2"] false v _ _ _ _ _ "old" 292%N
                eq_refl eq_refl eq_refl eq_refl eq_refl) as Hv.
  change (ownerMayWrite mode0644) with true in Hw.
  change (ownerMayWrite 292) with false in Hv.
  cbv iota in Hw, Hv. split.
  - eexists. split; [exact Hw|].
    split; [reflexivity|]. eexists. apply lookup_insert_eq.
  - eexists _, _. split; [exact Hv|reflexivity].
Defined.

(** ** Writing a received CA *)

(** X11.  [writeCAOrFail] never overwrites.  When the bundle holds a CA
    certificate and the certificate file exists, it returns the
    already-exists error of the open and the world is as it was.  When the
    certificate file is absent but the key file exists, the certificate is
    written first and the call then fails on the key: the directory is left
    with a CA certificate without its key. *)
Theorem writeCAOrFail_refuses_existing (E : Env) (sb : ServiceCertificateBundle)
    (certPath keyPath : string) (w : world) (ca : string) :
  CACertificate sb = Some ca →
  (is_Some (fs w !! certPath) →
   writeCAOrFail E sb certPath keyPath w
   = (Ret (Some (EPath "open" certPath EEXIST)), w)) ∧
  (∀ caKey cb rest,
     CAKey sb = Some caKey → pemDecode E ca = (Some cb, rest) →
     fs w !! certPath = None → is_Some (fs w !! keyPath) →
     writeCAOrFail E sb certPath keyPath w
     = (Ret (Some (EPath "open" keyPath EEXIST)),
        World (<[certPath := Regular (pemEncodeToMemory E cb) mode0644]> (fs w))
              (certPath :: trace w) (seed w))).
Proof.
  intros Hca. split.
  - intros [ent Hc]. unfold writeCAOrFail. rewrite Hca. simpl.
    destruct (pemDecode E ca) as [blk rest].
    unfold bind, writeCertificateFile, WritePEMToFile. by rewrite Hc.
  - intros caKey cb rest Hk Hdec Hc [ent Hkey].
    assert (certPath ≠ keyPath) as Hne by (intros ->; congruence).
    unfold writeCAOrFail. rewrite Hca, Hk. simpl. rewrite Hdec.
    unfold bind, writeCertificateFile, writeKeyFile, WritePEMToFile.
    rewrite Hc. cbn [fs trace seed]. destruct (pemDecode E caKey) as [kblk krest].
    cbn [fs trace seed]. rewrite lookup_insert_ne by done. by rewrite Hkey.
Qed.

Lemma writeCAOrFail_refuses_existing_witness :
  let w := World {[ "certs/ca.crt" := Regular "theirs" mode0644 ]} [] 0 in
  writeCAOrFail Ref.env (Ref.suppliedCA "node") "certs/ca.crt" "certs/ca.key" w
  = (Ret (Some (EPath "open" "certs/ca.crt" EEXIST)), w).
Proof.
  intros w.
  apply (writeCAOrFail_refuses_existing Ref.env (Ref.suppliedCA "node")
           "certs/ca.crt" "certs/ca.key" w _ eq_refl).
  exists (Regular "theirs" mode0644). reflexivity.
Defined.

(** ** Malformed addresses at bootstrap *)

(** X12.  When the guard passes and one of the addresses that bootstrap
    parses (the RPC and HTTP pairs, and the SQL pair when SQL has its own
    listener) is malformed, bootstrap panics and the world is as it was:
    the panic comes before the directory is ensured and before any slot. *)
Theorem bootstrap_malformed_address_panics (E : Env) (b : CertificateBundle)
    (c : Config) (w : world) (a : string) :
  fs w !! NodeCertPath (MakeLocator E (SSLCertsDir c)) = None →
  a ∈ [Addr c; AdvertiseAddr c; HTTPAddr c; HTTPAdvertiseAddr c]
  ∨ (SplitListenSQL c = true ∧ a ∈ [SQLAddr c; SQLAdvertiseAddr c]) →
  ¬ wellFormed E a →
  ∃ e, InitializeFromConfig E b c w = (Panic e, w).
Proof.
  intros Hguard Hin Hbad. unfold InitializeFromConfig.
  erewrite bind_eq; [|by apply FileExists_absent]. cbv beta iota.
  assert (∀ l, a ∈ l → ∃ e, extractHosts E l = Panic e) as Hp.
  { intros l Hl.
    destruct (extractHostsFrom_panics E [] l a Hl Hbad) as (? & e & _ & _ & H).
    by exists e. }
  assert (∀ l, (∃ r, extractHosts E l = Ret r) → a ∉ l) as Hok.
  { intros l [r Hr] Hl. destruct (Hp l Hl) as [e He]. congruence. }
  destruct (extractHosts E [Addr c; AdvertiseAddr c]) as [rpc|e] eqn:Hrpc;
    [|exists e; reflexivity].
  erewrite bind_eq; [|reflexivity]. cbv beta iota.
  assert (a ∉ [Addr c; AdvertiseAddr c]) as N1 by (apply Hok; eauto).
  destruct (SplitListenSQL c) eqn:Hsplit.
  - destruct (extractHosts E [SQLAddr c; SQLAdvertiseAddr c]) as [sql|e]
      eqn:Hsql; [|exists e; reflexivity].
    erewrite bind_eq; [|reflexivity]. cbv beta iota.
    assert (a ∉ [SQLAddr c; SQLAdvertiseAddr c]) as N2 by (apply Hok; eauto).
    destruct (extractHosts E [HTTPAddr c; HTTPAdvertiseAddr c]) as [http|e]
      eqn:Hhttp; [|exists e; reflexivity].
    assert (a ∉ [HTTPAddr c; HTTPAdvertiseAddr c]) as N3
      by (apply Hok; eauto).
    exfalso. set_solver.
  - erewrite bind_eq; [|reflexivity]. cbv beta iota.
    destruct (extractHosts E [HTTPAddr c; HTTPAdvertiseAddr c]) as [http|e]
      eqn:Hhttp; [|exists e; reflexivity].
    assert (a ∉ [HTTPAddr c; HTTPAdvertiseAddr c]) as N3
      by (apply Hok; eauto).
    exfalso. set_solver.
Qed.

Lemma bootstrap_malformed_address_panics_witness :
  let c := MkConfig "certs" "10.0.0.1:26257" "10.0.0.1:26257" false
             "" "" "[::1" "10.0.0.2:8080" in
  ∃ e, InitializeFromConfig Ref.env emptyCB c Ref.emptyWorld
       = (Panic e, Ref.emptyWorld).
Proof.
  intros c.
  apply (bootstrap_malformed_address_panics Ref.env emptyCB c Ref.emptyWorld
           "[::1" eq_refl).
  - left. do 2 apply list_elem_of_further. apply list_elem_of_here.
  - intros (host & port & H). vm_compute in H. discriminate H.
Defined.

(** ** Handing the CAs to a joining node *)

Section Transfer.
Context (E : Env).

Lemma supplies_suppliedOrNil b s cb kb :
  supplies E b s cb kb → suppliedOrNil E (getSlot b s).
Proof.
  intros (cert & key & cr & kr & ca0 & cas & caKey & ?). right.
  exists cert, key, cb, cr, kb, kr, ca0, cas, caKey. done.
Qed.

Lemma writeCAOrFail_supplied b s cb kb certPath keyPath w :
  supplies E b s cb kb →
  fs w !! certPath = None → fs w !! keyPath = None → certPath ≠ keyPath →
  ∃ w',
    writeCAOrFail E (getSlot b s) certPath keyPath w = (Ret None, w') ∧
    unchangedOutside [certPath; keyPath] w w' ∧
    caReady E w' certPath keyPath ∧
    fs w' !! certPath = Some (Regular (pemEncodeToMemory E cb) mode0644) ∧
    fs w' !! keyPath = Some (Regular (pemEncodeToMemory E kb) mode0600).
Proof.
  intros Hs Hc Hk Hne.
  destruct (writeCAOrFail_ok E (getSlot b s) certPath keyPath w
              (supplies_suppliedOrNil _ _ _ _ Hs) Hc Hk Hne)
    as (w' & Hrun & Hun & Hready & _).
  exists w'. split; [done|]. split; [done|]. split; [done|].
  destruct Hs as (cert & key & cr & kr & ca0 & cas & caKey &
                  Hcert & Hkey & Hdc & Hdk & _).
  revert Hrun. unfold writeCAOrFail. rewrite Hcert, Hkey. simpl.
  rewrite Hdc, Hdk. unfold writeCertificateFile, writeKeyFile.
  erewrite bind_eq; [|by apply WritePEMToFile_new]. cbv beta iota.
  rewrite WritePEMToFile_new by (simpl; by rewrite lookup_insert_ne).
  intros [= <-]. simpl.
  by rewrite lookup_insert_ne, !lookup_insert_eq.
Qed.

Lemma receive_installs b c w (cb kb : slot → Block) :
  GeneratorOK E →
  NoDup (paths (MakeLocator E (SSLCertsDir c))) →
  EnsureCertsDirectory E (SSLCertsDir c) = None →
  Forall (wellFormed E) (addresses c) →
  (∀ p, p ∈ paths (MakeLocator E (SSLCertsDir c)) → fs w !! p = None) →
  (∀ s, supplies E b s (cb s) (kb s)) →
  ∃ b1 w1,
    InitializeNodeFromBundle E b c w = (Ret (b1, None), w1) ∧
    ∀ s,
      fs w1 !! caCertPath (MakeLocator E (SSLCertsDir c)) s
      = Some (Regular (pemEncodeToMemory E (cb s)) mode0644) ∧
      fs w1 !! caKeyPath (MakeLocator E (SSLCertsDir c)) s
      = Some (Regular (pemEncodeToMemory E (kb s)) mode0600) ∧
      is_Some (fs w1 !! hostCertPath (MakeLocator E (SSLCertsDir c)) s) ∧
      is_Some (fs w1 !! hostKeyPath (MakeLocator E (SSLCertsDir c)) s).
Proof.
  intros HG Hnd Hdir Haddr Hempty Hsup.
  set (cl := MakeLocator E (SSLCertsDir c)) in *.
  assert (∀ p, p ∈ paths cl → fs w !! p = None) as Hempty' by done.
  unfold paths, hostPaths, caPaths in Hempty'. simpl in Hempty'.
  unfold InitializeNodeFromBundle. fold cl.
  erewrite bind_eq; [|apply FileExists_absent, Hempty'; path_in].
  cbv beta iota. rewrite Hdir.
  destruct (writeCAOrFail_supplied b SInterNode _ _ (CACertPath cl)
              (CAKeyPath cl) w (Hsup SInterNode))
    as (w1 & R1 & U1 & C1 & A1 & K1);
    [apply Hempty'; path_in | apply Hempty'; path_in | path_ne |].
  erewrite bind_eq; [|exact R1]. cbv beta iota.
  destruct (writeCAOrFail_supplied b SUserAuth _ _ (ClientCACertPath cl)
              (ClientCAKeyPath cl) w1 (Hsup SUserAuth))
    as (w2 & R2 & U2 & C2 & A2 & K2);
    [frame_back_all; apply Hempty'; path_in
    |frame_back_all; apply Hempty'; path_in | path_ne |].
  erewrite bind_eq; [|exact R2]. cbv beta iota.
  destruct (writeCAOrFail_supplied b SSQLService _ _ (SQLServiceCACertPath cl)
              (SQLServiceCAKeyPath cl) w2 (Hsup SSQLService))
    as (w3 & R3 & U3 & C3 & A3 & K3);
    [frame_back_all; apply Hempty'; path_in
    |frame_back_all; apply Hempty'; path_in | path_ne |].
  erewrite bind_eq; [|exact R3]. cbv beta iota.
  destruct (writeCAOrFail_supplied b SRPCService _ _ (RPCServiceCACertPath cl)
              (RPCServiceCAKeyPath cl) w3 (Hsup SRPCService))
    as (w4 & R4 & U4 & C4 & A4 & K4);
    [frame_back_all; apply Hempty'; path_in
    |frame_back_all; apply Hempty'; path_in | path_ne |].
  erewrite bind_eq; [|exact R4]. cbv beta iota.
  destruct (writeCAOrFail_supplied b SAdminUI _ _ (UICACertPath cl)
              (UICAKeyPath cl) w4 (Hsup SAdminUI))
    as (w5 & R5 & U5 & C5 & A5 & K5);
    [frame_back_all; apply Hempty'; path_in
    |frame_back_all; apply Hempty'; path_in | path_ne |].
  erewrite bind_eq; [|exact R5]. cbv beta iota.
  destruct (bootstrap_ok E b c w5 HG Hnd Hdir Haddr)
    as (b1 & w6 & Hrun & Hall).
  { intros p Hp. unfold hostPaths in Hp. fold cl in Hp.
    repeat (apply elem_of_cons in Hp as [->|Hp]);
      try (by apply elem_of_nil in Hp);
      frame_back_all; apply Hempty'; path_in. }
  { fold cl. intros s'; destruct s'; simpl;
      [ eapply caReady_frame; [| |exact C1]
      | eapply caReady_frame; [| |exact C2]
      | eapply caReady_frame; [| |exact C3]
      | eapply caReady_frame; [| |exact C4]
      | eapply caReady_frame; [| |exact C5] ];
      frame_back_all; reflexivity. }
  erewrite bind_eq; [|exact Hrun]. cbv beta iota.
  exists b1, w6. split; [reflexivity|]. intros s.
  destruct (Hall s) as (Hhc & Hhk & _ & Hold). fold cl in Hhc, Hhk, Hold.
  assert (fs w5 !! caCertPath cl s
          = Some (Regular (pemEncodeToMemory E (cb s)) mode0644) ∧
          fs w5 !! caKeyPath cl s
          = Some (Regular (pemEncodeToMemory E (kb s)) mode0600)) as [Hc5 Hk5].
  { destruct s; simpl; split; frame_back_all; assumption. }
  destruct Hold as [Hoc Hok]; [rewrite Hc5; eauto|].
  rewrite Hoc, Hok. done.
Qed.

End Transfer.

(** X13.  A bundle is received into a directory without any of the twenty
    files.  Assumed: the generator succeeds, the paths are distinct, the
    directory can be ensured, the addresses are well formed, and every slot
    of the bundle supplies a CA that works once written, that is, the
    certificate and key bytes each decode to a first PEM block, the
    re-encoded certificate block parses as a list of at least one
    certificate, and the re-encoded key block decodes again with nothing
    left over.  Then the bundle is installed and the node is bootstrapped
    on top: each CA file holds the encoding of the first PEM block of the
    supplied bytes (whatever follows that block is dropped), certificates
    with mode 0644 and keys with mode 0600, and every slot has its host
    pair. *)
Theorem receive_installs_first_blocks (E : Env) (b : CertificateBundle)
    (c : Config) (w : world) (cb kb : slot → Block) :
  GeneratorOK E →
  NoDup (paths (MakeLocator E (SSLCertsDir c))) →
  EnsureCertsDirectory E (SSLCertsDir c) = None →
  Forall (wellFormed E) (addresses c) →
  (∀ p, p ∈ paths (MakeLocator E (SSLCertsDir c)) → fs w !! p = None) →
  (∀ s, supplies E b s (cb s) (kb s)) →
  ∃ b1 w1,
    InitializeNodeFromBundle E b c w = (Ret (b1, None), w1) ∧
    ∀ s,
      fs w1 !! caCertPath (MakeLocator E (SSLCertsDir c)) s
      = Some (Regular (pemEncodeToMemory E (cb s)) mode0644) ∧
      fs w1 !! caKeyPath (MakeLocator E (SSLCertsDir c)) s
      = Some (Regular (pemEncodeToMemory E (kb s)) mode0600) ∧
      is_Some (fs w1 !! hostCertPath (MakeLocator E (SSLCertsDir c)) s) ∧
      is_Some (fs w1 !! hostKeyPath (MakeLocator E (SSLCertsDir c)) s).
Proof. apply receive_installs. Qed.

Lemma Ref_bundle_supplies s :
  supplies Ref.env Ref.bundle s
    (MkBlock "CERTIFICATE"
       ("ca of " +:+ match s with
                     | SInterNode => "node" | SUserAuth => "client"
                     | SSQLService => "sql" | SRPCService => "rpc"
                     | SAdminUI => "ui" end))
    (MkBlock "RSA PRIVATE KEY"
       ("ca key of " +:+ match s with
                         | SInterNode => "node" | SUserAuth => "client"
                         | SSQLService => "sql" | SRPCService => "rpc"
                         | SAdminUI => "ui" end)).
Proof.
  destruct s; unfold supplies; simpl;
    eexists _, _, _, _, _, _, _; repeat split; reflexivity.
Qed.

Lemma receive_installs_first_blocks_witness :
  ∃ b1 w1,
    InitializeNodeFromBundle Ref.env Ref.bundle Ref.config Ref.emptyWorld
    = (Ret (b1, None), w1) ∧
    fs w1 !! "certs/ca-ui.crt"
    = Some (Regular (Ref.refEncode (MkBlock "CERTIFICATE" "ca of ui")) mode0644).
Proof.
  destruct (receive_installs_first_blocks Ref.env Ref.bundle Ref.config
              Ref.emptyWorld _ _ Ref_generator_ok Ref_paths_NoDup eq_refl
              Ref_addresses_ok (λ p _, eq_refl) Ref_bundle_supplies)
    as (b1 & w1 & Hrun & Hall).
  exists b1, w1. split; [exact Hrun|]. exact (proj1 (Hall SAdminUI)).
Defined.

Lemma slot_choice {A} (P : slot → A → Prop) :
  (∀ s, ∃ x, P s x) → ∃ f, ∀ s, P s (f s).
Proof.
  intros H.
  destruct (H SInterNode) as [x1 ?]. destruct (H SUserAuth) as [x2 ?].
  destruct (H SSQLService) as [x3 ?]. destruct (H SRPCService) as [x4 ?].
  destruct (H SAdminUI) as [x5 ?].
  exists (λ s, match s with
               | SInterNode => x1 | SUserAuth => x2 | SSQLService => x3
               | SRPCService => x4 | SAdminUI => x5
               end).
  by intros [].
Qed.

Section Join.
Context (E : Env).

Lemma loadCA_both sb cp kp w cert mc key mk :
  fs w !! cp = Some (Regular cert mc) → fs w !! kp = Some (Regular key mk) →
  loadCACertAndKeyIfExists sb cp kp w
  = (Ret (setCAKey (Some key) (setCACertificate (Some cert) sb), None), w).
Proof.
  intros Hc Hk. unfold loadCACertAndKeyIfExists, loadCACertAndKey,
    loadCertificateFile, loadKeyFile, bind, ReadFile. by rewrite Hc, Hk.
Qed.

Lemma collect_ok dir w (cert key : slot → string) :
  (∀ s, ∃ mc mk,
     fs w !! caCertPath (MakeLocator E dir) s = Some (Regular (cert s) mc) ∧
     fs w !! caKeyPath (MakeLocator E dir) s = Some (Regular (key s) mk)) →
  ∃ b,
    collectLocalCABundle E dir w = (Ret (b, None), w) ∧
    ∀ s, getSlot b s = MkSCB (Some (cert s)) (Some (key s)) None None.
Proof.
  intros H. unfold collectLocalCABundle.
  destruct (H SInterNode) as (? & ? & C1 & K1).
  destruct (H SUserAuth) as (? & ? & C2 & K2).
  destruct (H SSQLService) as (? & ? & C3 & K3).
  destruct (H SRPCService) as (? & ? & C4 & K4).
  destruct (H SAdminUI) as (? & ? & C5 & K5). simpl in *.
  erewrite bind_eq; [|by eapply loadCA_both]. cbv beta iota.
  erewrite bind_eq; [|by eapply loadCA_both]. cbv beta iota.
  erewrite bind_eq; [|by eapply loadCA_both]. cbv beta iota.
  erewrite bind_eq; [|by eapply loadCA_both]. cbv beta iota.
  erewrite bind_eq; [|by eapply loadCA_both]. cbv beta iota.
  eexists. split; [reflexivity|]. intros s; destruct s; reflexivity.
Qed.

End Join.

(** X14.  The node-join hand-over.  A first node bootstraps an empty
    directory and collects its CAs; a second node receives the collected
    bundle into its own empty directory.  All three steps succeed; the
    bundle handed over holds no host certificate and no host key; and on the
    second node every CA certificate file and CA key file holds the same
    bytes as on the first.  (The PEM coder is assumed to decode the
    encoding of a generated CA certificate to that certificate.) *)
Theorem ca_handover_round_trip (E : Env) (c1 c2 : Config) (w0 v0 : world) :
  GeneratorOK E →
  (∀ n life cn ca caKey,
     CreateCACertAndKey E n life cn = inr (ca, caKey) →
     ∃ rest, pemDecode E (pemEncodeToMemory E ca) = (Some ca, rest)) →
  NoDup (paths (MakeLocator E (SSLCertsDir c1))) →
  NoDup (paths (MakeLocator E (SSLCertsDir c2))) →
  EnsureCertsDirectory E (SSLCertsDir c1) = None →
  EnsureCertsDirectory E (SSLCertsDir c2) = None →
  Forall (wellFormed E) (addresses c1) →
  Forall (wellFormed E) (addresses c2) →
  (∀ p, p ∈ paths (MakeLocator E (SSLCertsDir c1)) → fs w0 !! p = None) →
  (∀ p, p ∈ paths (MakeLocator E (SSLCertsDir c2)) → fs v0 !! p = None) →
  ∃ b1 w1 b b2 v1,
    InitializeFromConfig E emptyCB c1 w0 = (Ret (b1, None), w1) ∧
    collectLocalCABundle E (SSLCertsDir c1) w1 = (Ret (b, None), w1) ∧
    InitializeNodeFromBundle E b c2 v0 = (Ret (b2, None), v1) ∧
    ∀ s,
      HostCertificate (getSlot b s) = None ∧ HostKey (getSlot b s) = None ∧
      is_Some (fileBytes w1 (caCertPath (MakeLocator E (SSLCertsDir c1)) s)) ∧
      is_Some (fileBytes w1 (caKeyPath (MakeLocator E (SSLCertsDir c1)) s)) ∧
      fileBytes v1 (caCertPath (MakeLocator E (SSLCertsDir c2)) s)
      = fileBytes w1 (caCertPath (MakeLocator E (SSLCertsDir c1)) s) ∧
      fileBytes v1 (caKeyPath (MakeLocator E (SSLCertsDir c2)) s)
      = fileBytes w1 (caKeyPath (MakeLocator E (SSLCertsDir c1)) s).
Proof.
  intros HG Hrt Hnd1 Hnd2 Hdir1 Hdir2 Ha1 Ha2 He1 He2.
  set (cl1 := MakeLocator E (SSLCertsDir c1)) in *.
  set (cl2 := MakeLocator E (SSLCertsDir c2)) in *.
  destruct (bootstrap_ok E emptyCB c1 w0 HG Hnd1 Hdir1 Ha1)
    as (b1 & w1 & Hboot & Hall).
  { intros p Hp. apply He1. unfold paths. apply elem_of_app. by left. }
  { intros s. left.
    split; apply He1; unfold paths; apply elem_of_app; right;
      destruct s; unfold caPaths; simpl; path_in. }
  fold cl1 in Hall.
  assert (∀ s, ∃ ca caKey n,
            CreateCACertAndKey E n defaultCALifetime (caCommonName E)
            = inr (ca, caKey) ∧
            fs w1 !! caCertPath cl1 s
            = Some (Regular (pemEncodeToMemory E ca) mode0644) ∧
            fs w1 !! caKeyPath cl1 s
            = Some (Regular (pemEncodeToMemory E caKey) mode0600)) as Hca.
  { intros s. destruct (Hall s) as (_ & _ & Hnew & _).
    destruct Hnew as (n & ca & caKey & ? & ? & ? & _).
    - apply He1. unfold paths. apply elem_of_app. right.
      destruct s; unfold caPaths; simpl; path_in.
    - by exists ca, caKey, n. }
  apply slot_choice in Hca as [caOf Hca].
  apply slot_choice in Hca as [keyOf Hca].
  destruct (collect_ok E (SSLCertsDir c1) w1
              (λ s, pemEncodeToMemory E (caOf s))
              (λ s, pemEncodeToMemory E (keyOf s))) as (b & Hcol & Hb).
  { intros s. destruct (Hca s) as (n & _ & ? & ?). eauto. }
  destruct (receive_installs E b c2 v0 caOf keyOf HG Hnd2 Hdir2 Ha2 He2)
    as (b2 & v1 & Hrecv & Hinst).
  { intros s. destruct (Hca s) as (n & Hgen & _ & _).
    destruct (Hrt _ _ _ _ _ Hgen) as [rest Hdc].
    destruct (ca_decodes E HG _ _ _ _ _ Hgen) as [[cs Hpem] Hdk].
    exists (pemEncodeToMemory E (caOf s)), (pemEncodeToMemory E (keyOf s)),
      rest, "", (caOf s), cs, (keyOf s).
    rewrite Hb. simpl. done. }
  exists b1, w1, b, b2, v1. split; [done|]. split; [done|]. split; [done|].
  intros s. destruct (Hca s) as (n & _ & Hc1 & Hk1).
  destruct (Hinst s) as (Hc2 & Hk2 & _). fold cl2 in Hc2, Hk2.
  unfold fileBytes. rewrite Hb, Hc1, Hk1, Hc2, Hk2. simpl. eauto 10.
Qed.

Lemma Ref_cert_round_trip n life cn ca caKey :
  CreateCACertAndKey Ref.env n life cn = inr (ca, caKey) →
  ∃ rest, pemDecode Ref.env (pemEncodeToMemory Ref.env ca) = (Some ca, rest).
Proof. intros [= <- <-]. by exists "". Qed.

Lemma ca_handover_round_trip_witness :
  ∃ b1 w1 b b2 v1,
    InitializeFromConfig Ref.env emptyCB Ref.config Ref.emptyWorld
    = (Ret (b1, None), w1) ∧
    collectLocalCABundle Ref.env "certs" w1 = (Ret (b, None), w1) ∧
    InitializeNodeFromBundle Ref.env b Ref.config Ref.emptyWorld
    = (Ret (b2, None), v1) ∧
    fileBytes v1 "certs/ca.key" = fileBytes w1 "certs/ca.key".
Proof.
  destruct (ca_handover_round_trip Ref.env Ref.config Ref.config
              Ref.emptyWorld Ref.emptyWorld Ref_generator_ok
              Ref_cert_round_trip Ref_paths_NoDup Ref_paths_NoDup
              eq_refl eq_refl Ref_addresses_ok Ref_addresses_ok
              (λ p _, eq_refl) (λ p _, eq_refl))
    as (b1 & w1 & b & b2 & v1 & H1 & H2 & H3 & Hall).
  exists b1, w1, b, b2, v1. split; [exact H1|]. split; [exact H2|].
  split; [exact H3|].
  destruct (Hall SInterNode) as (_ & _ & _ & _ & _ & Hk). exact Hk.
Defined.

Lemma cascade_memory_matches_disk_witness :
  ∃ sb' w',
    loadOrCreateServiceCertificates Ref.env emptySCB
      "certs/node.crt" "certs/node.key" "certs/ca.crt" "certs/ca.key"
      defaultCertLifetime defaultCALifetime "node" serviceNameInterNode
      ["10.0.0.1"] true Ref.emptyWorld = (Ret (sb', None), w') ∧
    fileBytes w' "certs/node.key" = HostKey sb' ∧ is_Some (HostKey sb').
Proof.
  assert (∃ sb' w',
            loadOrCreateServiceCertificates Ref.env emptySCB
              "certs/node.crt" "certs/node.key" "certs/ca.crt" "certs/ca.key"
              defaultCertLifetime defaultCALifetime "node"
              serviceNameInterNode ["10.0.0.1"] true Ref.emptyWorld
            = (Ret (sb', None), w')) as (sb' & w' & H)
    by (eexists _, _; vm_compute; reflexivity).
  exists sb', w'. split; [exact H|].
  destruct (cascade_memory_matches_disk _ _ _ _ _ _ _ _ _ _ _ _ _ _ _ H)
    as (_ & Hs & _ & Hk).
  split; [exact Hk | exact Hs].
Defined.

Lemma cascade_idempotent_witness :
  ∃ sb' w',
    loadOrCreateServiceCertificates Ref.env emptySCB
      "certs/node.crt" "certs/node.key" "certs/ca.crt" "certs/ca.key"
      defaultCertLifetime defaultCALifetime "node" serviceNameInterNode
      ["10.0.0.1"] true Ref.emptyWorld = (Ret (sb', None), w') ∧
    loadOrCreateServiceCertificates Ref.env emptySCB
      "certs/node.crt" "certs/node.key" "certs/ca.crt" "certs/ca.key"
      defaultCertLifetime defaultCALifetime "other" serviceNameInterNode
      ["10.0.0.9"] false w'
    = (Ret (MkSCB None None (HostCertificate sb') (HostKey sb'), None), w').
Proof.
  assert (∃ sb' w',
            loadOrCreateServiceCertificates Ref.env emptySCB
              "certs/node.crt" "certs/node.key" "certs/ca.crt" "certs/ca.key"
              defaultCertLifetime defaultCALifetime "node"
              serviceNameInterNode ["10.0.0.1"] true Ref.emptyWorld
            = (Ret (sb', None), w')) as (sb' & w' & H)
    by (eexists _, _; vm_compute; reflexivity).
  exists sb', w'. split; [exact H|].
  exact (cascade_idempotent Ref.env emptySCB sb' emptySCB _ _ _ _ _ _ _ _ _ _
           defaultCertLifetime defaultCALifetime "other" serviceNameInterNode
           ["10.0.0.9"] false _ _ H).
Defined.

Lemma collect_reads_disk_witness :
  ∃ b,
    (collectLocalCABundle Ref.env "certs" Ref.bootstrapped.2).1
    = Ret (b, None) ∧
    CACertificate (InterNode b) = fileBytes Ref.bootstrapped.2 "certs/ca.crt" ∧
    HostKey (InterNode b) = None.
Proof.
  assert (∃ b, (collectLocalCABundle Ref.env "certs" Ref.bootstrapped.2).1
               = Ret (b, None)) as [b H]
    by (eexists; vm_compute; reflexivity).
  exists b. split; [exact H|].
  destruct (proj2 (collect_reads_disk Ref.env "certs" Ref.bootstrapped.2)
              b H SInterNode) as (Hc & _ & _ & _ & Hk).
  split; [exact Hc | exact Hk].
Defined.

(** ** A host certificate that is there but cannot be read *)

(** C3 (the code at the failing input).  The host certificate file is
    there but cannot be read, and the slot has no CA on disk yet.  The
    cascade does not look at the host key at all: it treats the failed
    read like a missing certificate, creates a CA, writes the CA
    certificate and the CA key, generates a host pair, and only then fails,
    on the exclusive open of the host certificate path.  The error is the
    file-exists error of that open, not one of the two key-load errors,
    and two files have been written. *)
Theorem cascade_unreadable_cert_creates_ca (E : Env)
    (sb : ServiceCertificateBundle)
    (serviceCertPath serviceKeyPath caCertPath caKeyPath : string)
    (certLife caLife : Z) (commonName serviceName : string)
    (hostnames : list string) (dual : bool) (w : world) (why : fault)
    (c k c0 k' hc hk : Block) (cs : list Block) :
  fs w !! serviceCertPath = Some (Blocked why) →
  fs w !! caCertPath = None → fs w !! caKeyPath = None →
  caCertPath ≠ caKeyPath →
  CreateCACertAndKey E (seed w) caLife (caCommonName E) = inr (c, k) →
  PEMToCertificates E (pemEncodeToMemory E c) = inr (c0 :: cs) →
  pemDecode E (pemEncodeToMemory E k) = (Some k', "") →
  CreateServiceCertAndKey E (S (seed w)) certLife commonName hostnames c0 k'
    dual = inr (hc, hk) →
  ∃ sb',
    loadOrCreateServiceCertificates E sb serviceCertPath serviceKeyPath
      caCertPath caKeyPath certLife caLife commonName serviceName
      hostnames dual w
    = (Ret (sb', Some (EPath "open" serviceCertPath EEXIST)),
       World (<[caKeyPath := Regular (pemEncodeToMemory E k) mode0600]>
                (<[caCertPath := Regular (pemEncodeToMemory E c) mode0644]>
                   (fs w)))
             (caKeyPath :: caCertPath :: trace w) (S (S (seed w)))) ∧
    isInconsistentPair (EPath "open" serviceCertPath EEXIST) = false.
Proof.
  intros Hcert Hca Hcak Hne Hgen Hpem Hdec Hleaf.
  assert (serviceCertPath ≠ caCertPath) as N1 by (intros ->; congruence).
  assert (serviceCertPath ≠ caKeyPath) as N2 by (intros ->; congruence).
  unfold loadOrCreateServiceCertificates, loadCertificateFile, loadKeyFile.
  erewrite bind_eq; [|unfold ReadFile; by rewrite Hcert]. cbv beta iota.
  erewrite bind_eq; [|by apply ReadFile_absent]. cbv beta iota.
  change (IsNotExist (EPath "open" caCertPath ENOENT)) with true.
  cbv beta iota.
  erewrite bind_eq.
  2:{ erewrite bind_eq; [|by apply createServiceCA_ok]. reflexivity. }
  cbv beta iota.
  unfold issueServiceCert. cbn [CACertificate CAKey setCAKey setCACertificate
                                setHostCertificate bytesOf default].
  unfold id. rewrite Hpem, Hdec. cbn [String.length Nat.ltb Nat.leb].
  erewrite bind_eq; [|unfold genServiceCert; cbn [seed]; by rewrite Hleaf].
  cbv beta iota.
  erewrite bind_eq.
  2:{ unfold writeCertificateFile, WritePEMToFile. cbn [fs].
      rewrite !lookup_insert_ne by done. rewrite Hcert. reflexivity. }
  cbv beta iota. eexists. split; reflexivity.
Qed.

Lemma cascade_unreadable_cert_creates_ca_witness :
  let w := World {[ "certs/node.crt" := Blocked Denied ]} [] 0 in
  ¬ loadable w "certs/node.key" ∧
  ∃ sb' w',
    loadOrCreateServiceCertificates Ref.env emptySCB
      "certs/node.crt" "certs/node.key" "certs/ca.crt" "certs/ca.key"
      defaultCertLifetime defaultCALifetime "node" serviceNameInterNode
      ["10.0.0.1"] true w
    = (Ret (sb', Some (EPath "open" "certs/node.crt" EEXIST)), w') ∧
    trace w' = ["certs/ca.key"; "certs/ca.crt"] ∧
    loadable w' "certs/ca.crt" ∧ loadable w' "certs/ca.key".
Proof.
  intros w. split.
  { intros (d & m & H). vm_compute in H. discriminate H. }
  destruct (cascade_unreadable_cert_creates_ca Ref.env emptySCB
              "certs/node.crt" "certs/node.key" "certs/ca.crt" "certs/ca.key"
              defaultCertLifetime defaultCALifetime "node"
              serviceNameInterNode ["10.0.0.1"] true w Denied
              _ _ _ _ _ _ _
              eq_refl eq_refl eq_refl ltac:(discriminate)
              eq_refl eq_refl eq_refl eq_refl) as (sb' & Hrun & _).
  eexists _, _. split; [exact Hrun|]. split; [reflexivity|].
  split; eexists _, _; cbn [fs].
  - rewrite lookup_insert_ne by discriminate. apply lookup_insert_eq.
  - apply lookup_insert_eq.
Defined.

(** * The application names of a statements response *)

Local Open Scope list_scope.

Lemma lexleb_total (a b : StatementsPage.jsString) : StatementsPage.lexleb a b = true ∨ StatementsPage.lexleb b a = true.
Proof.
  revert b. induction a as [|x a IH]; intros [|y b]; cbn [StatementsPage.lexleb];
    [by left|by left|by right|].
  destruct (N.ltb_spec x y) as [Hxy|Hxy]; [by left|].
  destruct (N.ltb_spec y x) as [Hyx|Hyx]; [by right|].
  assert (x = y) as -> by lia. rewrite N.eqb_refl. apply IH.
Qed.

Lemma lexleb_trans (a b c : StatementsPage.jsString) :
  StatementsPage.lexleb a b = true → StatementsPage.lexleb b c = true → StatementsPage.lexleb a c = true.
Proof.
  revert b c. induction a as [|x a IH]; intros [|y b] [|z c]; cbn [StatementsPage.lexleb];
    try done.
  destruct (N.ltb_spec x y) as [Hxy|Hxy];
    destruct (N.ltb_spec y z) as [Hyz|Hyz];
    destruct (N.ltb_spec x z) as [Hxz|Hxz]; try done; try lia.
  - destruct (N.eqb_spec y z) as [->|Hne]; [lia|done].
  - destruct (N.eqb_spec x y) as [->|Hne]; [lia|done].
  - destruct (N.eqb_spec x y) as [->|Hne]; [|done].
    destruct (N.eqb_spec y z) as [->|Hne]; [|done].
    rewrite ?N.eqb_refl. apply IH.
Qed.

#[global] Instance lexle_total : Total StatementsPage.lexle.
Proof. intros a b. apply lexleb_total. Qed.

#[global] Instance lexle_trans : Transitive StatementsPage.lexle.
Proof. intros a b c. apply lexleb_trans. Qed.

Section Apps.
Import StatementsPage.
Context (unset : jsString).

Lemma elem_of_setAdd (apps : list jsString) (x y : jsString) :
  y ∈ setAdd apps x ↔ y ∈ apps ∨ y = x.
Proof.
  unfold setAdd. destruct (decide (x ∈ apps)) as [Hx|Hx].
  - split; [by left|]. intros [H| ->]; assumption.
  - rewrite elem_of_app, list_elem_of_singleton. reflexivity.
Qed.

Lemma NoDup_setAdd (apps : list jsString) (x : jsString) :
  NoDup apps → NoDup (setAdd apps x).
Proof.
  intros H. unfold setAdd. destruct (decide (x ∈ apps)) as [Hx|Hx]; [done|].
  apply NoDup_app. split; [done|]. split; [|apply NoDup_singleton].
  intros y Hy ->%list_elem_of_singleton. done.
Qed.

Lemma elem_of_collect {A} (f : A → jsString) (l : list A) acc y :
  y ∈ foldl (λ apps a, setAdd apps (f a)) acc l
  ↔ y ∈ acc ∨ ∃ a, a ∈ l ∧ y = f a.
Proof.
  revert acc. induction l as [|a l IH]; intros acc; cbn [foldl].
  - split; [by left|]. intros [H|(a & Ha & _)]; [done|].
    by apply elem_of_nil in Ha.
  - rewrite IH, elem_of_setAdd. split.
    + intros [[H|H]|(a' & Ha' & H)]; [by left|right|right].
      * exists a. split; [apply list_elem_of_here|done].
      * exists a'. split; [by apply list_elem_of_further|done].
    + intros [H|(a' & Ha' & H)]; [by left; left|].
      apply elem_of_cons in Ha' as [->|Ha']; [by left; right|].
      right. by exists a'.
Qed.

Lemma NoDup_collect {A} (f : A → jsString) (l : list A) acc :
  NoDup acc → NoDup (foldl (λ apps a, setAdd apps (f a)) acc l).
Proof.
  revert acc. induction l as [|a l IH]; intros acc H; cbn [foldl]; [done|].
  by apply IH, NoDup_setAdd.
Qed.

Lemma elem_of_apps (data : SqlStatsResponse) (x : jsString) :
  x ∈ getAppsFromStmtsResponseMemoized unset (Some data)
  ↔ ∃ st, st ∈ default [] (statements data) ∧ x = appName unset data st.
Proof.
  unfold getAppsFromStmtsResponseMemoized. cbv zeta.
  rewrite merge_sort_Permutation, elem_of_collect.
  split; [intros [H|H]; [by apply elem_of_nil in H|done]|by right].
Qed.

End Apps.

(** X15.  The result holds exactly the names that the callback computes
    for the statements of the response. *)
Theorem apps_are_the_names_of_the_statements (unset : StatementsPage.jsString)
    (data : StatementsPage.SqlStatsResponse) (x : StatementsPage.jsString) :
  x ∈ StatementsPage.getAppsFromStmtsResponseMemoized unset (Some data)
  ↔ ∃ st, st ∈ default [] (StatementsPage.statements data)
          ∧ x = StatementsPage.appName unset data st.
Proof. apply elem_of_apps. Qed.

(** X16.  The result is in strictly ascending order of code units: it is
    sorted and no name occurs twice. *)
Theorem apps_are_strictly_sorted (unset : StatementsPage.jsString)
    (data : option StatementsPage.SqlStatsResponse) :
  StronglySorted (λ a b, StatementsPage.lexle a b ∧ a ≠ b)
    (StatementsPage.getAppsFromStmtsResponseMemoized unset data).
Proof.
  destruct data as [data|]; [|constructor].
  unfold StatementsPage.getAppsFromStmtsResponseMemoized. cbv zeta.
  set (apps := foldl _ _ _).
  assert (NoDup (merge_sort StatementsPage.lexle apps)) as Hnd.
  { rewrite merge_sort_Permutation. apply NoDup_collect, NoDup_nil_2. }
  pose proof (StronglySorted_merge_sort StatementsPage.lexle apps) as Hs.
  induction Hs as [|a l Hs IH Hall]; [constructor|].
  apply NoDup_cons in Hnd as [Ha Hnd]. constructor; [by apply IH|].
  apply Forall_forall. intros b Hb. split.
  - by eapply Forall_forall in Hall.
  - intros ->. done.
Qed.

(** X17.  With a non-empty internal prefix, a name of the result that
    starts with the prefix is the prefix itself, or the [unset] constant. *)
Theorem internal_apps_collapse (unset : StatementsPage.jsString)
    (data : StatementsPage.SqlStatsResponse)
    (prefix x : StatementsPage.jsString) :
  StatementsPage.internal_app_name_prefix data = Some prefix →
  prefix ≠ [] →
  x ∈ StatementsPage.getAppsFromStmtsResponseMemoized unset (Some data) →
  StatementsPage.startsWith x prefix = true →
  x = prefix ∨ x = unset.
Proof.
  intros Hp Hne (st & _ & ->)%elem_of_apps Hx.
  unfold StatementsPage.appName in *. rewrite Hp in *.
  assert (StatementsPage.truthy prefix = true) as Ht by (by destruct prefix).
  rewrite Ht in *. cbn [andb] in *.
  destruct (StatementsPage.startsWith (StatementsPage.app st) prefix) eqn:Hs;
    [by left|].
  destruct (StatementsPage.truthy (StatementsPage.app st));
    [congruence|by right].
Qed.

(** X18.  Unless the [unset] constant is itself empty, the empty name is
    never in the result. *)
Theorem apps_have_no_empty_name (unset : StatementsPage.jsString)
    (data : option StatementsPage.SqlStatsResponse) :
  unset ≠ [] →
  [] ∉ StatementsPage.getAppsFromStmtsResponseMemoized unset data.
Proof.
  intros Hu. destruct data as [data|]; [|apply not_elem_of_nil].
  intros (st & _ & H)%elem_of_apps. unfold StatementsPage.appName in H.
  destruct (StatementsPage.internal_app_name_prefix data) as [prefix|].
  - destruct (StatementsPage.truthy prefix) eqn:Ht; cbn [andb] in H.
    + destruct (StatementsPage.startsWith _ prefix);
        [by subst prefix|].
      destruct (StatementsPage.app st); [done|discriminate].
    + destruct (StatementsPage.app st); [done|discriminate].
  - destruct (StatementsPage.app st); [done|discriminate].
Qed.

Lemma internal_apps_collapse_witness :
  StatementsPage.codeUnits "(unset)" = StatementsPage.codeUnits "("
  ∨ StatementsPage.codeUnits "(unset)" = StatementsPage.codeUnits "(unset)".
Proof.
  apply (internal_apps_collapse (StatementsPage.codeUnits "(unset)")
           (StatementsPage.MkResponse
              (Some [StatementsPage.MkStatement (StatementsPage.codeUnits "(a");
                     StatementsPage.MkStatement []])
              (Some (StatementsPage.codeUnits "(")))
           (StatementsPage.codeUnits "(")
           (StatementsPage.codeUnits "(unset)")).
  - reflexivity.
  - discriminate.
  - apply elem_of_apps. exists (StatementsPage.MkStatement []).
    split; [|reflexivity]. apply list_elem_of_further, list_elem_of_here.
  - reflexivity.
Defined.

Lemma apps_have_no_empty_name_witness :
  [] ∉ StatementsPage.getAppsFromStmtsResponseMemoized
         (StatementsPage.codeUnits "(unset)")
         (Some (StatementsPage.MkResponse
                  (Some [StatementsPage.MkStatement [];
                         StatementsPage.MkStatement
                           (StatementsPage.codeUnits "app")])
                  None)).
Proof.
  apply (apps_have_no_empty_name (StatementsPage.codeUnits "(unset)")).
  discriminate.
Defined.

(** * The test-output filter *)

Import TestFilter.

Lemma eqb_true (a b : string) : String.eqb a b = true ↔ a = b.
Proof. apply String.eqb_eq. Qed.

Lemma eqb_false (a b : string) : String.eqb a b = false ↔ a ≠ b.
Proof. apply String.eqb_neq. Qed.

(** X19.  [Set] accepts exactly the names that [String] gives to the three
    modes, and then stores the mode of that name. *)
Theorem modeT_Set_String_round_trip (m0 m : modeT) (s : string) :
  modeT_Set m0 s = (m, None) ↔ s = modeT_String m ∧ (m ≤ 2)%N.
Proof.
  unfold modeT_Set. split.
  - destruct (String.eqb s "strip") eqn:H1;
      [apply eqb_true in H1; intros [= <-]; subst; split; [reflexivity|done]|].
    destruct (String.eqb s "omit") eqn:H2;
      [apply eqb_true in H2; intros [= <-]; subst; split; [reflexivity|done]|].
    destruct (String.eqb s "convert") eqn:H3;
      [apply eqb_true in H3; intros [= <-]; subst; split; [reflexivity|done]|].
    discriminate.
  - intros [-> Hm].
    assert (m = 0 ∨ m = 1 ∨ m = 2)%N as [->|[->| ->]] by lia; reflexivity.
Qed.

(** X20.  A [Set] that fails returns "unsupported mode", leaves the mode
    as it was, and was given none of the three names. *)
Theorem modeT_Set_unsupported (m0 m : modeT) (s : string) (e : error) :
  modeT_Set m0 s = (m, Some e) →
  m = m0 ∧ e = ENew "unsupported mode" ∧ ∀ m', (m' ≤ 2)%N → s ≠ modeT_String m'.
Proof.
  unfold modeT_Set.
  destruct (String.eqb s "strip") eqn:H1; [discriminate|].
  destruct (String.eqb s "omit") eqn:H2; [discriminate|].
  destruct (String.eqb s "convert") eqn:H3; [discriminate|].
  intros [= <- <-]. do 2 (split; [reflexivity|]).
  apply eqb_false in H1, H2, H3. intros m' Hm.
  assert (m' = 0 ∨ m' = 1 ∨ m' = 2)%N as [->|[->| ->]] by lia; assumption.
Qed.

Lemma modeT_Set_unsupported_witness :
  7%N = 7%N ∧ ENew "unsupported mode" = ENew "unsupported mode"
  ∧ ∀ m', (m' ≤ 2)%N → "unknown" ≠ modeT_String m'.
Proof.
  exact (modeT_Set_unsupported 7%N 7%N "unknown" (ENew "unsupported mode") eq_refl).
Defined.

Section FilterLoop.
Context (C : Codec).

Lemma step_plain mode s line :
  looksLikeJSON line = false →
  step C mode s line =
    inl (let s := if String.eqb (passFailLine s) ""
                     && (Contains line "PASS" || Contains line "FAIL")
                  then MkState (m s) (n s) line (out s) (ranges s) else s in
         if negb (mode =? modeOmit)%N then write s (line +:+ newline) else s).
Proof. intros H. unfold step. rewrite H. reflexivity. Qed.

Lemma step_parse_error mode s line e :
  looksLikeJSON line = true → Unmarshal C line = inl e →
  step C mode s line = inr (e, s).
Proof. intros H1 H2. unfold step. rewrite H1, H2. reflexivity. Qed.

Lemma loop_app mode s l1 l2 :
  loop C mode s (l1 ++ l2) =
    match loop C mode s l1 with
    | inl s' => loop C mode s' l2
    | inr r => inr r
    end.
Proof.
  revert s. induction l1 as [|l l1 IH]; intros s; [reflexivity|].
  simpl. destruct (step C mode s l); [apply IH|reflexivity].
Qed.

(** *** Convert mode *)

Lemma step_convert line :
  ∃ (d : list string) (e : option error), ∀ s,
    match step C modeConvert s line, e with
    | inl s', None => out s' = out s ++ d
    | inr (e', s'), Some e => e' = e ∧ out s' = out s ∧ d = []
    | _, _ => False
    end.
Proof.
  unfold step. destruct (looksLikeJSON line); simpl.
  - destruct (Unmarshal C line) as [err|ev].
    + exists [], (Some err). intros s. done.
    + destruct (String.eqb (Action ev) "output").
      * exists [Output ev], None. intros s. reflexivity.
      * exists [], None. intros s. simpl. by rewrite app_nil_r.
  - exists [line +:+ newline], None. intros s.
    by destruct (_ && _).
Qed.

Lemma loop_convert lines :
  ∃ (d : list string) (e : option error), ∀ s,
    result (loop C modeConvert s lines) = (e, out s ++ d).
Proof.
  induction lines as [|l lines (d & e & IH)].
  - exists [], None. intros s. simpl. by rewrite app_nil_r.
  - destruct (step_convert l) as (d1 & e1 & H1).
    destruct e1 as [e1|].
    + exists [], (Some e1). intros s. simpl. specialize (H1 s).
      destruct (step C modeConvert s l) as [s'|[e' s']]; [done|].
      destruct H1 as (-> & H1 & _). simpl. by rewrite H1, app_nil_r.
    + exists (d1 ++ d), e. intros s. simpl. specialize (H1 s).
      destruct (step C modeConvert s l) as [s'|[e' s']]; [|done].
      cbn iota. rewrite IH, H1. by rewrite <- app_assoc.
Qed.

Lemma filter_convert lines :
  filter C lines modeConvert = result (loop C modeConvert initial lines).
Proof.
  unfold filter. destruct (loop C modeConvert initial lines) as [s|[e s]];
    reflexivity.
Qed.

End FilterLoop.

(** X21.  In convert mode the filter keeps nothing from one line to the
    next: the output for two inputs one after the other is the output for
    the first followed by that for the second, with the second's error. *)
Theorem convert_is_linewise (C : Codec) (l1 l2 : list string) (w1 : list string) :
  filter C l1 modeConvert = (None, w1) →
  filter C (l1 ++ l2) modeConvert =
    ((filter C l2 modeConvert).1, w1 ++ (filter C l2 modeConvert).2).
Proof.
  rewrite !filter_convert. intros H1.
  rewrite loop_app.
  destruct (loop C modeConvert initial l1) as [s|[e s]]; [|discriminate].
  simpl in H1. injection H1 as <-.
  destruct (loop_convert C l2) as (d & e & H).
  rewrite (H s), (H initial). reflexivity.
Qed.

Lemma convert_is_linewise_witness :
  filter Sample.codec (["building"; "{out}"] ++ ["{run}"; "{bad}"; "{out}"])
    modeConvert
  = (Some (ENew "invalid character"),
     [String.append "building" newline; "hello"] ++ []).
Proof.
  exact (convert_is_linewise Sample.codec ["building"; "{out}"]
           ["{run}"; "{bad}"; "{out}"] _ eq_refl).
Defined.

(** X22.  Convert mode prints a plain line with its newline, the [Output]
    of an "output" event as it is, and nothing for any other event; a
    line that does not parse ends the run with the coder's error. *)
Theorem convert_one_line (C : Codec) (line : string) :
  filter C [line] modeConvert =
    if looksLikeJSON line then
      match Unmarshal C line with
      | inl err => (Some err, [])
      | inr ev =>
          (None, if String.eqb (Action ev) "output" then [Output ev] else [])
      end
    else (None, [line +:+ newline]).
Proof.
  rewrite filter_convert. simpl. unfold step.
  destruct (looksLikeJSON line); simpl.
  - destruct (Unmarshal C line) as [err|ev]; [reflexivity|].
    by destruct (String.eqb (Action ev) "output").
  - by destruct (_ || _).
Qed.

(** *** Strip and omit mode *)

Section FilterScopes.
Context (C : Codec).

Lemma convert_eqb mode : mode ≠ modeConvert → (mode =? modeConvert)%N = false.
Proof. intros H. by apply N.eqb_neq. Qed.

Lemma step_test mode s line ev :
  looksLikeJSON line = true → Unmarshal C line = inr ev →
  mode ≠ modeConvert → Test ev ≠ "" →
  step C mode s line =
    let key := (Package ev, Test ev) in
    let b := entWrite (default (MkEnt line "" "") (m s !! key)) line in
    let s := MkState (<[key := b]> (m s)) (S (n s)) (passFailLine s) (out s)
               (ranges s) in
    if String.eqb (Action ev) "pass" || String.eqb (Action ev) "skip"
       || String.eqb (Action ev) "fail"
    then
      let s := setM s (delete key (m s)) in
      if String.eqb (Action ev) "fail" then inl (write s (buf b))
      else if (mode =? modeStrip)%N
      then inl (write (write s (first b +:+ newline)) (line +:+ newline))
      else inl s
    else if String.eqb (Action ev) "run" || String.eqb (Action ev) "pause"
            || String.eqb (Action ev) "cont"
            || String.eqb (Action ev) "bench"
            || String.eqb (Action ev) "output"
    then inl s
    else inr (ENewf "unknown input: %s" [line], s).
Proof.
  intros H1 H2 H3 H4. unfold step. rewrite H1, H2. cbn [negb].
  rewrite (convert_eqb _ H3). apply eqb_false in H4. rewrite H4.
  reflexivity.
Qed.

Lemma flush_empty (s : state) keys :
  m s = ∅ →
  foldl (λ s key, match m s !! key with
                  | Some b => write s (buf b +:+ newline)
                  | None => s
                  end) s keys = s.
Proof.
  intros H. induction keys as [|k keys IH]; [reflexivity|].
  simpl. rewrite H, lookup_empty. exact IH.
Qed.

Lemma Contains_nonempty line sub :
  sub ≠ "" → Contains line sub = true → line ≠ "".
Proof. intros Hs H ->. destruct sub; [done|]. discriminate. Qed.

Lemma loop_plain mode lines s :
  Forall (λ l, looksLikeJSON l = false) lines →
  loop C mode s lines =
    inl (MkState (m s) (n s)
           (if String.eqb (passFailLine s) ""
            then default "" (List.find (λ l, Contains l "PASS" || Contains l "FAIL")
                              lines)
            else passFailLine s)
           (out s ++ if (mode =? modeOmit)%N then []
                     else map (λ l, l +:+ newline) lines)
           (ranges s)).
Proof.
  intros H. revert s. induction H as [|l lines Hl _ IH]; intros s.
  - simpl. destruct s as [m0 n0 p0 o0 r0]. simpl.
    destruct (String.eqb p0 "") eqn:Hp.
    + apply eqb_true in Hp as ->. destruct (_ =? _)%N; by rewrite app_nil_r.
    + destruct (_ =? _)%N; by rewrite app_nil_r.
  - cbn [loop]. rewrite (step_plain _ _ _ _ Hl). cbv zeta. rewrite IH. f_equal.
    destruct s as [m0 n0 p0 o0 r0].
    cbn [List.find passFailLine m n out ranges].
    destruct (String.eqb p0 "") eqn:Hp; cbn [andb passFailLine];
      [destruct (Contains l "PASS" || Contains l "FAIL") eqn:Ht|]; destruct (mode =? modeOmit)%N;
      cbn [negb write m n passFailLine out ranges map];
      rewrite ?Hp, <- ?app_assoc; try reflexivity.
    all: assert (l ≠ "") as Hne
        by (apply orb_true_iff in Ht as [Ht|Ht];
            eapply Contains_nonempty; try exact Ht; done).
    all: apply eqb_false in Hne; rewrite Hne; reflexivity.
Qed.

Lemma step_omit_silent s line :
  (∀ ev, Unmarshal C line = inr ev → Action ev ≠ "fail") →
  out s = [] →
  out (match step C modeOmit s line with inl s' => s' | inr (_, s') => s' end)
  = [].
Proof.
  intros H Hs. unfold step.
  destruct (looksLikeJSON line); cbn [negb].
  2: { change (modeOmit =? modeOmit)%N with true. cbn [negb].
       by destruct (_ && _). }
  destruct (Unmarshal C line) as [err|ev]; [exact Hs|].
  specialize (H ev eq_refl). apply eqb_false in H.
  change (modeOmit =? modeConvert)%N with false.
  change (modeOmit =? modeOmit)%N with true.
  change (modeOmit =? modeStrip)%N with false.
  cbv zeta. rewrite H. cbn [negb andb orb].
  destruct (String.eqb (Test ev) ""); [exact Hs|].
  cbn iota. rewrite H, !orb_false_r.
  repeat (match goal with |- context [if ?b then _ else _] => destruct b end);
    exact Hs.
Qed.

Lemma loop_omit_silent s lines :
  Forall (λ l, ∀ ev, Unmarshal C l = inr ev → Action ev ≠ "fail") lines →
  out s = [] →
  (result (loop C modeOmit s lines)).2 = [].
Proof.
  intros H. revert s. induction H as [|l lines Hl _ IH]; intros s Hs.
  - exact Hs.
  - cbn [loop]. pose proof (step_omit_silent s l Hl Hs) as Hstep.
    destruct (step C modeOmit s l) as [s'|[e s']]; [by apply IH|exact Hstep].
Qed.

Lemma filter_result mode lines :
  (filter C lines mode).2 =
    match loop C mode initial lines with
    | inl s =>
        out (if (mode =? modeStrip)%N then
               foldl (λ s key,
                        match m s !! key with
                        | Some b => write s (buf b +:+ newline)
                        | None => s
                        end) s (rangeOrder C (ranges s) (m s))
             else s)
    | inr (_, s) => out s
    end.
Proof.
  unfold filter. destruct (loop C mode initial lines) as [s|[e s]];
    [|reflexivity].
  by destruct (_ && _).
Qed.

End FilterScopes.

(** X23.  Input that holds no JSON line at all: every line is passed
    through with its newline (nothing in omit mode), and the run fails
    with the first line that contains PASS or FAIL, if there is one. *)
Theorem plain_text_is_rejected (C : Codec) (mode : modeT) (lines : list string) :
  mode ≠ modeConvert →
  Forall (λ l, looksLikeJSON l = false) lines →
  filter C lines mode =
    (match List.find (λ l, Contains l "PASS" || Contains l "FAIL") lines with
     | Some l =>
         Some (ENewf
                 "not a single test was parsed, but detected test output: %s"
                 [l])
     | None => None
     end,
     if (mode =? modeOmit)%N then [] else map (λ l, l +:+ newline) lines).
Proof.
  intros Hm H. unfold filter. rewrite (loop_plain C _ _ _ H).
  rewrite (convert_eqb _ Hm). cbn [initial m n passFailLine out ranges negb].
  rewrite flush_empty by reflexivity.
  replace (if (mode =? modeStrip)%N then _ else _)
    with (MkState ∅ 0
            (default "" (List.find (λ l, Contains l "PASS" || Contains l "FAIL")
                           lines))
            (if (mode =? modeOmit)%N then []
             else map (λ l, l +:+ newline) lines) 0)
    by (by destruct (mode =? modeStrip)%N).
  cbn [m n passFailLine out ranges Nat.eqb andb app].
  destruct (List.find _ lines) as [l|] eqn:Hf; [|reflexivity].
  apply List.find_some in Hf as [_ Hf]. cbn [default].
  assert (l ≠ "") as Hne
    by (apply orb_true_iff in Hf as [Hf|Hf];
        eapply Contains_nonempty; try exact Hf; done).
  apply eqb_false in Hne. unfold id. by rewrite Hne.
Qed.

Lemma plain_text_is_rejected_witness :
  filter Sample.codec ["=== RUN TestA"; "--- PASS: TestA"; "PASS"; "{}"]
    modeStrip
  = (Some (ENewf "not a single test was parsed, but detected test output: %s"
             ["--- PASS: TestA"]),
     map (λ l, l +:+ newline)
       ["=== RUN TestA"; "--- PASS: TestA"; "PASS"; "{}"]).
Proof.
  apply (plain_text_is_rejected Sample.codec modeStrip
           ["=== RUN TestA"; "--- PASS: TestA"; "PASS"; "{}"]).
  - discriminate.
  - repeat constructor.
Defined.

(** X24.  Omit mode writes nothing as long as no event that parses is a
    "fail" event, whatever else the input holds and however the run ends. *)
Theorem omit_is_silent_without_failure (C : Codec) (lines : list string) :
  Forall (λ l, ∀ ev, Unmarshal C l = inr ev → Action ev ≠ "fail") lines →
  (filter C lines modeOmit).2 = [].
Proof.
  intros H. rewrite filter_result.
  pose proof (loop_omit_silent C initial lines H eq_refl) as Hl.
  by destruct (loop C modeOmit initial lines) as [s|[e s]].
Qed.

Lemma omit_is_silent_without_failure_witness :
  (filter Sample.codec ["noise"; "{run}"; "{out}"; "{pass}"; "{odd}"; "{run}"]
     modeOmit).2 = [].
Proof.
  apply (omit_is_silent_without_failure Sample.codec).
  repeat (constructor; [intros ev [= <-]; discriminate|]). constructor.
Defined.

Section FilterOneScope.
Context (C : Codec).

Lemma step_open mode s line pkg test :
  mode ≠ modeConvert → test ≠ "" →
  scopeEvent C pkg test openAction line →
  step C mode s line =
    inl (MkState
           (<[(pkg, test) :=
                entWrite (default (MkEnt line "" "") (m s !! (pkg, test))) line]>
              (m s))
           (S (n s)) (passFailLine s) (out s) (ranges s)).
Proof.
  intros Hm Ht (Hj & ev & Hu & <- & <- & Ha).
  rewrite (step_test C mode s line ev Hj Hu Hm Ht). cbv zeta.
  unfold openAction in Ha. rewrite !elem_of_cons in Ha.
  destruct Ha as [->|[->|[->|[->|[->|Ha]]]]]; [reflexivity..|].
  by apply elem_of_nil in Ha.
Qed.

Lemma loop_open mode s lines pkg test b :
  mode ≠ modeConvert → test ≠ "" →
  Forall (scopeEvent C pkg test openAction) lines →
  m s !! (pkg, test) = Some b →
  loop C mode s lines =
    inl (MkState
           (<[(pkg, test) := MkEnt (first b) (last b) (buffered (buf b) lines)]>
              (m s))
           (length lines + n s) (passFailLine s) (out s) (ranges s)).
Proof.
  intros Hm Ht H. revert s b. induction H as [|l lines Hl _ IH]; intros s b Hb.
  - cbn [loop buffered foldl length Nat.add]. f_equal.
    destruct s as [m0 n0 p0 o0 r0]. cbn [m n passFailLine out ranges] in *.
    f_equal. rewrite insert_id; [done|]. by destruct b.
  - cbn [loop]. rewrite (step_open mode s l pkg test Hm Ht Hl).
    rewrite Hb. cbn [default].
    erewrite IH; [|cbn [m]; apply lookup_insert_eq].
    cbn [m n passFailLine out ranges entWrite first last buf length].
    rewrite insert_insert_eq. do 2 f_equal. lia.
Qed.

Lemma loop_scope mode l0 mid pkg test :
  mode ≠ modeConvert → test ≠ "" →
  Forall (scopeEvent C pkg test openAction) (l0 :: mid) →
  loop C mode initial (l0 :: mid) =
    inl (MkState {[ (pkg, test) := MkEnt l0 "" (buffered "" (l0 :: mid)) ]}
           (S (length mid)) "" [] 0).
Proof.
  intros Hm Ht H. apply Forall_cons in H as [H0 H].
  cbn [loop]. rewrite (step_open mode initial l0 pkg test Hm Ht H0).
  cbn [initial m n passFailLine out ranges]. rewrite lookup_empty.
  cbn [default].
  erewrite (loop_open mode _ mid pkg test) by
    first [done | cbn [m]; apply lookup_insert_eq].
  cbn [m n passFailLine out ranges entWrite first last buf].
  rewrite insert_insert_eq. do 2 f_equal. lia.
Qed.

Lemma step_close mode s line pkg test act :
  mode ≠ modeConvert → test ≠ "" →
  act ∈ ["pass"; "skip"; "fail"] →
  scopeEvent C pkg test (λ a, a = act) line →
  step C mode s line =
    let b := entWrite (default (MkEnt line "" "") (m s !! (pkg, test))) line in
    let s := MkState (delete (pkg, test) (m s)) (S (n s)) (passFailLine s)
               (out s) (ranges s) in
    inl (if String.eqb act "fail" then write s (buf b)
         else if (mode =? modeStrip)%N
         then write (write s (first b +:+ newline)) (line +:+ newline)
         else s).
Proof.
  intros Hm Ht Ha (Hj & ev & Hu & <- & <- & <-).
  rewrite (step_test C mode s line ev Hj Hu Hm Ht). cbv zeta.
  unfold setM. cbn [m n passFailLine out ranges].
  rewrite delete_insert_eq.
  rewrite !elem_of_cons in Ha.
  destruct Ha as [->|[->|[->|Ha]]]; [| |reflexivity|by apply elem_of_nil in Ha].
  - cbn [String.eqb Ascii.eqb Bool.eqb orb andb]. by destruct (_ =? _)%N.
  - cbn [String.eqb Ascii.eqb Bool.eqb orb andb]. by destruct (_ =? _)%N.
Qed.

End FilterOneScope.

(** X25.  One test from its first event to its end, alone in the input.
    If it fails, its whole buffer (every line of the test with a newline)
    is written in one piece, in strip and in omit mode; if it passes or is
    skipped, strip mode writes its first and its last line only and omit
    mode writes nothing. *)
Theorem closed_scope_output (C : Codec) (mode : modeT) (pkg test act : string)
    (l0 lend : string) (mid : list string) :
  mode ≠ modeConvert → test ≠ "" →
  Forall (scopeEvent C pkg test openAction) (l0 :: mid) →
  scopeEvent C pkg test (λ a, a = act) lend →
  act ∈ ["pass"; "skip"; "fail"] →
  filter C (l0 :: mid ++ [lend]) mode =
    (None,
     if String.eqb act "fail" then [buffered "" (l0 :: mid ++ [lend])]
     else if (mode =? modeStrip)%N then [l0 +:+ newline; lend +:+ newline]
     else []).
Proof.
  intros Hm Ht H Hend Ha. unfold filter.
  change (l0 :: mid ++ [lend]) with ((l0 :: mid) ++ [lend]).
  rewrite loop_app, (loop_scope C mode l0 mid pkg test Hm Ht H).
  cbn [loop]. rewrite (step_close C mode _ lend pkg test act Hm Ht Ha Hend).
  cbv zeta. cbn [m n passFailLine out ranges].
  rewrite lookup_singleton_eq, delete_singleton_eq. cbn [default].
  set (s := if String.eqb act "fail" then _ else _).
  assert (m s = ∅ ∧ n s = S (S (length mid)) ∧
          out s = if String.eqb act "fail"
                  then [buffered "" ((l0 :: mid) ++ [lend])]
                  else if (mode =? modeStrip)%N
                       then [l0 +:+ newline; lend +:+ newline] else [])
    as (Hs1 & Hs2 & Hs3).
  { subst s. destruct (String.eqb act "fail").
    - do 2 (split; [reflexivity|]). unfold buffered. rewrite foldl_app.
      reflexivity.
    - destruct (mode =? modeStrip)%N; done. }
  rewrite flush_empty by exact Hs1.
  replace (if (mode =? modeStrip)%N then s else s) with s
    by (by destruct (mode =? modeStrip)%N).
  rewrite Hs2, Hs3. cbn [Nat.eqb]. rewrite andb_false_r. reflexivity.
Qed.

Lemma closed_scope_output_witness :
  filter Sample.codec ("{run}" :: ["{out}"; "{out}"] ++ ["{pass}"]) modeStrip
  = (None, [String.append "{run}" newline; String.append "{pass}" newline]).
Proof.
  apply (closed_scope_output Sample.codec modeStrip "pkg" "TestA" "pass"
           "{run}" "{pass}" ["{out}"; "{out}"]).
  - discriminate.
  - discriminate.
  - repeat (constructor;
            [split; [reflexivity|];
             eexists; repeat (split; [reflexivity|]);
             unfold openAction; cbn [Action Sample.ev];
             rewrite !elem_of_cons; tauto|]).
    constructor.
  - split; [reflexivity|]. eexists. repeat (split; [reflexivity|]). reflexivity.
  - rewrite !elem_of_cons; tauto.
Defined.

(** X26.  A test that never ends, alone in the input: strip mode passes
    its whole buffer through after the last line, followed by one more
    newline; omit mode writes nothing.  The runtime may enumerate the map
    in any order. *)
Theorem open_scope_is_flushed (C : Codec) (mode : modeT) (pkg test : string)
    (l0 : string) (mid : list string) :
  (∀ k mp, rangeOrder C k mp ≡ₚ (map_to_list mp).*1) →
  mode ≠ modeConvert → test ≠ "" →
  Forall (scopeEvent C pkg test openAction) (l0 :: mid) →
  filter C (l0 :: mid) mode =
    (None,
     if (mode =? modeStrip)%N then [buffered "" (l0 :: mid) +:+ newline]
     else []).
Proof.
  intros Hord Hm Ht H. unfold filter.
  rewrite (loop_scope C mode l0 mid pkg test Hm Ht H).
  cbn [m n passFailLine out ranges].
  pose proof (Hord 0%nat {[ (pkg, test) := MkEnt l0 "" (buffered "" (l0 :: mid)) ]})
    as Hk.
  rewrite map_to_list_singleton in Hk. cbn [fmap list_fmap fst] in Hk.
  apply Permutation_singleton_r in Hk. rewrite Hk. cbn [foldl m].
  rewrite lookup_singleton_eq.
  destruct (mode =? modeStrip)%N;
    cbn [write m n passFailLine out ranges buf app Nat.eqb];
    by rewrite andb_false_r.
Qed.

Lemma open_scope_is_flushed_witness :
  filter Sample.codec ["{run}"; "{out}"] modeStrip
  = (None, [String.append (buffered "" ["{run}"; "{out}"]) newline]).
Proof.
  apply (open_scope_is_flushed Sample.codec modeStrip "pkg" "TestA" "{run}"
           ["{out}"]).
  - reflexivity.
  - discriminate.
  - discriminate.
  - repeat (constructor;
            [split; [reflexivity|];
             eexists; repeat (split; [reflexivity|]);
             unfold openAction; cbn [Action Sample.ev];
             rewrite !elem_of_cons; tauto|]).
    constructor.
Defined.

(** X27.  A JSON line that does not parse ends the run at once with the
    coder's error: the lines after it are not read, and what is still
    buffered is not flushed, in strip mode either. *)
Theorem parse_error_stops_the_run (C : Codec) (mode : modeT)
    (pre post : list string) (line : string) (s : state) (e : error) :
  loop C mode initial pre = inl s →
  looksLikeJSON line = true →
  Unmarshal C line = inl e →
  filter C (pre ++ line :: post) mode = (Some e, out s).
Proof.
  intros Hpre Hj Hu. unfold filter. rewrite loop_app, Hpre.
  cbn [loop]. by rewrite (step_parse_error C mode s line e Hj Hu).
Qed.

Lemma parse_error_stops_the_run_witness :
  filter Sample.codec (["plain"; "{run}"] ++ "{bad}" :: ["{fail}"]) modeStrip
  = (Some (ENew "invalid character"), [String.append "plain" newline]).
Proof.
  assert (∃ s, loop Sample.codec modeStrip initial ["plain"; "{run}"] = inl s
               ∧ out s = [String.append "plain" newline]) as (s & Hs & Hout)
    by (eexists; split; [vm_compute; reflexivity|reflexivity]).
  pose proof (parse_error_stops_the_run Sample.codec modeStrip
                ["plain"; "{run}"] ["{fail}"] "{bad}" s
                (ENew "invalid character") Hs eq_refl eq_refl) as H.
  rewrite Hout in H. exact H.
Defined.

(** X28.  An event of a named test whose action is none of the eight
    known ones ends the run with "unknown input" and the line; the lines
    after it are not read and nothing is flushed. *)
Theorem unknown_action_stops_the_run (C : Codec) (mode : modeT)
    (pre post : list string) (line : string) (s : state)
    (ev : testEvent (timeT C) (floatT C)) :
  loop C mode initial pre = inl s →
  looksLikeJSON line = true →
  Unmarshal C line = inr ev →
  mode ≠ modeConvert → Test ev ≠ "" →
  Action ev ∉ ["pass"; "skip"; "fail"; "run"; "pause"; "cont"; "bench"; "output"] →
  filter C (pre ++ line :: post) mode
  = (Some (ENewf "unknown input: %s" [line]), out s).
Proof.
  intros Hpre Hj Hu Hm Ht Ha. unfold filter. rewrite loop_app, Hpre.
  cbn [loop]. rewrite (step_test C mode s line ev Hj Hu Hm Ht). cbv zeta.
  rewrite !not_elem_of_cons in Ha.
  destruct Ha as (H1 & H2 & H3 & H4 & H5 & H6 & H7 & H8 & _).
  apply eqb_false in H1, H2, H3, H4, H5, H6, H7, H8.
  rewrite H1, H2, H3, H4, H5, H6, H7, H8. reflexivity.
Qed.

Lemma unknown_action_stops_the_run_witness :
  filter Sample.codec (["plain"; "{run}"] ++ "{odd}" :: ["{fail}"]) modeOmit
  = (Some (ENewf "unknown input: %s" ["{odd}"]), []).
Proof.
  assert (∃ s, loop Sample.codec modeOmit initial ["plain"; "{run}"] = inl s
               ∧ out s = []) as (s & Hs & Hout)
    by (eexists; split; [vm_compute; reflexivity|reflexivity]).
  assert (Action (Sample.ev "mystery" "pkg" "TestA" "")
          ∉ ["pass"; "skip"; "fail"; "run"; "pause"; "cont"; "bench"; "output"])
    as Ha.
  { cbn [Action Sample.ev]. rewrite !not_elem_of_cons.
    repeat (split; [discriminate|]). apply not_elem_of_nil. }
  pose proof (unknown_action_stops_the_run Sample.codec modeOmit
                ["plain"; "{run}"] ["{fail}"] "{odd}" s
                (Sample.ev "mystery" "pkg" "TestA" "") Hs eq_refl eq_refl
                ltac:(discriminate) ltac:(discriminate) Ha) as H.
  rewrite Hout in H. exact H.
Defined.

Section FilterPackage.
Context (C : Codec).

Lemma range_two (k : nat) (k1 k2 : string * string) (v1 v2 : ent) :
  (∀ k mp, rangeOrder C k mp ≡ₚ (map_to_list mp).*1) →
  k1 ≠ k2 →
  rangeOrder C k (<[k1 := v1]> {[ k2 := v2 ]}) = [k1; k2]
  ∨ rangeOrder C k (<[k1 := v1]> {[ k2 := v2 ]}) = [k2; k1].
Proof.
  intros Hord Hne. specialize (Hord k (<[k1 := v1]> {[ k2 := v2 ]})).
  rewrite map_to_list_insert in Hord by (by rewrite lookup_singleton_ne).
  rewrite map_to_list_singleton in Hord. cbn [fmap list_fmap fst] in Hord.
  symmetry in Hord. apply Permutation_length_2_inv in Hord. exact Hord.
Qed.

End FilterPackage.

(** X29.  A package that fails while one of its top-level tests is still
    open, alone in the input: the test's buffer is written first, closed
    by a synthesized "skip" event and one more newline; then the package
    is written as the pseudo-test PackageLevel, a synthesized "run" event
    followed by the failure, whose output names the open test.  Strip and
    omit mode agree, and so does every order of enumerating the map. *)
Theorem package_failure_reports_open_test (C : Codec) (mode : modeT)
    (pkg test l0 lp fake js closing : string) (mid : list string)
    (evp : testEvent (timeT C) (floatT C)) :
  (∀ k mp, rangeOrder C k mp ≡ₚ (map_to_list mp).*1) →
  mode ≠ modeConvert →
  test ≠ "" → test ≠ "PackageLevel" → Contains test "/" = false →
  Forall (scopeEvent C pkg test openAction) (l0 :: mid) →
  looksLikeJSON lp = true →
  Unmarshal C lp = inr evp →
  Package evp = pkg → Test evp = "" → Action evp = "fail" →
  Marshal C (MkEvent (Time evp) "run" pkg "PackageLevel" (Elapsed evp) "")
    = inr fake →
  Marshal C (MkEvent (Time evp) "skip" pkg test (zeroFloat C)
               ("unfinished due to package-level failure" +:+ helpMessage))
    = inr js →
  Marshal C (MkEvent (Time evp) "fail" pkg "PackageLevel" (Elapsed evp)
               ((Output evp +:+ helpMessage) +:+ newline +:+
                "The following tests have not completed and could be the cause of the failure:"
                +:+ newline +:+ test))
    = inr closing →
  filter C (l0 :: mid ++ [lp]) mode =
    (None, [buffered "" (l0 :: mid ++ [js]) +:+ newline;
            buffered "" [fake; closing]]).
Proof.
  intros Hord Hm Ht Htp Hsl H Hj Hu Hp Hte Ha Hfake Hjs Hclose.
  unfold filter.
  change (l0 :: mid ++ [lp]) with ((l0 :: mid) ++ [lp]).
  rewrite loop_app, (loop_scope C mode l0 mid pkg test Hm Ht H).
  cbn [loop]. unfold step. rewrite Hj, Hu. cbn [negb].
  rewrite (convert_eqb _ Hm). rewrite Hte, Ha.
  cbn [String.eqb Ascii.eqb Bool.eqb andb negb]. rewrite andb_false_r.
  cbv zeta.
  unfold setTest, setOutput, setAction.
  cbn [Time Action Package Test Elapsed Output m n passFailLine out ranges
       String.eqb Ascii.eqb Bool.eqb andb negb].
  rewrite Hp, Ha. cbn [String.eqb Ascii.eqb Bool.eqb andb negb].
  rewrite lookup_singleton_ne by (by intros [=]).
  cbn [Time Action Package Test Elapsed Output
       String.eqb Ascii.eqb Bool.eqb andb].
  rewrite Hfake. unfold setM. cbn [m n passFailLine out ranges].
  set (b0 := MkEnt l0 "" (buffered "" (l0 :: mid))).
  set (k1 := (pkg, "PackageLevel")).
  set (k2 := (pkg, test)).
  set (v1 := entWrite (MkEnt fake "" "") fake).
  set (ev := MkEvent _ "fail" pkg "PackageLevel" _ _).
  assert (k1 ≠ k2) as Hk by (unfold k1, k2; by intros [=]).
  assert (∀ st rep, m st !! k2 = Some b0 →
            dumpScope C ev (st, rep) k2
            = (MkState (delete k2 (m st)) (n st) (passFailLine st)
                 (out st ++ [buf (entWrite b0 js) +:+ newline]) (ranges st),
               rep +:+ newline +:+ test)) as Hdump2.
  { intros st rep Hst. unfold dumpScope. subst k2 ev.
    cbn [fst snd Package Test Time].
    rewrite String.eqb_refl. apply eqb_false in Htp. rewrite Htp.
    cbn [negb andb]. rewrite Hst, Hsl. cbn [negb]. rewrite Hjs.
    reflexivity. }
  assert (∀ acc, dumpScope C ev acc k1 = acc) as Hdump1.
  { intros [st rep]. unfold dumpScope. subst k1 ev.
    cbn [fst snd Package Test]. rewrite !String.eqb_refl. reflexivity. }
  assert (foldl (dumpScope C ev)
            (MkState (<[k1 := v1]> {[ k2 := b0 ]}) (S (S (length mid))) "" [] 1,
             "")
            (rangeOrder C 0 (<[k1 := v1]> {[ k2 := b0 ]}))
          = (MkState {[ k1 := v1 ]} (S (S (length mid))) "" 
               [buf (entWrite b0 js) +:+ newline] 1, newline +:+ test))
    as Hfold.
  { destruct (range_two C 0 k1 k2 v1 b0 Hord Hk) as [-> | ->];
      cbn [foldl]; rewrite ?Hdump1.
    - rewrite Hdump2
        by (cbn [m]; rewrite lookup_insert_ne by done;
            apply lookup_singleton_eq).
      rewrite ?Hdump1. cbn [m n passFailLine out ranges app].
      rewrite delete_insert_ne by done. by rewrite delete_singleton_eq.
    - rewrite Hdump2
        by (cbn [m]; rewrite lookup_insert_ne by done;
            apply lookup_singleton_eq).
      rewrite ?Hdump1. cbn [m n passFailLine out ranges app].
      rewrite delete_insert_ne by done. by rewrite delete_singleton_eq. }
  rewrite Hfold.
  assert ((0 <? String.length (newline +:+ test))%nat = true) as -> by done.
  subst ev. cbn [Output Time Action Package Test Elapsed].
  rewrite Hclose. cbn [Package Test Action m n passFailLine out ranges].
  fold k1. rewrite lookup_singleton_eq. cbn [default orb].
  rewrite insert_singleton_eq, delete_singleton_eq.
  cbn [String.eqb Ascii.eqb Bool.eqb orb andb buf]. unfold id.
  rewrite flush_empty by reflexivity.
  replace (if (mode =? modeStrip)%N then _ else _)
    with (write (MkState ∅ (S (S (length mid))) "" 
                   [buf (entWrite b0 js) +:+ newline] 1)
            (buf (entWrite v1 closing)))
    by (by destruct (mode =? modeStrip)%N).
  cbn [write m n passFailLine out ranges Nat.eqb andb app].
  rewrite ?andb_false_r. f_equal. f_equal.
  subst b0. unfold buffered. cbn [foldl entWrite buf]. rewrite foldl_app.
  reflexivity.
Qed.

Lemma package_failure_reports_open_test_witness :
  ∃ report closing,
    filter Sample.codec ("{run}" :: ["{out}"] ++ ["{pkgfail}"]) modeOmit
    = (None, [report; closing]).
Proof.
  eexists _, _.
  eapply package_failure_reports_open_test
    with (pkg := "pkg") (test := "TestA") (evp := Sample.ev "fail" "pkg" "" "");
    try reflexivity; try discriminate.
  repeat (constructor;
          [split; [reflexivity|];
           eexists; repeat (split; [reflexivity|]);
           unfold openAction; cbn [Action Sample.ev];
           rewrite !elem_of_cons; tauto|]).
  constructor.
Defined.
